(** * Autoconfig: inferring a rule configuration from source code

    A shallow embedding of the autoconfig module (schema expansion, the
    configuration registry, the linting pass, extension of the recommended
    configuration), of [getSourceCodeOfFiles] and of the configuration
    wizard ([configureRules], [processAnswers], [getConfigForStyleGuide],
    [writeFile]), followed by the properties established about them. *)

From stdpp Require Import gmap strings list fin_maps.
From Stdlib Require Import ZArith.

Set Warnings "-register-all".
Open Scope string_scope.
Open Scope list_scope.

(** ** JavaScript values *)

(** The values that occur as rule options: literals, arrays and plain
    objects.  An object keeps its properties in insertion order, which is the
    order [Object.keys] enumerates them in.  Numbers are integers here; the
    code only ever compares them with the severities 0, 1 and 2. *)
Inductive jsval : Type :=
  | JUndefined
  | JNull
  | JBool (b : bool)
  | JNum (n : Z)
  | JStr (s : string)
  | JArr (xs : list jsval)
  | JObj (props : list (string * jsval)).

(** [typeof v === "object"]: true of [null], arrays and objects. *)
Definition typeof_object (v : jsval) : bool :=
  match v with
  | JNull | JArr _ | JObj _ => true
  | _ => false
  end.

(** Property lookup in an object's property list. *)
Fixpoint obj_get {V : Type} (k : string) (props : list (string * V)) : option V :=
  match props with
  | [] => None
  | (k', v) :: rest => if String.eqb k' k then Some v else obj_get k rest
  end.

(** [obj[k] = v]: an existing property keeps its place, a new one is added
    at the end. *)
Fixpoint obj_set {V : Type} (k : string) (v : V) (props : list (string * V))
  : list (string * V) :=
  match props with
  | [] => [(k, v)]
  | (k', v') :: rest =>
      if String.eqb k' k then (k, v) :: rest else (k', v') :: obj_set k v rest
  end.

(** The names that every object inherits from [Object.prototype].  The
    value of each is truthy: a function, or for "__proto__" the prototype
    itself. *)
Definition objectPrototypeNames : list string :=
  ["constructor"; "__defineGetter__"; "__defineSetter__"; "hasOwnProperty";
   "__lookupGetter__"; "__lookupSetter__"; "isPrototypeOf";
   "propertyIsEnumerable"; "toString"; "valueOf"; "__proto__";
   "toLocaleString"].

(** [obj[k] = v] on an object made by [{}], for any name [k]: assigning to
    "__proto__" runs the setter that [Object.prototype] has for it, which
    sets the prototype of the object when [v] is an object or [null] and does
    nothing otherwise; either way the object gets no property.  A value
    keeps no record of its prototype. *)
Definition obj_assign {V : Type} (k : string) (v : V)
    (props : list (string * V)) : list (string * V) :=
  if String.eqb k "__proto__" then props else obj_set k v props.

(** lodash's [isEqual]: deep comparison; two objects are equal when they have
    the same number of properties and every property of the first has an equal
    value in the second. *)
Fixpoint isEqual (a b : jsval) {struct a} : bool :=
  match a, b with
  | JUndefined, JUndefined => true
  | JNull, JNull => true
  | JBool x, JBool y => Bool.eqb x y
  | JNum x, JNum y => Z.eqb x y
  | JStr x, JStr y => String.eqb x y
  | JArr xs, JArr ys =>
      (fix all2 (xs ys : list jsval) {struct xs} : bool :=
         match xs, ys with
         | [], [] => true
         | x :: xs', y :: ys' => isEqual x y && all2 xs' ys'
         | _, _ => false
         end) xs ys
  | JObj ps, JObj qs =>
      Nat.eqb (length ps) (length qs) &&
      (fix props (ps : list (string * jsval)) {struct ps} : bool :=
         match ps with
         | [] => true
         | (k, v) :: ps' =>
             match obj_get k qs with
             | Some w => isEqual v w
             | None => false
             end && props ps'
         end) ps
  | _, _ => false
  end.

(** ** Rule configurations

    [@typedef {array|number} ruleConfig]: a bare severity, or an array whose
    first element is the severity. *)
Inductive ruleConfig : Type :=
  | CfgNum (severity : Z)
  | CfgArr (elems : list jsval).

Definition config_value (c : ruleConfig) : jsval :=
  match c with
  | CfgNum n => JNum n
  | CfgArr xs => JArr xs
  end.

(** [config === 0]. *)
Definition isOff (c : ruleConfig) : bool :=
  match c with
  | CfgNum 0 => true
  | _ => false
  end.

(** [config[i]]; indexing a number yields [undefined]. *)
Definition config_at (c : ruleConfig) (i : nat) : jsval :=
  match c with
  | CfgNum _ => JUndefined
  | CfgArr xs => default JUndefined (xs !! i)
  end.

(** [config.length || 1]. *)
Definition config_specificity (c : ruleConfig) : nat :=
  match c with
  | CfgNum _ => 1
  | CfgArr xs => if Nat.eqb (length xs) 0 then 1 else length xs
  end.

(** ** Exceptions *)

Inductive exn : Type :=
  | TypeError (what : string)
  | ExternalError (what : string).

Inductive result (A : Type) : Type :=
  | Ok (a : A)
  | Throw (e : exn).
Arguments Ok {A} a.
Arguments Throw {A} e.

(** ** Rule schemas

    The parts of a rule's JSON schema that the generator looks at.  A field
    that is absent ([undefined]) is [None]; an [enum] that is present is
    truthy even when it is the empty array. *)
Record propSchema : Type := PropSchema {
  prop_enum : option (list jsval);
  prop_type : option string
}.

Record optSchema : Type := OptSchema {
  opt_enum : option (list jsval);
  opt_type : option string;
  opt_properties : option (list (string * propSchema))
}.

Inductive schema : Type :=
  | SchemaArray (opts : list optSchema)
  | SchemaOther.

(** [x.type && x.type === name]. *)
Definition type_is (type : option string) (name : string) : bool :=
  match type with
  | Some t => String.eqb t name
  | None => false
  end.

(** ** RuleConfigSet

    While a set is being built its configurations are arrays that the final
    [addErrorSeverity] mutates in place ([config.unshift(severity)]).  An array
    of the set may hold another array of the set as an element (see
    [combineArrays] with an empty second argument), so an element is either a
    value or a reference to the configuration at a position of [ruleConfigs];
    positions are stable because the set only grows at its end. *)
Inductive cell : Type :=
  | CVal (v : jsval)
  | CRef (i : nat).

Definition ruleConfigs := list (list cell).

(** [explodeArray(xs)] for an array of values. *)
Definition explodeArray (xs : list jsval) : ruleConfigs :=
  map (fun x => [CVal x]) xs.

(** [explodeArray(this.ruleConfigs)]: every wrapper holds the configuration
    itself, not a copy. *)
Definition explodeConfigs (configs : ruleConfigs) : ruleConfigs :=
  map (fun i => [CRef i]) (seq 0 (length configs)).

(** The cells [[].concat(x1, x2)] appends for [x2]: an array is spread, any
    other value is appended as it is. *)
Definition concat_arg (v : jsval) : list cell :=
  match v with
  | JArr ys => map CVal ys
  | _ => [CVal v]
  end.

Definition combineArrays (arr1 : ruleConfigs) (arr2 : list jsval) : ruleConfigs :=
  if Nat.eqb (length arr1) 0 then explodeArray arr2
  else if Nat.eqb (length arr2) 0 then explodeConfigs arr1
  else flat_map (fun x1 => map (fun x2 => x1 ++ concat_arg x2) arr2) arr1.

(** [addEnums(enums)]. *)
Definition addEnums (configs : ruleConfigs) (enums : list jsval) : ruleConfigs :=
  configs ++ combineArrays configs enums.

(** An option object under construction: its property list. *)
Definition optionObj := list (string * jsval).

(** [objectConfigSet.add(property, values)]: every object pushed is
    [optionObj = {}] after [optionObj[property] = values[idx]]. *)
Definition objectConfigs_add (objectConfigs : list optionObj)
    (property : string) (values : list jsval) : list optionObj :=
  objectConfigs ++ map (fun v => obj_assign property v []) values.

(** [Object.keys(obj)[0]], as a property name: for an object without
    properties it is [undefined], which as a property name reads
    "undefined". *)
Definition first_key (obj : optionObj) : string :=
  match obj with
  | [] => "undefined"
  | (k, _) :: _ => k
  end.

(** [groupByProperty(objects)].  The accumulator is made by [{}], so
    [accumulator[prop]] finds, for a name the accumulator does not have
    itself, the member [Object.prototype] has of that name, if any; that
    member is truthy and has no [concat], so the call of it raises a
    [TypeError].  The groups come in the order the properties were added:
    the properties of a schema come from [Object.keys], which has names that
    are array indices first, as [Object.keys(groupedObj)] has. *)
Definition groupByProperty (objects : list optionObj)
  : result (list (list optionObj)) :=
  let groupedObj :=
    foldl (fun accumulator obj =>
             match accumulator with
             | Throw e => Throw e
             | Ok accumulator =>
                 let prop := first_key obj in
                 match obj_get prop accumulator with
                 | Some group => Ok (obj_set prop (group ++ [obj]) accumulator)
                 | None =>
                     if bool_decide (prop ∈ objectPrototypeNames)
                     then Throw (TypeError
                                   "accumulator[prop].concat is not a function")
                     else Ok (obj_set prop [obj] accumulator)
                 end
             end) (Ok []) objects in
  match groupedObj with
  | Ok groupedObj => Ok (map snd groupedObj)
  | Throw e => Throw e
  end.

Definition combinePropertyObjects (objArr1 objArr2 : list optionObj)
  : list optionObj :=
  if Nat.eqb (length objArr1) 0 then objArr2
  else if Nat.eqb (length objArr2) 0 then objArr1
  else flat_map (fun obj1 =>
         map (fun obj2 =>
                let combinedObj :=
                  foldl (fun o kv => obj_assign kv.1 kv.2 o) [] obj1 in
                foldl (fun o kv => obj_assign kv.1 kv.2 o) combinedObj obj2)
             objArr2) objArr1.

(** [objectConfigSet.combine()]. *)
Definition objectConfigs_combine (objectConfigs : list optionObj)
  : result (list optionObj) :=
  match groupByProperty objectConfigs with
  | Ok groups => Ok (foldl combinePropertyObjects [] groups)
  | Throw e => Throw e
  end.

(** The loop of [addObject] over [Object.keys(obj.properties)]. *)
Definition objectConfigs_of_properties (properties : list (string * propSchema))
  : list optionObj :=
  foldl (fun objectConfigs p =>
           let prop := p.1 in
           let s := p.2 in
           let after_enum :=
             match prop_enum s with
             | Some values => objectConfigs_add objectConfigs prop values
             | None => objectConfigs
             end in
           if type_is (prop_type s) "boolean"
           then objectConfigs_add after_enum prop [JBool true; JBool false]
           else after_enum) [] properties.

(** [addObject(obj)].  [Object.keys(obj.properties)] raises a [TypeError]
    when the schema item has no [properties], and [combine()] raises the one
    of [groupByProperty].  The test [if (objectConfigSet.objectConfigs)] is
    of an array, which is truthy also when it is empty. *)
Definition addObject (configs : ruleConfigs) (obj : optSchema)
  : result ruleConfigs :=
  match opt_properties obj with
  | None => Throw (TypeError "Cannot convert undefined or null to object")
  | Some properties =>
      match objectConfigs_combine (objectConfigs_of_properties properties) with
      | Ok objectConfigs =>
          Ok (configs ++ combineArrays configs (map JObj objectConfigs))
      | Throw e => Throw e
      end
  end.

(** The state of the configuration arrays after [addErrorSeverity] has
    unshifted the severity onto every one of them, read off in order: a
    reference is to an array earlier in the set, which by then starts with
    the severity too. *)
Definition resolve_cell (done : list jsval) (c : cell) : jsval :=
  match c with
  | CVal v => v
  | CRef i => default JUndefined (done !! i)
  end.

Fixpoint resolve (severity : Z) (done : list jsval) (todo : ruleConfigs)
  : list jsval :=
  match todo with
  | [] => done
  | config :: rest =>
      resolve severity
        (done ++ [JArr (JNum severity :: map (resolve_cell done) config)]) rest
  end.

Definition as_config (v : jsval) : ruleConfig :=
  match v with
  | JArr xs => CfgArr xs
  | JNum n => CfgNum n
  | _ => CfgNum 0
  end.

(** [addErrorSeverity(severity)]; the argument is optional, and
    [severity || 2] takes 2 for a missing one and for 0. *)
Definition addErrorSeverity (severity : option Z) (configs : ruleConfigs)
  : list ruleConfig :=
  let severity :=
    match severity with
    | Some s => if Z.eqb s 0 then 2%Z else s
    | None => 2%Z
    end in
  CfgNum severity :: map as_config (resolve severity [] configs).

(** The body of [schema.forEach] in [generateConfigsFromSchema]; [oneOf] is
    not implemented by the source and changes nothing. *)
Definition addOption (configs : ruleConfigs) (opt : optSchema)
  : result ruleConfigs :=
  let after_enum :=
    match opt_enum opt with
    | Some enums => addEnums configs enums
    | None => configs
    end in
  if type_is (opt_type opt) "object"
  then addObject after_enum opt
  else Ok after_enum.

Fixpoint addOptions (configs : ruleConfigs) (opts : list optSchema)
  : result ruleConfigs :=
  match opts with
  | [] => Ok configs
  | opt :: rest =>
      match addOption configs opt with
      | Ok configs' => addOptions configs' rest
      | Throw e => Throw e
      end
  end.

Definition generateConfigsFromSchema (s : schema) : result (list ruleConfig) :=
  match s with
  | SchemaArray opts =>
      match addOptions [] opts with
      | Ok configs => Ok (addErrorSeverity None configs)
      | Throw e => Throw e
      end
  | SchemaOther => Ok (addErrorSeverity None [])
  end.

(** ** The store

    Registry items are objects that several registries may hold at once; the
    code updates their [errorCount] in place.  They live in a heap and are
    referred to by location.  The arrays and rule maps of a registry are only
    ever written while they are fresh, so they are plain values. *)

(** The values [errorCount] takes: [undefined] (set by [makeRegistryItems]), a
    number, or [NaN] (what [undefined += 1] would leave). *)
Inductive count : Type :=
  | Undefined
  | Num (n : Z)
  | NaN.

Record registryItem : Type := RegistryItem {
  config : ruleConfig;
  specificity : nat;
  errorCount : count
}.

Abbreviation loc := nat.

(** [registryItem.errorCount === 0]. *)
Definition errorFree (registryItem : registryItem) : bool :=
  match errorCount registryItem with
  | Num 0 => true
  | _ => false
  end.

(** [typeof registryItem.errorCount !== "undefined"]. *)
Definition wasLinted (registryItem : registryItem) : bool :=
  match errorCount registryItem with
  | Undefined => false
  | _ => true
  end.

(** [registryItem.specificity === specificity]. *)
Definition hasSpecificity (n : nat) (registryItem : registryItem) : bool :=
  Nat.eqb (specificity registryItem) n.

(** [errorCount += 1]. *)
Definition increment (c : count) : count :=
  match c with
  | Num n => Num (n + 1)
  | _ => NaN
  end.

(** [Registry.rules]: rule id to array of registry items. *)
Abbreviation Registry := (gmap string (list loc)).

(** One rule set, which is also the shape of the [rules] section of a
    configuration: rule id to rule configuration. *)
Abbreviation RuleSet := (gmap string ruleConfig).

(** [@typedef rulesConfig]: rule id to the array of the configurations that
    are valid for the rule. *)
Abbreviation RulesConfig := (gmap string (list ruleConfig)).

(** An ESLint configuration object: its [rules], its [extends], and the
    other properties ([env], [parserOptions], ...), which this code only
    copies. *)
Record eslintConfig : Type := EslintConfig {
  rules : RuleSet;
  extends : option string;
  others : list (string * jsval)
}.

(** What is written to the console, and which external calls are made. *)
Inductive event : Type :=
  | EvVerify (filename : string) (ruleSetIdx : nat)
  | EvConsoleError (what : string)
  | EvProgress (total : nat)
  | EvUiComplete.

(** The outcome of one call of [eslint.verify]: the rule ids of the messages
    it returns, or an exception.  A message without a rule carries the id
    [null], which as a property name reads "null". *)
Inductive verifyOutcome : Type :=
  | Returns (ruleIds : list string)
  | Throws (err : string).

(** [Object.keys] of a map.  JavaScript enumerates the keys in the order
    they were added, the map in the order of the keys themselves; nothing
    below depends on which. *)
Definition keys {V : Type} (m : gmap string V) : list string :=
  (map_to_list m).*1.

(** [arr[i] = x] for [i] up to the length of the array; at the length the
    array grows by one. *)
Definition array_set {A : Type} (i : nat) (x : A) (l : list A) : list A :=
  if decide (i < length l) then <[i := x]> l else l ++ [x].

(** ** State passing

    The code is sequential and works on mutable objects: a computation takes
    the state and returns its result with the state it leaves. *)
Definition State (S A : Type) : Type := S -> A * S.

Definition ret {S A : Type} (a : A) : State S A := fun s => (a, s).

Definition bind {S A B : Type} (m : State S A) (k : A -> State S B)
  : State S B :=
  fun s => let (a, s') := m s in k a s'.

Notation "'let*' x := m 'in' k" := (bind m (fun x => k))
  (at level 10, x name, m at level 100, k at level 200).

Fixpoint foldM {S A B : Type} (f : B -> A -> State S B) (b : B) (l : list A)
  : State S B :=
  match l with
  | [] => ret b
  | x :: l' => let* b' := f b x in foldM f b' l'
  end.

Fixpoint mapM {S A B : Type} (f : A -> State S B) (l : list A)
  : State S (list B) :=
  match l with
  | [] => ret []
  | x :: l' => let* y := f x in let* ys := mapM f l' in ret (y :: ys)
  end.

Fixpoint filterM {S A : Type} (p : A -> State S bool) (l : list A)
  : State S (list A) :=
  match l with
  | [] => ret []
  | x :: l' =>
      let* b := p x in
      let* xs := filterM p l' in
      ret (if b then x :: xs else xs)
  end.

Definition MAX_CONFIG_COMBINATIONS : nat := 17.

Section Engine.

(** A [SourceCode] object is opaque to this code. *)
Context {SourceCode : Type}.

(** The mutable state: the heap of registry items, the [sourceCodes] object
    of the caller (filename to [SourceCode], or [null] once deallocated), and
    the trace of console output and external calls. *)
Record world : Type := World {
  heap : list registryItem;
  sourceCodes : gmap string (option SourceCode);
  trace : list event
}.

Definition M (A : Type) : Type := State world A.

(** Reading a registry item. *)
Definition getItem (l : loc) : M (option registryItem) :=
  fun w => (heap w !! l, w).

(** Creating a registry item. *)
Definition newItem (it : registryItem) : M loc :=
  fun w => (length (heap w),
            World (heap w ++ [it]) (sourceCodes w) (trace w)).

(** [item.errorCount = c]. *)
Definition setErrorCount (l : loc) (c : count) : M unit :=
  fun w => (tt, World (alter (fun it => RegistryItem (config it) (specificity it) c)
                             l (heap w))
                      (sourceCodes w) (trace w)).

Definition emit (e : event) : M unit :=
  fun w => (tt, World (heap w) (sourceCodes w) (trace w ++ [e])).

Definition getSourceCodes : M (gmap string (option SourceCode)) :=
  fun w => (sourceCodes w, w).

(** [sourceCodes[filename] = null]. *)
Definition deallocate (filename : string) : M unit :=
  fun w => (tt, World (heap w) (<[filename := None]> (sourceCodes w)) (trace w)).

(** A test on the item at a location, as the callbacks of [filter] make it. *)
Definition testItem (p : registryItem -> bool) (l : loc) : M bool :=
  let* it := getItem l in
  ret (match it with Some it => p it | None => false end).

(** ** Registry *)

Definition makeRegistryItems (rulesConfig : RulesConfig)
  : M Registry :=
  foldM (fun accumulator ruleId =>
           let* items :=
             mapM (fun config =>
                     newItem (RegistryItem config
                                (config_specificity config) Undefined))
                  (default [] (rulesConfig !! ruleId)) in
           ret (<[ruleId := items]> accumulator))
        ∅ (keys rulesConfig).

(** [new Registry(rulesConfig)]. *)
Definition Registry_new (rulesConfig : option RulesConfig)
  : M Registry :=
  match rulesConfig with
  | Some rulesConfig => makeRegistryItems rulesConfig
  | None => ret ∅
  end.

(** [addRuleToRuleSet(rule)] of [buildRuleSets], at the current [idx]. *)
Definition addRuleToRuleSet (this : Registry) (idx : nat)
    (ruleSets : list RuleSet) (rule : string) : M (list RuleSet) :=
  let items := default [] (this !! rule) in
  let hasFewCombos := bool_decide (length items <= MAX_CONFIG_COMBINATIONS) in
  match items !! idx with
  | None => ret ruleSets
  | Some l =>
      let* it := getItem l in
      match it with
      | None => ret ruleSets
      | Some it =>
          if hasFewCombos || bool_decide (specificity it <= 2) then
            if negb hasFewCombos && typeof_object (config_at (config it) 1)
            then ret ruleSets
            else
              let ruleSet := default ∅ (ruleSets !! idx) in
              let* _ := setErrorCount l (Num 0) in
              ret (array_set idx (<[rule := config it]> ruleSet) ruleSets)
          else ret ruleSets
      end
  end.

(** The loop [while (ruleSets.length === idx)] of [buildRuleSets], run for at
    most [fuel] rounds. *)
Fixpoint buildRuleSets_loop (fuel : nat) (this : Registry) (idx : nat)
    (ruleSets : list RuleSet) : M (list RuleSet) :=
  match fuel with
  | 0 => ret ruleSets
  | S fuel' =>
      if decide (length ruleSets = idx) then
        let* ruleSets' := foldM (addRuleToRuleSet this idx) ruleSets (keys this) in
        buildRuleSets_loop fuel' this (S idx) ruleSets'
      else ret ruleSets
  end.

(** The longest array of items in a registry. *)
Definition longest (this : Registry) : nat :=
  max_list (length <$> (map_to_list this).*2).

(** [buildRuleSets()].  The loop leaves at the first index at which no rule
    contributes, which is at most [longest this]. *)
Definition buildRuleSets (this : Registry) : M (list RuleSet) :=
  buildRuleSets_loop (S (longest this)) this 0 [].

Definition stripFailingConfigs (this : Registry) : M Registry :=
  foldM (fun newRules ruleId =>
           let* errorFreeItems :=
             filterM (testItem errorFree) (default [] (newRules !! ruleId)) in
           ret (if bool_decide (0 < length errorFreeItems)
                then <[ruleId := errorFreeItems]> newRules
                else delete ruleId newRules))
        this (keys this).

Definition stripExtraConfigs (this : Registry) : M Registry :=
  foldM (fun newRules ruleId =>
           let* items :=
             filterM (testItem wasLinted) (default [] (newRules !! ruleId)) in
           ret (<[ruleId := items]> newRules))
        this (keys this).

Definition createConfig (this : Registry) : M eslintConfig :=
  let* rules :=
    foldM (fun rules ruleId =>
             match default [] (this !! ruleId) with
             | [l] =>
                 let* it := getItem l in
                 ret (match it with
                      | Some it => <[ruleId := config it]> rules
                      | None => rules
                      end)
             | _ => ret rules
             end)
          ∅ (keys this) in
  ret (EslintConfig rules None []).

Definition filterBySpecificity (n : nat) (this : Registry) : M Registry :=
  foldM (fun newRules ruleId =>
           let* items :=
             filterM (testItem (hasSpecificity n)) (default [] (this !! ruleId)) in
           ret (<[ruleId := items]> newRules))
        this (keys this).

(** ** Linting *)

(** [eslint.verify(sourceCode, config)]. *)
Context (verify : option SourceCode -> eslintConfig -> verifyOutcome).

(** [lintResults.forEach] inside the [try]: the count of the item at
    [ruleSetIdx] of the rule of each message is incremented.  Reading the item
    of a rule the registry lacks, or one past the end of the rule's array,
    raises a [TypeError], which leaves the loop. *)
Fixpoint countResults (lintedRegistry : Registry) (ruleSetIdx : nat)
    (lintResults : list string) : M (result unit) :=
  match lintResults with
  | [] => ret (Ok tt)
  | ruleId :: rest =>
      match lintedRegistry !! ruleId with
      | None => ret (Throw (TypeError "Cannot read property of undefined"))
      | Some items =>
          match items !! ruleSetIdx with
          | None =>
              ret (Throw (TypeError "Cannot read property errorCount of undefined"))
          | Some l =>
              let* it := getItem l in
              let* _ :=
                setErrorCount l
                  (increment (from_option errorCount Undefined it)) in
              countResults lintedRegistry ruleSetIdx rest
          end
      end
  end.

(** The body of [ruleSets.forEach] for one file; it returns the next
    [ruleSetIdx]. *)
Definition lintRuleSet (lintedRegistry : Registry) (config : eslintConfig)
    (cb : bool) (totalFilesLinting : nat) (filename : string)
    (ruleSetIdx : nat) (ruleSet : RuleSet) : M nat :=
  let lintConfig := EslintConfig ruleSet (extends config) (others config) in
  let* sourceCodes := getSourceCodes in
  let* _ := emit (EvVerify filename ruleSetIdx) in
  let* _ :=
    match verify (mjoin (sourceCodes !! filename)) lintConfig with
    | Returns lintResults =>
        let* r := countResults lintedRegistry ruleSetIdx lintResults in
        match r with
        | Ok _ => ret tt
        | Throw _ => emit (EvConsoleError "TypeError")
        end
    | Throws err => emit (EvConsoleError err)
    end in
  let* _ := if cb then emit (EvProgress totalFilesLinting) else ret tt in
  ret (S ruleSetIdx).

(** The body of [filenames.forEach]. *)
Definition lintFile (lintedRegistry : Registry) (config : eslintConfig)
    (cb : bool) (totalFilesLinting : nat) (ruleSets : list RuleSet)
    (filename : string) : M unit :=
  let* _ :=
    foldM (lintRuleSet lintedRegistry config cb totalFilesLinting filename)
          0 ruleSets in
  deallocate filename.

(** [lintSourceCode(sourceCodes, config, cb)]; [sourceCodes] is the object of
    the world, [cb] tells whether a callback was passed.  The calls of [debug]
    are left out. *)
Definition lintSourceCode (this : Registry) (config : eslintConfig) (cb : bool)
  : M Registry :=
  let lintedRegistry := this in
  let* ruleSets := buildRuleSets lintedRegistry in
  let* lintedRegistry := stripExtraConfigs lintedRegistry in
  let* sourceCodes := getSourceCodes in
  let filenames := keys sourceCodes in
  let totalFilesLinting := length filenames * length ruleSets in
  let* _ :=
    foldM (fun _ filename =>
             lintFile lintedRegistry config cb totalFilesLinting ruleSets
                      filename)
          tt filenames in
  ret lintedRegistry.

(** ** Obtaining the source code and configuring the rules *)

(** [globUtil.listFilesToProcess] for the patterns given, and
    [getSourceCodeOfFile], which runs the engine on one file. *)
Context (listFilesToProcess : list string)
        (getSourceCodeOfFile : string -> option SourceCode).

(** [var sourceCodes = {}]. *)
Definition newSourceCodes : M unit :=
  fun w => (tt, World (heap w) ∅ (trace w)).

(** [sourceCodes[filename] = sourceCode]. *)
Definition setSourceCode (filename : string) (sourceCode : SourceCode)
  : M unit :=
  fun w => (tt, World (heap w)
                      (<[filename := Some sourceCode]> (sourceCodes w))
                      (trace w)).

(** [getSourceCodeOfFiles(patterns, options, cb)]: fills a new [sourceCodes]
    object and returns it. *)
Definition getSourceCodeOfFiles (cb : bool)
  : M (gmap string (option SourceCode)) :=
  let filenames := listFilesToProcess in
  let* _ := newSourceCodes in
  let* _ :=
    foldM (fun _ filename =>
             let* _ :=
               match getSourceCodeOfFile filename with
               | Some sourceCode => setSourceCode filename sourceCode
               | None => ret tt
               end in
             if cb then emit (EvProgress (length filenames)) else ret tt)
          tt filenames in
  getSourceCodes.

(** The core rules ([loadRules()]) with the schema of each
    ([rules.get(id).schema]), and what [inquirerUi.complete()] does: return or
    throw. *)
Context (coreRules : gmap string schema)
        (inquirerUi_complete : result unit).

Definition createConfigsForCoreRules : result RulesConfig :=
  foldl (fun accumulator id =>
           match accumulator with
           | Throw e => Throw e
           | Ok accumulator =>
               match generateConfigsFromSchema
                       (default SchemaOther (coreRules !! id)) with
               | Ok configs => Ok (<[id := configs]> accumulator)
               | Throw e => Throw e
               end
           end)
        (Ok (∅ : RulesConfig)) (keys coreRules).

(** [populateFromCoreRules()], on a new registry. *)
Definition populateFromCoreRules : M (result Registry) :=
  match createConfigsForCoreRules with
  | Throw e => ret (Throw e)
  | Ok rulesConfig =>
      let* rules := makeRegistryItems rulesConfig in
      ret (Ok rules)
  end.

(** The members of [Registry.prototype]; a registry has these and its
    [rules], and what every object inherits. *)
Definition Registry_prototype : list string :=
  ["constructor"; "populateFromCoreRules"; "buildRuleSets";
   "stripFailingConfigs"; "stripExtraConfigs"; "createConfig";
   "filterBySpecificity"; "lintSourceCode"].

(** [configureRules(answers, config)] up to the call of
    [registry.stripFailingConfigs()]: what it returns is the value the
    variable [registry] has after that call, whose result goes nowhere.  The
    files that [answers.patterns] resolve to are [listFilesToProcess].  The
    progress bar is left out, except that the callbacks passed on are
    recorded as present. *)
Definition configureRules_registry (config : eslintConfig)
  : M (result Registry) :=
  let newConfig := config in
  let* sourceCodes := getSourceCodeOfFiles true in
  let fileQty := length (keys sourceCodes) in
  let* bail :=
    if Nat.eqb fileQty 0 then
      let* _ := emit (EvConsoleError "Failed. No files resolved from: ") in
      let* _ := emit EvUiComplete in
      ret inquirerUi_complete
    else ret (Ok tt) in
  match bail with
  | Throw e => ret (Throw e)
  | Ok _ =>
      let* populated := populateFromCoreRules in
      match populated with
      | Throw e => ret (Throw e)
      | Ok registry =>
          let* registry := lintSourceCode registry newConfig true in
          let disabledConfigs : RuleSet := (fun _ => CfgNum 0) <$> registry in
          let* _ := stripFailingConfigs registry in
          ret (Ok registry)
      end
  end.

(** [configureRules(answers, config)].  Its next statement is
    [singleConfigs = registry.getRulesWithOneConfig()]; the registry has no
    member of that name ([Registry_prototype]), so the call is of
    [undefined] and raises a [TypeError].  What the function has after it,
    the selections by [getRulesWithSpecificity], which the registry has not
    either, their merge by [assign] and the summary on the console, no run
    reaches. *)
Definition configureRules (config : eslintConfig) : M (result eslintConfig) :=
  let* registry := configureRules_registry config in
  match registry with
  | Throw e => ret (Throw e)
  | Ok registry =>
      ret (Throw (TypeError "registry.getRulesWithOneConfig is not a function"))
  end.

(** [assign({}, s1, ..., sn)] on rule sets: properties of later sources
    overwrite those of earlier ones.  This is the merge [configureRules] has
    in its text for the selections. *)
Definition assign (sources : list RuleSet) : RuleSet :=
  foldl (fun target source => source ∪ target) ∅ sources.

(** ** Extending the recommended configuration *)

(** The [rules] of [conf/eslint.json]. *)
Context (recConfig : RuleSet).

(** [c === 2 || c[0] === 2]. *)
Definition severityIsError (c : ruleConfig) : bool :=
  match c with
  | CfgNum n => Z.eqb n 2
  | CfgArr (JNum n :: _) => Z.eqb n 2
  | CfgArr _ => false
  end.

(** [isEqual(recConfig.rules[ruleId], newConfig.rules[ruleId])]; a rule the
    configuration lacks reads [undefined], which equals no configuration. *)
Definition sameAsRecommended (newRules : RuleSet) (ruleId : string) : bool :=
  match recConfig !! ruleId, newRules !! ruleId with
  | Some r, Some c => isEqual (config_value r) (config_value c)
  | _, _ => false
  end.

(** [extendFromRecommended(config)].  The copy made by [assign({}, config)]
    is shallow: the rules are deleted from the [rules] object of [config]
    itself, which the callers do not use again. *)
Definition extendFromRecommended (config : eslintConfig) : eslintConfig :=
  let recRules :=
    filter (fun ruleId =>
              from_option severityIsError false (recConfig !! ruleId) = true)
           (keys recConfig) in
  let newRules :=
    foldl (fun newRules ruleId =>
             if sameAsRecommended newRules ruleId
             then delete ruleId newRules
             else newRules)
          (rules config) recRules in
  EslintConfig newRules (Some "eslint:recommended") (others config).

(** ** The configuration wizard *)

(** The answers [processAnswers] reads, with the types the questions of the
    prompt give them: [source] is the value of a list question, [env] the
    values of a checkbox, [es6], [jsx], [react] and [semi] are confirmations,
    and [patterns] is typed in.  An answer that was not asked for is absent:
    [None], [false] for a confirmation, [undefined] for a value. *)
Record answers : Type := Answers {
  source : option string;
  patterns : option string;
  es6 : bool;
  env : option (list string);
  jsx : bool;
  react : bool;
  indent : jsval;
  quotes : jsval;
  linebreak : jsval;
  semi : bool
}.

(** [answers.source === name]. *)
Definition source_is (answers : answers) (name : string) : bool :=
  match source answers with
  | Some s => String.eqb s name
  | None => false
  end.

(** [processAnswers(answers)].  The configuration it builds has its [env],
    [parserOptions] and [plugins] among the other properties, in the order
    they are added.  Reading [forEach] of an absent [env], or [split] of
    absent [patterns], raises a [TypeError]. *)
Definition processAnswers (answers : answers) : M (result eslintConfig) :=
  match env answers with
  | None =>
      ret (Throw (TypeError "Cannot read property 'forEach' of undefined"))
  | Some envs =>
      let configEnv :=
        foldl (fun o e => obj_set e (JBool true) o)
              (if es6 answers then [("es6", JBool true)] else []) envs in
      let ecmaFeatures :=
        ("jsx", JBool true)
        :: (if react answers
            then [("experimentalObjectRestSpread", JBool true)]
            else []) in
      let others :=
        ("env", JObj configEnv)
        :: (if jsx answers
            then ("parserOptions", JObj [("ecmaFeatures", JObj ecmaFeatures)])
                 :: (if react answers
                     then [("plugins", JArr [JStr "react"])]
                     else [])
            else []) in
      let config :=
        if source_is answers "prompt"
        then EslintConfig
               (<["semi" := CfgArr [JNum 2;
                                    JStr (if semi answers then "always"
                                          else "never")]]>
                  (<["linebreak-style" := CfgArr [JNum 2; linebreak answers]]>
                     (<["quotes" := CfgArr [JNum 2; quotes answers]]>
                        {["indent" := CfgArr [JNum 2; indent answers]]})))
               (Some "eslint:recommended") others
        else EslintConfig ∅ None others in
      if source_is answers "auto" then
        match patterns answers with
        | None =>
            ret (Throw (TypeError "Cannot read property 'split' of undefined"))
        | Some _ =>
            let* configured := configureRules config in
            ret (match configured with
                 | Ok config => Ok (extendFromRecommended config)
                 | Throw e => Throw e
                 end)
        end
      else ret (Ok config)
  end.

(** What [guides[guide]] can be: a style guide of the table, or, for a name
    that every object inherits, that member of [Object.prototype]. *)
Inductive guideValue : Type :=
  | GuideConfig (config : list (string * jsval))
  | PrototypeMember (name : string).

(** The style guides of [getConfigForStyleGuide]. *)
Definition guides : list (string * list (string * jsval)) :=
  [("google", [("extends", JStr "google")]);
   ("airbnb", [("extends", JStr "airbnb"); ("plugins", JArr [JStr "react"])]);
   ("standard", [("extends", JStr "standard");
                 ("plugins", JArr [JStr "standard"])])].

(** The names [Object.prototype] has, all with a truthy value. *)
Definition inherited (name : string) : bool :=
  bool_decide (name ∈ ["constructor"; "__defineGetter__"; "__defineSetter__";
                       "hasOwnProperty"; "__lookupGetter__"; "__lookupSetter__";
                       "isPrototypeOf"; "propertyIsEnumerable"; "toString";
                       "valueOf"; "__proto__"; "toLocaleString"]).

(** [getConfigForStyleGuide(guide)]; the exception is the [Error] it makes,
    with its message. *)
Definition getConfigForStyleGuide (guide : string) : guideValue + string :=
  match obj_get guide guides with
  | Some config => inl (GuideConfig config)
  | None =>
      if inherited guide then inl (PrototypeMember guide)
      else inr "You referenced an unsupported guide."
  end.

(** What [writeFile] does, in the order it happens: the configuration file
    is written, lines go to the console, commands are run, the callback is
    called with an error or without, or an exception is thrown, by
    [writeFile] itself or in the callback it gave a command.  A command is
    the concatenation of the strings of its parts. *)
Inductive wizardEvent : Type :=
  | EvWriteConfig (filename : string)
  | EvLog (line : string)
  | EvExec (command : list jsval)
  | EvCallback (err : option exn)
  | EvThrow (e : exn)
  | EvThrowInCallback (e : exn).

(** [ConfigFile.write(config, filename)], which may throw; [process.cwd()];
    and the error with which a command ends, if any. *)
Context (ConfigFile_write : list (string * jsval) -> string -> result unit)
        (cwd : string)
        (exec : list jsval -> option exn).

(** Truthiness. *)
Definition truthy (v : jsval) : bool :=
  match v with
  | JUndefined | JNull => false
  | JBool b => b
  | JNum n => negb (Z.eqb n 0)
  | JStr s => negb (String.eqb s EmptyString)
  | JArr _ | JObj _ => true
  end.

(** Whether [v.indexOf(x)] is -1, for a string [x]: a string is searched
    for [x], an array for an element that is [x]; no other value has
    [indexOf]. *)
Definition indexOf_is_absent (v : jsval) (x : string) : option bool :=
  match v with
  | JStr s => Some (match String.index 0 x s with Some _ => false | None => true end)
  | JArr xs =>
      Some (negb (existsb (fun e => match e with
                                    | JStr s => String.eqb s x
                                    | _ => false
                                    end) xs))
  | _ => None
  end.

(** [v[0]]; reading it of [undefined] or [null] raises a [TypeError]. *)
Definition first_element (v : jsval) : option jsval :=
  match v with
  | JUndefined | JNull => None
  | JArr xs => Some (default JUndefined (xs !! 0))
  | JStr (String c _) => Some (JStr (String c EmptyString))
  | JObj props => Some (default JUndefined (obj_get "0" props))
  | _ => Some JUndefined
  end.

Definition extname (format : string) : string :=
  if String.eqb format "YAML" then ".yml"
  else if String.eqb format "JSON" then ".json"
  else ".js".

(** [writeFile(config, format, callback)]. *)
Definition writeFile (config : list (string * jsval)) (format : string)
  : list wizardEvent :=
  let filename := "./.eslintrc" +:+ extname format in
  match ConfigFile_write config filename with
  | Throw e => [EvWriteConfig filename; EvCallback (Some e)]
  | Ok _ =>
      let config_extends := default JUndefined (obj_get "extends" config) in
      let config_plugins := default JUndefined (obj_get "plugins" config) in
      [EvWriteConfig filename;
       EvLog ("Successfully created .eslintrc" +:+ extname format
              +:+ " file in " +:+ cwd)]
      ++ match (if truthy config_extends
                then indexOf_is_absent config_extends "eslint"
                else Some false) with
         | None => [EvThrow (TypeError "config.extends.indexOf is not a function")]
         | Some true =>
             let installConfig :=
               [JStr "npm i eslint-config-"; config_extends;
                JStr " --save-dev"] in
             [EvLog "Installing additional dependencies"; EvExec installConfig]
             ++ match exec installConfig with
                | Some err => [EvCallback (Some err)]
                | None =>
                    match first_element config_plugins with
                    | None =>
                        [EvThrowInCallback
                           (TypeError "Cannot read property '0' of undefined")]
                    | Some plugin =>
                        let installPlugin :=
                          [JStr "npm i eslint-plugin-"; plugin;
                           JStr " --save-dev"] in
                        [EvExec installPlugin;
                         EvCallback (exec installPlugin)]
                    end
                end
         | Some false =>
             match (if truthy config_plugins
                    then indexOf_is_absent config_plugins "react"
                    else Some true) with
             | None =>
                 [EvThrow (TypeError "config.plugins.indexOf is not a function")]
             | Some false =>
                 let installReact :=
                   [JStr "npm i eslint-plugin-react --save-dev"] in
                 [EvLog "Installing React plugin"; EvExec installReact;
                  EvCallback (exec installReact)]
             | Some true => [EvCallback None]
             end
         end
  end.

End Engine.

(** * Notions used in the statements *)

(** ** Schema expansion *)


(** The values the generator tries for a property of an object item: those
    of its [enum], then [true] and [false] when it is a boolean. *)
Definition propertyValues (s : propSchema) : list jsval :=
  default [] (prop_enum s)
  ++ (if type_is (prop_type s) "boolean" then [JBool true; JBool false] else []).

(** The properties of an object item for which there are values to try. *)
Definition enumerable (properties : list (string * propSchema))
  : list (string * propSchema) :=
  filter (fun p => propertyValues p.2 <> []) properties.





(** An array that starts with a severity. *)
Definition startsWith (severity : Z) (v : jsval) : Prop :=
  exists options, v = JArr (JNum severity :: options).

(** ** Registry *)

(** Whether the item at a location of the heap passes a test. *)
Definition holds (p : registryItem -> bool) (h : list registryItem) (l : loc)
  : bool :=
  from_option p false (h !! l).

(** The items of a rule that [stripFailingConfigs] keeps: those whose
    [errorCount] is 0; a rule left with none is dropped. *)
Definition errorFreeItems (h : list registryItem) (items : list loc)
  : option (list loc) :=
  let kept := filter (fun l => holds errorFree h l = true) items in
  if bool_decide (0 < length kept) then Some kept else None.

(** The configuration [createConfig] gives a rule: that of its only item. *)
Definition onlyConfig (h : list registryItem) (items : list loc)
  : option ruleConfig :=
  match items with
  | [l] => config <$> h !! l
  | _ => None
  end.

(** The configurations of the items at some locations. *)
Definition configsAt (h : list registryItem) (items : list loc)
  : list ruleConfig :=
  omap (fun l => config <$> h !! l) items.

(** The specificities and the counts of the items at some locations. *)
Definition specificitiesAt (h : list registryItem) (items : list loc)
  : list nat :=
  omap (fun l => specificity <$> h !! l) items.

Definition countsAt (h : list registryItem) (items : list loc) : list count :=
  omap (fun l => errorCount <$> h !! l) items.

(** An item that [buildRuleSets] takes whatever the number of configurations
    of its rule: at most one option, and that not an object. *)
Definition simpleItem (it : registryItem) : Prop :=
  specificity it <= 2 /\ typeof_object (config_at (config it) 1) = false.

Definition simpleItems (h : list registryItem) (items : list loc) : Prop :=
  forall l, l ∈ items -> exists it, h !! l = Some it /\ simpleItem it.

(** The names of the properties of a configuration object: [rules], which
    every configuration here has, [extends] if it is set, and the others. *)
Definition configKeys (c : eslintConfig) : list string :=
  "rules"
  :: match extends c with Some _ => ["extends"] | None => [] end
  ++ (others c).*1.

(** ** Traces *)

(** The calls of [eslint.verify] in a trace: file and index of the rule set. *)
Definition verifyCalls (t : list event) : list (string * nat) :=
  omap (fun e => match e with EvVerify f i => Some (f, i) | _ => None end) t.

(** Every file paired with the index of every rule set: all rule sets for one
    file before the next file. *)
Definition allPairs (filenames : list string) (n : nat) : list (string * nat) :=
  flat_map (fun f => map (fun i => (f, i)) (seq 0 n)) filenames.

Section Views.
Context {SourceCode : Type}.

(** A computation that touches the heap only. *)
Definition heapOnly {A : Type} (m : @M SourceCode A) : Prop :=
  forall w, sourceCodes (m w).2 = sourceCodes w /\ trace (m w).2 = trace w.

(** What a transform leaves of its input: the state is as before, and the
    items of every rule of the result are items of that rule in the input, in
    their order. *)
Definition shallowCopy (T : Registry -> @M SourceCode Registry)
    (this : Registry) (w : world) : Prop :=
  (T this w).2 = w
  /\ forall (ruleId : string) (items' : list loc),
       (T this w).1 !! ruleId = Some items' ->
       exists items, this !! ruleId = Some items /\ sublist items' items.

(** [registry.rules[ruleId][idx].errorCount]. *)
Definition readErrorCount (this : Registry) (ruleId : string) (idx : nat)
  : @M SourceCode (option count) :=
  match this !! ruleId ≫= (fun items => items !! idx) with
  | Some l => let* it := getItem l in ret (errorCount <$> it)
  | None => ret None
  end.

End Views.

(** ** Recommended configuration *)

(** The recommended configuration has the rule at severity 2. *)
Definition recommendedError (recConfig : RuleSet) (ruleId : string) : bool :=
  from_option severityIsError false (recConfig !! ruleId).

(** No object of a value has a property twice, as in JavaScript. *)
Inductive distinctKeys : jsval -> Prop :=
  | distinct_undefined : distinctKeys JUndefined
  | distinct_null : distinctKeys JNull
  | distinct_bool b : distinctKeys (JBool b)
  | distinct_num n : distinctKeys (JNum n)
  | distinct_str s : distinctKeys (JStr s)
  | distinct_arr xs : Forall distinctKeys xs -> distinctKeys (JArr xs)
  | distinct_obj ps :
      NoDup ps.*1 -> Forall (fun kv => distinctKeys kv.2) ps ->
      distinctKeys (JObj ps).

(** ** Enumerations in a schema *)

(** A schema item in which the generator finds at most an enumeration, and
    that not an empty one. *)
Definition enumItem (opt : optSchema) : Prop :=
  type_is (opt_type opt) "object" = false /\ opt_enum opt <> Some [].

(** The enumerations of the items of a schema, in order. *)
Definition enumsOf (opts : list optSchema) : list (list jsval) :=
  omap opt_enum opts.

(** The number of ways to take a value of the first enumeration and then a
    value of each of any of the others: every other enumeration is either
    skipped or contributes one of its values. *)
Definition combinations (sizes : list nat) : nat :=
  match sizes with
  | [] => 0
  | first :: others => foldl (fun n size => n * (1 + size)) first others
  end.

(** [Array.isArray(v)]. *)
Definition isArray (v : jsval) : bool :=
  match v with
  | JArr _ => true
  | _ => false
  end.

(** Options taken from enumerations: a value of the first one, followed by
    a value of each of some of the others, in the order of the schema. *)
Definition chosenFrom (enums : list (list jsval)) (options : list jsval)
  : Prop :=
  match enums with
  | [] => False
  | first :: others =>
      exists sub, sublist sub others
                  /\ Forall2 (fun o e => o ∈ e) options (first :: sub)
  end.

(** The configurations [addEnums] leaves when all elements of the
    configurations are values, as lists of values. *)
Definition addEnumValues (configs : list (list jsval)) (enums : list jsval)
  : list (list jsval) :=
  match configs with
  | [] => map (fun x => [x]) enums
  | _ => configs ++ flat_map (fun x1 => map (fun x2 => x1 ++ [x2]) enums) configs
  end.

(** ** Object items of a schema *)

(** An object that gives every one of the properties one of its values, in
    their order. *)
Definition assigns (ps : list (string * propSchema)) (obj : optionObj) : Prop :=
  Forall2 (fun kv p => kv.1 = p.1 /\ kv.2 ∈ propertyValues p.2) obj ps.

(** The objects [objectConfigSet.add] pushes for a property that is not
    named "__proto__". *)
Definition singletons (property : string) (values : list jsval)
  : list optionObj :=
  map (fun v => [(property, v)]) values.

(** The objects [objectConfigSet.add] pushes for a property of any name. *)
Definition added (property : string) (values : list jsval) : list optionObj :=
  map (fun v => obj_assign property v []) values.

(** The step of the reduction in [groupByProperty], with its exception. *)
Definition groupOrThrow (accumulator : result (list (string * list optionObj)))
    (obj : optionObj) : result (list (string * list optionObj)) :=
  match accumulator with
  | Throw e => Throw e
  | Ok accumulator =>
      let prop := first_key obj in
      match obj_get prop accumulator with
      | Some group => Ok (obj_set prop (group ++ [obj]) accumulator)
      | None =>
          if bool_decide (prop ∈ objectPrototypeNames)
          then Throw (TypeError "accumulator[prop].concat is not a function")
          else Ok (obj_set prop [obj] accumulator)
      end
  end.

(** The step of the reduction in [groupByProperty] where it does not
    throw. *)
Definition groupStep (accumulator : list (string * list optionObj))
    (obj : optionObj) : list (string * list optionObj) :=
  let prop := first_key obj in
  match obj_get prop accumulator with
  | Some group => obj_set prop (group ++ [obj]) accumulator
  | None => obj_set prop [obj] accumulator
  end.

(** The object [combinePropertyObjects] builds from two. *)
Definition combinedObj (obj1 obj2 : optionObj) : optionObj :=
  foldl (fun o kv => obj_assign kv.1 kv.2 o)
        (foldl (fun o kv => obj_assign kv.1 kv.2 o) [] obj1) obj2.

(** The groups of the properties combined. *)
Definition combined (ps : list (string * propSchema)) : list optionObj :=
  foldl combinePropertyObjects []
        (map (fun p => singletons p.1 (propertyValues p.2)) ps).

(** ** Rule sets *)

(** What of a registry item never changes: its configuration and its
    specificity. *)
Definition shape (it : registryItem) : ruleConfig * nat :=
  (config it, specificity it).

(** The item [buildRuleSets] takes from a rule at an index, if any, with its
    configuration: the rule has an item there, and either no more than
    [MAX_CONFIG_COMBINATIONS] of them, or that item has at most one option,
    which is not an object. *)
Definition eligible (h : list registryItem) (this : Registry) (idx : nat)
    (rule : string) : option (loc * ruleConfig) :=
  let items := default [] (this !! rule) in
  let hasFewCombos := bool_decide (length items <= MAX_CONFIG_COMBINATIONS) in
  l ← items !! idx;
  it ← h !! l;
  if hasFewCombos || bool_decide (specificity it <= 2)
  then if negb hasFewCombos && typeof_object (config_at (config it) 1)
       then None
       else Some (l, config it)
  else None.

(** An item with its count set to 0. *)
Definition zeroed (it : registryItem) : registryItem :=
  RegistryItem (config it) (specificity it) (Num 0).

(** The items of a heap after some steps: each as before, or with its count
    set to 0. *)
Definition zeroedOrSame (h h' : list registryItem) : Prop :=
  forall l, h' !! l = h !! l \/ h' !! l = zeroed <$> h !! l.

(** A registry in which no rule has more than [MAX_CONFIG_COMBINATIONS]
    items, and every item is in the heap. *)
Definition fewCombos (h : list registryItem) (this : Registry) : Prop :=
  forall rule items,
    this !! rule = Some items ->
    length items <= MAX_CONFIG_COMBINATIONS
    /\ forall l, l ∈ items -> l < length h.

(** ** Counting *)

(** An item with its count raised by one. *)
Definition bump (it : registryItem) : registryItem :=
  RegistryItem (config it) (specificity it) (increment (errorCount it)).

(** The item whose count a message raises: the one the rule of the message
    has at the index of the rule set. *)
Definition itemOf (lintedRegistry : Registry) (ruleSetIdx : nat)
    (ruleId : string) : option loc :=
  lintedRegistry !! ruleId ≫= (fun items => items !! ruleSetIdx).

(** The items whose counts the messages of one call of [eslint.verify]
    raise, one for each message, up to the first message whose rule has no
    item at the index of the rule set. *)
Fixpoint countedItems (lintedRegistry : Registry) (ruleSetIdx : nat)
    (lintResults : list string) : list loc :=
  match lintResults with
  | [] => []
  | ruleId :: rest =>
      match itemOf lintedRegistry ruleSetIdx ruleId with
      | Some l => l :: countedItems lintedRegistry ruleSetIdx rest
      | None => []
      end
  end.

(** A heap with the counts of some items raised, one after the other. *)
Definition bumpAll (h : list registryItem) (ls : list loc) : list registryItem :=
  foldl (fun h l => alter bump l h) h ls.

(** The number of times a location occurs in a list. *)
Definition occurrences (l : loc) (ls : list loc) : nat :=
  length (filter (fun l' => l' = l) ls).

(** The progress reports in a trace, each with the total it carries. *)
Definition progressCalls (t : list event) : list nat :=
  omap (fun e => match e with EvProgress total => Some total | _ => None end) t.

Section Counting.
Context {SourceCode : Type}.
Context (verify : option SourceCode -> eslintConfig -> verifyOutcome).

(** The items counted in one call of [eslint.verify]: none if it throws. *)
Definition callItems (lintedRegistry : Registry) (config : eslintConfig)
    (sourceCode : option SourceCode) (ruleSetIdx : nat) (ruleSet : RuleSet)
  : list loc :=
  match verify sourceCode
               (EslintConfig ruleSet (extends config) (others config)) with
  | Returns lintResults => countedItems lintedRegistry ruleSetIdx lintResults
  | Throws _ => []
  end.

(** The items counted for one file: those of the calls for the rule sets
    from an index on. *)
Fixpoint fileItems (lintedRegistry : Registry) (config : eslintConfig)
    (sourceCode : option SourceCode) (ruleSetIdx : nat)
    (ruleSets : list RuleSet) : list loc :=
  match ruleSets with
  | [] => []
  | ruleSet :: rest =>
      callItems lintedRegistry config sourceCode ruleSetIdx ruleSet
      ++ fileItems lintedRegistry config sourceCode (S ruleSetIdx) rest
  end.

(** The items counted in a pass over the files. *)
Definition passItems (lintedRegistry : Registry) (config : eslintConfig)
    (sourceCodes : gmap string (option SourceCode)) (ruleSets : list RuleSet)
  : list loc :=
  flat_map (fun filename =>
              fileItems lintedRegistry config (mjoin (sourceCodes !! filename))
                        0 ruleSets)
           (keys sourceCodes).

End Counting.

(** ** New items *)

(** The item [makeRegistryItems] creates for a configuration. *)
Definition freshItem (config : ruleConfig) : registryItem :=
  RegistryItem config (config_specificity config) Undefined.

(** ** Core rules *)

(** The configurations generated from a schema, if the generator returns. *)
Definition configsOf (s : schema) : option (list ruleConfig) :=
  match generateConfigsFromSchema s with
  | Ok configs => Some configs
  | Throw _ => None
  end.

(** ** The configuration file *)

(** An event with which [writeFile] hands over: a call of the callback, or
    an exception. *)
Definition final (e : wizardEvent) : bool :=
  match e with
  | EvCallback _ | EvThrow _ | EvThrowInCallback _ => true
  | _ => false
  end.

(** * Inputs of the examples *)

Definition emptyWorld : @world unit := World [] ∅ [].
Definition emptyConfig : eslintConfig := EslintConfig ∅ None [].

(** A registry with the rule "semi" at bare severity, linted without errors. *)
Definition semiRegistry : Registry := {[ "semi" := [0] ]}.
Definition semiWorld : @world unit :=
  World [RegistryItem (CfgNum 2) 1 (Num 0)] ∅ [].

(** A rule with two options: the first one of "a" and "b", the second "c". *)
Definition demoRules : gmap string schema :=
  {[ "r" := SchemaArray [OptSchema (Some [JStr "a"; JStr "b"]) None None;
                         OptSchema (Some [JStr "c"]) None None] ]}.

(** The configurations generated for it. *)
Definition demoRulesConfig : RulesConfig :=
  {[ "r" := [CfgNum 2;
             CfgArr [JNum 2; JStr "a"]; CfgArr [JNum 2; JStr "b"];
             CfgArr [JNum 2; JStr "a"; JStr "c"];
             CfgArr [JNum 2; JStr "b"; JStr "c"]] ]}.

(** A linter that reports rule "r" whenever its first option is "a". *)
Definition demoVerify (_ : option unit) (c : eslintConfig) : verifyOutcome :=
  match rules c !! "r" with
  | Some (CfgArr (_ :: JStr "a" :: _)) => Returns ["r"]
  | _ => Returns []
  end.


(** An enumeration of seventeen values, and the configurations generated for
    a rule whose only option it is. *)
Definition seventeen : list jsval :=
  map JStr ["a"; "b"; "c"; "d"; "e"; "f"; "g"; "h"; "i"; "j"; "k"; "l"; "m";
            "n"; "o"; "p"; "q"].

Definition eighteenConfigs : list ruleConfig :=
  CfgNum 2 :: map (fun v => CfgArr [JNum 2; v]) seventeen.

(** Scenario D: the rule "no-console" is recommended at severity 2. *)
Definition consoleRecommended : RuleSet := {[ "no-console" := CfgNum 2 ]}.
Definition consoleSelected : eslintConfig :=
  EslintConfig {[ "no-console" := CfgNum 2 ]} None [].

(** The registry made from [demoRulesConfig], with its items, and one file
    to lint. *)
Definition demoRegistry : Registry := {[ "r" := [0; 1; 2; 3; 4] ]}.

Definition demoWorld : @world unit :=
  World (map freshItem [CfgNum 2;
                        CfgArr [JNum 2; JStr "a"]; CfgArr [JNum 2; JStr "b"];
                        CfgArr [JNum 2; JStr "a"; JStr "c"];
                        CfgArr [JNum 2; JStr "b"; JStr "c"]])
        {[ "f.js" := Some tt ]} [].

(** A linter that has no message. *)
Definition quietVerify (_ : option unit) (_ : eslintConfig) : verifyOutcome :=
  Returns [].

(** A schema of three enumerations. *)
Definition threeEnums : list optSchema :=
  [OptSchema (Some [JStr "a"]) None None;
   OptSchema (Some [JStr "b"]) None None;
   OptSchema (Some [JStr "c"]) None None].

(** The properties of an object item: two booleans. *)
Definition beforeAfter : list (string * propSchema) :=
  [("before", PropSchema None (Some "boolean"));
   ("after", PropSchema None (Some "boolean"))].

(** Answers: a style given at the prompt, and a style to be inferred. *)
Definition promptAnswers : answers :=
  Answers (Some "prompt") None true (Some ["browser"; "node"]) true false
          (JNum 4) (JStr "double") (JStr "unix") true.


(** * Properties *)

(** ** Loops over the keys of a map *)

Section KeyFolds.
Context {A B : Type}.

Lemma keys_NoDup (m : gmap string A) : NoDup (keys m).
Proof. apply NoDup_fst_map_to_list. Qed.

Lemma elem_of_keys (m : gmap string A) (k : string) :
  k ∈ keys m <-> is_Some (m !! k).
Proof.
  unfold keys. rewrite list_elem_of_fmap. split.
  - intros [[k' a] [-> Hin]]. apply elem_of_map_to_list in Hin. eauto.
  - intros [a Ha]. exists (k, a). split; [reflexivity|].
    by apply elem_of_map_to_list.
Qed.

Lemma keys_empty : keys (∅ : gmap string A) = [].
Proof. unfold keys. by rewrite map_to_list_empty. Qed.

Lemma keys_singleton (k : string) (a : A) :
  keys ({[k := a]} : gmap string A) = [k].
Proof. unfold keys. by rewrite map_to_list_singleton. Qed.

(** A loop over the keys of [m0] that, at each key, settles the entry of the
    accumulator for that key from the entry of [m0] and leaves the others. *)
Lemma foldl_keys_lookup (m0 : gmap string A) (acc0 : gmap string B)
    (step : gmap string B -> string -> gmap string B) (g : A -> option B) :
  (forall acc k a,
      m0 !! k = Some a -> acc !! k = acc0 !! k -> step acc k !! k = g a) ->
  (forall acc k k', k ≠ k' -> step acc k !! k' = acc !! k') ->
  forall k, foldl step acc0 (keys m0) !! k =
            match m0 !! k with Some a => g a | None => acc0 !! k end.
Proof.
  intros Hat Hother.
  assert (Hgen : forall ks acc, NoDup ks ->
            (forall k, k ∈ ks -> is_Some (m0 !! k)) ->
            (forall k, k ∈ ks -> acc !! k = acc0 !! k) ->
            forall k, foldl step acc ks !! k =
                      if decide (k ∈ ks)
                      then match m0 !! k with
                           | Some a => g a
                           | None => acc0 !! k
                           end
                      else acc !! k).
  { induction ks as [|x ks IH]; intros acc Hnd Hdom Hacc k; cbn [foldl].
    - rewrite decide_False; [reflexivity|]. apply not_elem_of_nil.
    - apply NoDup_cons in Hnd as [Hx Hnd].
      rewrite IH; [|assumption| |].
      + destruct (decide (k = x)) as [->|Hne].
        * rewrite decide_False by assumption.
          rewrite decide_True by (left).
          destruct (Hdom x) as [a Hm]; [left|]. rewrite Hm.
          apply Hat; [assumption|]. apply Hacc. left.
        * rewrite Hother by congruence.
          destruct (decide (k ∈ ks)) as [Hin|Hin].
          -- rewrite decide_True by (by right). reflexivity.
          -- rewrite decide_False; [reflexivity|].
             intros Hc. apply elem_of_cons in Hc as [?|?]; done.
      + intros k' Hk'. apply Hdom. by right.
      + intros k' Hk'. rewrite Hother; [apply Hacc; by right|].
        intros ->. done. }
  intros k. rewrite Hgen.
  - case_decide as Hin.
    + reflexivity.
    + destruct (m0 !! k) eqn:Hm; [|reflexivity].
      exfalso. apply Hin. apply elem_of_keys. eauto.
  - apply keys_NoDup.
  - intros k' Hk'. by apply elem_of_keys.
  - reflexivity.
Qed.

End KeyFolds.

(** ** Schema expansion *)

Lemma resolve_startsWith (severity : Z) (todo : ruleConfigs) :
  forall done, Forall (startsWith severity) done ->
               Forall (startsWith severity) (resolve severity done todo).
Proof.
  induction todo as [|c todo IH]; intros done Hdone; simpl; [assumption|].
  apply IH. apply Forall_app. split; [assumption|].
  apply Forall_singleton. eexists. reflexivity.
Qed.


Lemma resolve_length (severity : Z) (todo : ruleConfigs) :
  forall done, length (resolve severity done todo) = length done + length todo.
Proof.
  induction todo as [|c todo IH]; intros done; simpl; [lia|].
  rewrite IH, length_app. simpl. lia.
Qed.


(** *** The objects of an object item *)

Lemma objectConfigs_of_properties_added
    (properties : list (string * propSchema)) :
  objectConfigs_of_properties properties
  = flat_map (fun p => added p.1 (propertyValues p.2)) properties.
Proof.
  unfold objectConfigs_of_properties.
  rewrite <- (app_nil_l (flat_map _ _)). generalize (@nil optionObj).
  induction properties as [|[k s] properties IH]; intros acc; simpl.
  - by rewrite app_nil_r.
  - rewrite IH. rewrite app_assoc. f_equal.
    unfold propertyValues, objectConfigs_add, added.
    destruct (prop_enum s) as [values|]; simpl;
      destruct (type_is (prop_type s) "boolean"); simpl;
      rewrite ?map_app, ?app_nil_r, <- ?app_assoc; reflexivity.
Qed.



Lemma groupByProperty_fold (objects : list optionObj) :
  groupByProperty objects
  = match foldl groupOrThrow (Ok []) objects with
    | Ok groupedObj => Ok (map snd groupedObj)
    | Throw e => Throw e
    end.
Proof. reflexivity. Qed.








(** *** When the generator throws, and when it finds no option *)









(** Scenario A: the rule "quotes". *)
Example scenario_quotes :
  generateConfigsFromSchema
    (SchemaArray [OptSchema (Some [JStr "always"; JStr "never"]) None None])
  = Ok [CfgNum 2; CfgArr [JNum 2; JStr "always"]; CfgArr [JNum 2; JStr "never"]].
Proof. reflexivity. Qed.

(** An object with two properties gives every combination of their values. *)
Example object_properties_combine :
  generateConfigsFromSchema
    (SchemaArray
       [OptSchema None (Some "object")
          (Some [("before", PropSchema None (Some "boolean"));
                 ("after", PropSchema None (Some "boolean"))])])
  = Ok [CfgNum 2;
        CfgArr [JNum 2; JObj [("before", JBool true); ("after", JBool true)]];
        CfgArr [JNum 2; JObj [("before", JBool true); ("after", JBool false)]];
        CfgArr [JNum 2; JObj [("before", JBool false); ("after", JBool true)]];
        CfgArr [JNum 2; JObj [("before", JBool false); ("after", JBool false)]]].
Proof. reflexivity. Qed.

(** An object without enumerable properties after an enumeration: the
    configurations of the enumeration are wrapped, and the wrapped arrays are
    the ones that then receive the severity. *)
Example wrapped_configs_share_arrays :
  generateConfigsFromSchema
    (SchemaArray
       [OptSchema (Some [JStr "always"]) None None;
        OptSchema None (Some "object")
          (Some [("max", PropSchema None (Some "integer"))])])
  = Ok [CfgNum 2; CfgArr [JNum 2; JStr "always"];
        CfgArr [JNum 2; JArr [JNum 2; JStr "always"]]].
Proof. reflexivity. Qed.

Example object_without_properties_throws :
  generateConfigsFromSchema
    (SchemaArray [OptSchema None (Some "object") None])
  = Throw (TypeError "Cannot convert undefined or null to object").
Proof. reflexivity. Qed.

(** A boolean property under the name of a member of [Object.prototype]:
    grouping the objects made for it throws. *)
Example inherited_property_throws :
  generateConfigsFromSchema
    (SchemaArray
       [OptSchema None (Some "object")
          (Some [("constructor", PropSchema None (Some "boolean"))])])
  = Throw (TypeError "accumulator[prop].concat is not a function").
Proof. reflexivity. Qed.

(** A boolean property named "__proto__": the objects made for it have no
    property, and are grouped under "undefined". *)
Example proto_property_is_lost :
  generateConfigsFromSchema
    (SchemaArray
       [OptSchema None (Some "object")
          (Some [("__proto__", PropSchema None (Some "boolean"))])])
  = Ok [CfgNum 2; CfgArr [JNum 2; JObj []]; CfgArr [JNum 2; JObj []]].
Proof. reflexivity. Qed.

(** ** The registry transforms as functions of the heap *)

Section RegistryFacts.
Context {SourceCode : Type}.
Implicit Types w : @world SourceCode.

Lemma filterM_testItem (p : registryItem -> bool) (ls : list loc) w :
  filterM (testItem p) ls w
  = (filter (fun l => holds p (heap w) l = true) ls, w).
Proof.
  induction ls as [|l ls IH]; [reflexivity|].
  simpl. unfold bind. change (testItem p l w) with (holds p (heap w) l, w).
  cbv beta iota. rewrite IH. unfold ret. rewrite filter_cons.
  destruct (holds p (heap w) l); reflexivity.
Qed.

Lemma foldM_pure {A B : Type} (f : B -> A -> M B) (g : B -> A -> B) w :
  (forall b x, f b x w = (g b x, w)) ->
  forall l b, foldM f b l w = (foldl g b l, w).
Proof.
  intros Hf l. induction l as [|x l IH]; intros b; simpl; [reflexivity|].
  unfold bind. rewrite Hf. apply IH.
Qed.

Lemma stripFailingConfigs_run (this : Registry) w :
  stripFailingConfigs this w = (omap (errorFreeItems (heap w)) this, w).
Proof.
  unfold stripFailingConfigs.
  rewrite (foldM_pure _
    (fun newRules ruleId =>
       match errorFreeItems (heap w) (default [] (newRules !! ruleId)) with
       | Some kept => <[ruleId := kept]> newRules
       | None => delete ruleId newRules
       end)).
  - f_equal. apply map_eq. intros k. rewrite lookup_omap.
    rewrite (foldl_keys_lookup this this _ (errorFreeItems (heap w))).
    + destruct (this !! k); reflexivity.
    + intros acc k' a Hk Hacc. rewrite Hacc, Hk. simpl.
      destruct (errorFreeItems (heap w) a).
      * apply lookup_insert_eq.
      * apply lookup_delete_eq.
    + intros acc k1 k2 Hne.
      destruct (errorFreeItems _ _).
      * by apply lookup_insert_ne.
      * by apply lookup_delete_ne.
  - intros b x. unfold bind. rewrite filterM_testItem.
    unfold ret, errorFreeItems. destruct (bool_decide _); reflexivity.
Qed.

Lemma stripExtraConfigs_run (this : Registry) w :
  stripExtraConfigs this w
  = (filter (fun l => holds wasLinted (heap w) l = true) <$> this, w).
Proof.
  unfold stripExtraConfigs.
  rewrite (foldM_pure _
    (fun newRules ruleId =>
       <[ruleId := filter (fun l => holds wasLinted (heap w) l = true)
                          (default [] (newRules !! ruleId))]> newRules)).
  - f_equal. apply map_eq. intros k. rewrite lookup_fmap.
    rewrite (foldl_keys_lookup this this _
               (fun items =>
                  Some (filter (fun l => holds wasLinted (heap w) l = true)
                               items))).
    + destruct (this !! k); reflexivity.
    + intros acc k' a Hk Hacc. rewrite Hacc, Hk. apply lookup_insert_eq.
    + intros acc k1 k2 Hne. by apply lookup_insert_ne.
  - intros b x. unfold bind. rewrite filterM_testItem. reflexivity.
Qed.

Lemma filterBySpecificity_run (n : nat) (this : Registry) w :
  filterBySpecificity n this w
  = (filter (fun l => holds (hasSpecificity n) (heap w) l = true) <$> this, w).
Proof.
  unfold filterBySpecificity.
  rewrite (foldM_pure _
    (fun newRules ruleId =>
       <[ruleId := filter (fun l => holds (hasSpecificity n) (heap w) l = true)
                          (default [] (this !! ruleId))]> newRules)).
  - f_equal. apply map_eq. intros k. rewrite lookup_fmap.
    rewrite (foldl_keys_lookup this this _
               (fun items =>
                  Some (filter
                          (fun l => holds (hasSpecificity n) (heap w) l = true)
                          items))).
    + destruct (this !! k); reflexivity.
    + intros acc k' a Hk Hacc. rewrite Hk. apply lookup_insert_eq.
    + intros acc k1 k2 Hne. by apply lookup_insert_ne.
  - intros b x. unfold bind. rewrite filterM_testItem. reflexivity.
Qed.

Lemma createConfig_run (this : Registry) w :
  createConfig this w
  = (EslintConfig (omap (onlyConfig (heap w)) this) None [], w).
Proof.
  unfold createConfig, bind.
  rewrite (foldM_pure _
    (fun (rules : RuleSet) ruleId =>
       match onlyConfig (heap w) (default [] (this !! ruleId)) with
       | Some c => <[ruleId := c]> rules
       | None => rules
       end)).
  - unfold ret. f_equal. f_equal. apply map_eq. intros k. rewrite lookup_omap.
    rewrite (foldl_keys_lookup this ∅ _ (onlyConfig (heap w))).
    + destruct (this !! k); [reflexivity|]. apply lookup_empty.
    + intros acc k' a Hk Hacc. rewrite Hk. simpl.
      destruct (onlyConfig (heap w) a).
      * apply lookup_insert_eq.
      * rewrite Hacc. apply lookup_empty.
    + intros acc k1 k2 Hne.
      destruct (onlyConfig _ _); [by apply lookup_insert_ne | reflexivity].
  - intros b x. unfold onlyConfig.
    destruct (default [] (this !! x)) as [|l [|l' ls]]; try reflexivity.
    unfold bind, getItem, ret. simpl. destruct (heap w !! l); reflexivity.
Qed.

Lemma errorFreeItems_idem (h : list registryItem) (items kept : list loc) :
  errorFreeItems h items = Some kept -> errorFreeItems h kept = Some kept.
Proof.
  unfold errorFreeItems. intros H.
  case_bool_decide as Hlen; [|discriminate]. injection H as <-.
  rewrite list_filter_filter_l by auto.
  rewrite bool_decide_eq_true_2 by assumption. reflexivity.
Qed.

(** C8. [stripFailingConfigs] is idempotent: applied to its own result, in
    the state it leaves, it returns that result again; one application keeps,
    for every rule, exactly the items whose [errorCount] is 0, and drops a
    rule that keeps none. *)
Theorem stripFailingConfigs_idempotent (this : Registry) w :
  (let* stripped := stripFailingConfigs this in stripFailingConfigs stripped) w
  = stripFailingConfigs this w
  /\ forall ruleId : string,
       (stripFailingConfigs this w).1 !! ruleId
       = this !! ruleId ≫= errorFreeItems (heap w).
Proof.
  split.
  - unfold bind. rewrite stripFailingConfigs_run, stripFailingConfigs_run.
    f_equal. apply map_eq. intros k. rewrite !lookup_omap.
    destruct (this !! k) as [items|]; [|reflexivity]. simpl.
    destruct (errorFreeItems (heap w) items) as [kept|] eqn:E; [|reflexivity].
    simpl. eapply errorFreeItems_idem, E.
  - intros ruleId. rewrite stripFailingConfigs_run. simpl. apply lookup_omap.
Qed.

(** C7, as amended. [createConfig] returns a configuration that consists of
    its [rules] alone, and these hold exactly the rules that have one item in the
    registry, each with the configuration of that item; the registry and its
    items are left as they are. *)
Theorem createConfig_only_single (this : Registry) w (ruleId : string)
    (c : ruleConfig) :
  (rules (createConfig this w).1 !! ruleId = Some c
   <-> exists l it, this !! ruleId = Some [l]
                    /\ heap w !! l = Some it /\ config it = c)
  /\ extends (createConfig this w).1 = None
  /\ others (createConfig this w).1 = []
  /\ (createConfig this w).2 = w.
Proof.
  rewrite createConfig_run. simpl. rewrite lookup_omap.
  split; [|repeat split]. split.
  - destruct (this !! ruleId) as [[|l [|l' ls]]|]; simpl; try discriminate.
    destruct (heap w !! l) as [it|] eqn:Hl; simpl; [|discriminate].
    intros [= <-]. eauto.
  - intros (l & it & -> & Hl & <-). simpl. by rewrite Hl.
Qed.

(** C3, as amended. [stripFailingConfigs], [stripExtraConfigs] and
    [filterBySpecificity] change nothing of the state, so the rule set, the
    arrays, the specificities and the counts of their input are as before the
    call; the registry they return holds the very items of the input. *)
Theorem transforms_shallowCopy (this : Registry) w :
  shallowCopy stripFailingConfigs this w
  /\ shallowCopy stripExtraConfigs this w
  /\ forall n, shallowCopy (filterBySpecificity n) this w.
Proof.
  unfold shallowCopy. repeat split.
  - by rewrite stripFailingConfigs_run.
  - intros ruleId items'. rewrite stripFailingConfigs_run. simpl.
    rewrite lookup_omap. destruct (this !! ruleId) as [items|]; [|discriminate].
    simpl. unfold errorFreeItems. case_bool_decide; [|discriminate].
    intros [= <-]. eexists. split; [reflexivity|]. apply sublist_filter.
  - by rewrite stripExtraConfigs_run.
  - intros ruleId items'. rewrite stripExtraConfigs_run. simpl.
    rewrite lookup_fmap. destruct (this !! ruleId) as [items|]; [|discriminate].
    simpl. intros [= <-]. eexists. split; [reflexivity|]. apply sublist_filter.
  - by rewrite filterBySpecificity_run.
  - intros ruleId items'. rewrite filterBySpecificity_run. simpl.
    rewrite lookup_fmap. destruct (this !! ruleId) as [items|]; [|discriminate].
    simpl. intros [= <-]. eexists. split; [reflexivity|]. apply sublist_filter.
Qed.

End RegistryFacts.

(** C3, as stated, fails: a count incremented through the registry a
    transform returned, as the linting pass does it, has changed when read
    through the registry the transform was applied to. *)
Lemma snapshots_share_counts :
  let observed (T : Registry -> M Registry) :=
    let (snapshot, w1) := T semiRegistry semiWorld in
    let (_, w2) := countResults snapshot 0 ["semi"] w1 in
    ((readErrorCount semiRegistry "semi" 0 w1).1,
     (readErrorCount semiRegistry "semi" 0 w2).1) in
  observed stripFailingConfigs = (Some (Num 0), Some (Num 1))
  /\ observed stripExtraConfigs = (Some (Num 0), Some (Num 1))
  /\ observed (filterBySpecificity 1) = (Some (Num 0), Some (Num 1)).
Proof. vm_compute. repeat split. Qed.

(** ** Rule sets *)

Section RoundFacts.
Context {SourceCode : Type}.
Implicit Types w : @world SourceCode.

Lemma length_le_longest (this : Registry) (rule : string) (items : list loc) :
  this !! rule = Some items -> length items <= longest this.
Proof.
  intros H. apply max_list_elem_of_le. apply list_elem_of_fmap.
  exists items. split; [reflexivity|]. apply list_elem_of_fmap.
  exists (rule, items). split; [reflexivity|]. by apply elem_of_map_to_list.
Qed.

(** Past the longest array no rule adds a configuration. *)
Lemma addRuleToRuleSet_beyond (this : Registry) (idx : nat)
    (ruleSets : list RuleSet) (rule : string) w :
  longest this <= idx ->
  addRuleToRuleSet this idx ruleSets rule w = (ruleSets, w).
Proof.
  intros Hidx. unfold addRuleToRuleSet.
  destruct (this !! rule) as [items|] eqn:E; simpl.
  - rewrite lookup_ge_None_2; [reflexivity|].
    pose proof (length_le_longest _ _ _ E). lia.
  - reflexivity.
Qed.

(** The loop of [buildRuleSets] has left by the time its fuel runs out: more
    fuel gives the same rule sets and the same state. *)
Lemma buildRuleSets_loop_fuel (this : Registry) (fuel1 : nat) :
  forall fuel2 idx ruleSets w,
    longest this < idx + fuel1 -> fuel1 <= fuel2 ->
    buildRuleSets_loop fuel1 this idx ruleSets w
    = buildRuleSets_loop fuel2 this idx ruleSets w.
Proof.
  induction fuel1 as [|fuel1 IH]; intros fuel2 idx ruleSets w Hlong Hle.
  - destruct fuel2 as [|fuel2]; [reflexivity|]. simpl.
    case_decide as Hlen; [|reflexivity].
    unfold bind.
    rewrite (foldM_pure _ (fun rs _ => rs));
      [|intros; apply addRuleToRuleSet_beyond; lia].
    replace (foldl (fun rs _ => rs) ruleSets (keys this)) with ruleSets
      by (induction (keys this); auto).
    destruct fuel2 as [|fuel2]; [reflexivity|]. simpl.
    rewrite decide_False by lia. reflexivity.
  - destruct fuel2 as [|fuel2]; [lia|]. simpl.
    case_decide as Hlen; [|reflexivity].
    unfold bind. destruct (foldM _ ruleSets (keys this) w) as [ruleSets' w'].
    apply IH; lia.
Qed.

Corollary buildRuleSets_enough_fuel (this : Registry) (fuel : nat) w :
  S (longest this) <= fuel ->
  buildRuleSets_loop fuel this 0 [] w = buildRuleSets this w.
Proof.
  intros H. symmetry. apply buildRuleSets_loop_fuel; lia.
Qed.

Lemma simpleItems_setErrorCount (h : list registryItem) (items : list loc)
    (l : loc) (c : count) :
  simpleItems h items ->
  simpleItems
    (alter (fun it => RegistryItem (config it) (specificity it) c) l h) items.
Proof.
  intros H l' Hl'. destruct (H l' Hl') as (it & Hit & Hs).
  rewrite list_lookup_alter. case_decide as Hl; [subst l'|].
  - rewrite Hit. eexists. split; [reflexivity|exact Hs].
  - eauto.
Qed.

Lemma buildRuleSets_loop_simple (rule : string) (items : list loc) (fuel : nat) :
  forall idx ruleSets w,
    length ruleSets = idx -> idx <= length items ->
    length items < idx + fuel ->
    simpleItems (heap w) items ->
    length (buildRuleSets_loop fuel {[rule := items]} idx ruleSets w).1
    = length items.
Proof.
  induction fuel as [|fuel IH]; intros idx ruleSets w Hlen Hidx Hfuel Hsimple;
    [lia|].
  simpl. rewrite decide_True by assumption.
  rewrite keys_singleton. simpl. unfold bind at 1 2. unfold addRuleToRuleSet.
  rewrite lookup_singleton_eq. simpl.
  destruct (items !! idx) as [l|] eqn:El.
  - destruct (Hsimple l) as (it & Hit & Hspec & Hobj).
    { eapply list_elem_of_lookup_2, El. }
    unfold bind at 1. unfold getItem at 1. rewrite Hit.
    rewrite (bool_decide_eq_true_2 (specificity it <= 2)) by assumption.
    rewrite orb_true_r, Hobj, andb_false_r.
    unfold bind, setErrorCount, ret.
    apply IH.
    + unfold array_set. rewrite decide_False by lia.
      rewrite length_app. simpl. lia.
    + apply lookup_lt_Some in El. lia.
    + lia.
    + simpl. by apply simpleItems_setErrorCount.
  - unfold ret. apply lookup_ge_None_1 in El.
    destruct fuel as [|fuel]; simpl; [lia|].
    rewrite decide_False by lia. simpl. lia.
Qed.

(** A rule whose configurations all have at most one option, not an object,
    gets one rule set per configuration, however many there are. *)
Lemma buildRuleSets_simple (rule : string) (items : list loc) w :
  simpleItems (heap w) items ->
  length (buildRuleSets {[rule := items]} w).1 = length items.
Proof.
  intros H. unfold buildRuleSets.
  apply buildRuleSets_loop_simple; try lia; [reflexivity| |assumption].
  assert (length items <= longest {[rule := items]}).
  { apply (length_le_longest _ rule). apply lookup_singleton_eq. }
  lia.
Qed.

(** There is no bound on the number of rule sets. *)
Corollary buildRuleSets_unbounded (n : nat) :
  let w := World (replicate n (RegistryItem (CfgNum 2) 1 Undefined))
                 (∅ : gmap string (option SourceCode)) [] in
  length (buildRuleSets {[ "r" := seq 0 n ]} w).1 = n.
Proof.
  intros w. rewrite buildRuleSets_simple; [apply length_seq|].
  intros l Hl. apply elem_of_seq in Hl.
  exists (RegistryItem (CfgNum 2) 1 Undefined). split.
  - apply lookup_replicate_2. lia.
  - split; [simpl; lia | reflexivity].
Qed.

Lemma length_array_set {A : Type} (i : nat) (x : A) (l : list A) :
  length (array_set i x l) = if decide (i < length l) then length l else S (length l).
Proof.
  unfold array_set. case_decide.
  - apply length_insert.
  - rewrite length_app. simpl. lia.
Qed.

(** Within one round the array of rule sets grows by at most the rule set of
    the round. *)
Lemma addRuleToRuleSet_length (this : Registry) (idx : nat)
    (ruleSets : list RuleSet) (rule : string) w :
  length ruleSets = idx \/ length ruleSets = S idx ->
  let r := (addRuleToRuleSet this idx ruleSets rule w).1 in
  length r = idx \/ length r = S idx.
Proof.
  intros Hlen. unfold addRuleToRuleSet.
  destruct (default [] (this !! rule) !! idx) as [l|]; [|exact Hlen].
  unfold bind, getItem. destruct (heap w !! l) as [it|]; [|exact Hlen].
  destruct (_ || _); [|exact Hlen].
  destruct (_ && _); [exact Hlen|].
  simpl. rewrite length_array_set. case_decide; lia.
Qed.

Lemma addRules_length (this : Registry) (idx : nat) (rules : list string) :
  forall (ruleSets : list RuleSet) w,
    length ruleSets = idx \/ length ruleSets = S idx ->
    let r := (foldM (addRuleToRuleSet this idx) ruleSets rules w).1 in
    length r = idx \/ length r = S idx.
Proof.
  induction rules as [|rule rules IH]; intros ruleSets w Hlen; [exact Hlen|].
  simpl. unfold bind.
  pose proof (addRuleToRuleSet_length this idx ruleSets rule w Hlen) as H.
  destruct (addRuleToRuleSet this idx ruleSets rule w) as [ruleSets' w'].
  apply IH. exact H.
Qed.

Lemma buildRuleSets_loop_length (this : Registry) (fuel : nat) :
  forall idx (ruleSets : list RuleSet) w,
    length ruleSets <= longest this ->
    (length ruleSets = idx -> idx <= longest this) ->
    length (buildRuleSets_loop fuel this idx ruleSets w).1 <= longest this.
Proof.
  induction fuel as [|fuel IH]; intros idx ruleSets w Hle Hidx; [exact Hle|].
  simpl. case_decide as Hlen; [|exact Hle].
  unfold bind.
  destruct (decide (idx < longest this)) as [Hlt|Hge].
  - pose proof (addRules_length this idx (keys this) ruleSets w (or_introl Hlen))
      as H.
    destruct (foldM _ ruleSets (keys this) w) as [ruleSets' w']. simpl in H.
    apply IH; lia.
  - rewrite (foldM_pure _ (fun rs _ => rs));
      [|intros; apply addRuleToRuleSet_beyond; lia].
    replace (foldl (fun rs _ => rs) ruleSets (keys this)) with ruleSets
      by (induction (keys this); auto).
    apply IH; lia.
Qed.

(** The number of rule sets is at most the number of configurations of the
    rule that has most. *)
Lemma buildRuleSets_length (this : Registry) w :
  length (buildRuleSets this w).1 <= longest this.
Proof.
  apply buildRuleSets_loop_length; simpl; lia.
Qed.

End RoundFacts.

(** C2, at the failing input. An option with seventeen values gives a rule
    eighteen configurations, and [buildRuleSets] returns eighteen rule sets
    for it, more than [MAX_CONFIG_COMBINATIONS]. *)
Lemma buildRuleSets_exceeds_MAX_CONFIG_COMBINATIONS :
  generateConfigsFromSchema (SchemaArray [OptSchema (Some seventeen) None None])
  = Ok eighteenConfigs
  /\ (let (registry, w) :=
        Registry_new (Some {[ "r" := eighteenConfigs ]}) emptyWorld in
      length (buildRuleSets registry w).1) = 18
  /\ MAX_CONFIG_COMBINATIONS = 17.
Proof. vm_compute. repeat split. Qed.

(** ** The linting pass *)

Section LintFacts.
Context {SourceCode : Type}.
Implicit Types w : @world SourceCode.

Lemma heapOnly_ret {A : Type} (a : A) : heapOnly (SourceCode := SourceCode) (ret a).
Proof. intros w. split; reflexivity. Qed.

Lemma heapOnly_bind {A B : Type} (m : @M SourceCode A) (k : A -> @M SourceCode B) :
  heapOnly m -> (forall a, heapOnly (k a)) -> heapOnly (bind m k).
Proof.
  intros Hm Hk w. unfold bind. destruct (m w) as [a w'] eqn:E.
  destruct (Hm w) as [H1 H2]. rewrite E in H1, H2. simpl in H1, H2.
  destruct (Hk a w') as [H3 H4]. split; congruence.
Qed.

Lemma heapOnly_foldM {A B : Type} (f : B -> A -> @M SourceCode B) (l : list A) :
  (forall b x, heapOnly (f b x)) -> forall b, heapOnly (foldM f b l).
Proof.
  intros Hf. induction l as [|x l IH]; intros b; simpl.
  - apply heapOnly_ret.
  - apply heapOnly_bind; auto.
Qed.

Lemma heapOnly_mapM {A B : Type} (f : A -> @M SourceCode B) (l : list A) :
  (forall x, heapOnly (f x)) -> heapOnly (mapM f l).
Proof.
  intros Hf. induction l as [|x l IH]; simpl.
  - apply heapOnly_ret.
  - apply heapOnly_bind; [apply Hf|]. intros y.
    apply heapOnly_bind; [apply IH|]. intros ys. apply heapOnly_ret.
Qed.

Lemma heapOnly_getItem (l : loc) : heapOnly (SourceCode := SourceCode) (getItem l).
Proof. intros w. split; reflexivity. Qed.

Lemma heapOnly_setErrorCount (l : loc) (c : count) :
  heapOnly (SourceCode := SourceCode) (setErrorCount l c).
Proof. intros w. split; reflexivity. Qed.

Lemma heapOnly_makeRegistryItems (rulesConfig : RulesConfig) :
  heapOnly (SourceCode := SourceCode) (makeRegistryItems rulesConfig).
Proof.
  unfold makeRegistryItems. apply heapOnly_foldM. intros acc ruleId.
  apply heapOnly_bind.
  - apply heapOnly_mapM. intros c w. split; reflexivity.
  - intros items. apply heapOnly_ret.
Qed.

Lemma heapOnly_addRuleToRuleSet (this : Registry) (idx : nat)
    (ruleSets : list RuleSet) (rule : string) :
  heapOnly (SourceCode := SourceCode) (addRuleToRuleSet this idx ruleSets rule).
Proof.
  unfold addRuleToRuleSet.
  destruct (default [] (this !! rule) !! idx) as [l|]; [|apply heapOnly_ret].
  apply heapOnly_bind; [apply heapOnly_getItem|].
  intros [it|]; [|apply heapOnly_ret].
  destruct (_ || _); [|apply heapOnly_ret].
  destruct (_ && _); [apply heapOnly_ret|].
  apply heapOnly_bind; [apply heapOnly_setErrorCount|].
  intros _. apply heapOnly_ret.
Qed.

Lemma heapOnly_buildRuleSets_loop (fuel : nat) (this : Registry) :
  forall idx ruleSets,
    heapOnly (SourceCode := SourceCode)
             (buildRuleSets_loop fuel this idx ruleSets).
Proof.
  induction fuel as [|fuel IH]; intros idx ruleSets; simpl.
  - apply heapOnly_ret.
  - case_decide; [|apply heapOnly_ret].
    apply heapOnly_bind; [|auto].
    apply heapOnly_foldM. intros. apply heapOnly_addRuleToRuleSet.
Qed.

Lemma heapOnly_buildRuleSets (this : Registry) :
  heapOnly (SourceCode := SourceCode) (buildRuleSets this).
Proof. apply heapOnly_buildRuleSets_loop. Qed.

Lemma heapOnly_countResults (lintedRegistry : Registry) (ruleSetIdx : nat)
    (lintResults : list string) :
  heapOnly (SourceCode := SourceCode)
           (countResults lintedRegistry ruleSetIdx lintResults).
Proof.
  induction lintResults as [|ruleId rest IH]; simpl.
  - apply heapOnly_ret.
  - destruct (lintedRegistry !! ruleId) as [items|]; [|apply heapOnly_ret].
    destruct (items !! ruleSetIdx) as [l|]; [|apply heapOnly_ret].
    apply heapOnly_bind; [apply heapOnly_getItem|]. intros it.
    apply heapOnly_bind; [apply heapOnly_setErrorCount|]. intros _. apply IH.
Qed.

Context (verify : option SourceCode -> eslintConfig -> verifyOutcome).

Lemma verifyCalls_app (t1 t2 : list event) :
  verifyCalls (t1 ++ t2) = verifyCalls t1 ++ verifyCalls t2.
Proof. apply omap_app. Qed.

(** One call of the linter: the files are as before, and the trace has one
    more call of [eslint.verify], whatever the call did. *)
Lemma lintRuleSet_effect (lintedRegistry : Registry) (config : eslintConfig)
    (cb : bool) (total : nat) (filename : string) (idx : nat)
    (ruleSet : RuleSet) w :
  let r := lintRuleSet verify lintedRegistry config cb total filename idx
             ruleSet w in
  r.1 = S idx
  /\ sourceCodes r.2 = sourceCodes w
  /\ verifyCalls (trace r.2) = verifyCalls (trace w) ++ [(filename, idx)].
Proof.
  unfold lintRuleSet, bind, getSourceCodes, emit. simpl.
  destruct (verify _ _) as [lintResults|err].
  - match goal with |- context [countResults ?a ?b ?c ?v] =>
      destruct (heapOnly_countResults a b c v) as [Hs Ht];
      destruct (countResults a b c v) as [r w'] end.
    simpl in Hs, Ht.
    destruct r, cb; simpl; rewrite ?Hs, ?Ht, ?verifyCalls_app; simpl;
      rewrite ?verifyCalls_app, ?app_nil_r; simpl; rewrite ?app_nil_r; auto.
  - destruct cb; simpl; rewrite ?verifyCalls_app; simpl;
      rewrite ?verifyCalls_app, ?app_nil_r; simpl; rewrite ?app_nil_r; auto.
Qed.

Lemma lintRuleSets_effect (lintedRegistry : Registry) (config : eslintConfig)
    (cb : bool) (total : nat) (filename : string) (ruleSets : list RuleSet) :
  forall idx w,
    let r := foldM (lintRuleSet verify lintedRegistry config cb total filename)
                   idx ruleSets w in
    sourceCodes r.2 = sourceCodes w
    /\ verifyCalls (trace r.2)
       = verifyCalls (trace w)
         ++ map (fun i => (filename, i)) (seq idx (length ruleSets)).
Proof.
  induction ruleSets as [|ruleSet ruleSets IH]; intros idx w; simpl.
  - rewrite app_nil_r. auto.
  - unfold bind.
    destruct (lintRuleSet_effect lintedRegistry config cb total filename idx
                ruleSet w) as (H1 & H2 & H3).
    destruct (lintRuleSet _ _ _ _ _ _ _ _ w) as [idx' w']. simpl in H1, H2, H3.
    subst idx'. destruct (IH (S idx) w') as [H4 H5].
    rewrite H4, H5, H2, H3, <- app_assoc. auto.
Qed.

Lemma lintFile_effect (lintedRegistry : Registry) (config : eslintConfig)
    (cb : bool) (total : nat) (ruleSets : list RuleSet) (filename : string) w :
  let r := lintFile verify lintedRegistry config cb total ruleSets filename w in
  sourceCodes r.2 = <[filename := None]> (sourceCodes w)
  /\ verifyCalls (trace r.2)
     = verifyCalls (trace w)
       ++ map (fun i => (filename, i)) (seq 0 (length ruleSets)).
Proof.
  unfold lintFile, bind.
  destruct (lintRuleSets_effect lintedRegistry config cb total filename
              ruleSets 0 w) as [H1 H2].
  destruct (foldM _ 0 ruleSets w) as [idx w']. simpl in *.
  rewrite H1, H2. auto.
Qed.

Lemma lintFiles_effect (lintedRegistry : Registry) (config : eslintConfig)
    (cb : bool) (total : nat) (ruleSets : list RuleSet)
    (filenames : list string) :
  forall w,
    let r := foldM (fun _ filename =>
                      lintFile verify lintedRegistry config cb total ruleSets
                               filename)
                   tt filenames w in
    sourceCodes r.2
    = foldl (fun m f => <[f := None]> m) (sourceCodes w) filenames
    /\ verifyCalls (trace r.2)
       = verifyCalls (trace w) ++ allPairs filenames (length ruleSets).
Proof.
  induction filenames as [|f filenames IH]; intros w; simpl.
  - rewrite app_nil_r. auto.
  - unfold bind.
    destruct (lintFile_effect lintedRegistry config cb total ruleSets f w)
      as [H1 H2].
    destruct (lintFile _ _ _ _ _ _ _ w) as [[] w']. simpl in H1, H2.
    destruct (IH w') as [H3 H4]. rewrite H3, H4, H1, H2, <- app_assoc. auto.
Qed.

Lemma deallocate_all (m : gmap string (option SourceCode)) :
  foldl (fun m f => <[f := None]> m) m (keys m) = (fun _ => None) <$> m.
Proof.
  apply map_eq. intros k. rewrite lookup_fmap.
  rewrite (foldl_keys_lookup m m _ (fun _ => Some None)).
  - destruct (m !! k); reflexivity.
  - intros. apply lookup_insert_eq.
  - intros. by apply lookup_insert_ne.
Qed.

(** The pass as a whole. *)
Lemma lintSourceCode_effect (this : Registry) (config : eslintConfig)
    (cb : bool) w :
  let r := lintSourceCode verify this config cb w in
  sourceCodes r.2 = (fun _ => None) <$> sourceCodes w
  /\ verifyCalls (trace r.2)
     = verifyCalls (trace w)
       ++ allPairs (keys (sourceCodes w)) (length (buildRuleSets this w).1).
Proof.
  unfold lintSourceCode, bind.
  destruct (heapOnly_buildRuleSets this w) as [Hs Ht].
  destruct (buildRuleSets this w) as [ruleSets w1]. simpl in Hs, Ht.
  rewrite stripExtraConfigs_run. unfold getSourceCodes.
  match goal with |- context [foldM ?body tt ?names w1] =>
    destruct (lintFiles_effect
                (filter (fun l => holds wasLinted (heap w1) l = true) <$> this)
                config cb (length (keys (sourceCodes w1)) * length ruleSets)
                ruleSets (keys (sourceCodes w1)) w1) as [H1 H2];
    destruct (foldM body tt names w1) as [[] w2] end.
  simpl in *. rewrite H1, H2, Hs, Ht, deallocate_all. auto.
Qed.

(** When every call of the linter throws, the counts are as [buildRuleSets]
    set them. *)
Lemma lintSourceCode_all_fail (this : Registry) (config : eslintConfig)
    (cb : bool) w :
  (forall sourceCode lintConfig, exists err,
      verify sourceCode lintConfig = Throws err) ->
  heap (lintSourceCode verify this config cb w).2
  = heap (buildRuleSets this w).2.
Proof.
  intros Hfail.
  assert (Hstep : forall lintedRegistry total filename ruleSets idx wi,
             heap (foldM (lintRuleSet verify lintedRegistry config cb total
                                      filename) idx ruleSets wi).2 = heap wi).
  { intros lintedRegistry total filename ruleSets.
    induction ruleSets as [|ruleSet ruleSets IH]; intros idx wi; [reflexivity|].
    simpl. unfold bind at 1.
    destruct (Hfail (mjoin (sourceCodes wi !! filename))
                (EslintConfig ruleSet (extends config) (others config)))
      as [err Herr].
    unfold lintRuleSet, bind, getSourceCodes, emit. simpl. rewrite Herr.
    destruct cb; simpl; rewrite IH; reflexivity. }
  assert (Hfiles : forall lintedRegistry total ruleSets filenames wi,
             heap (foldM (fun _ filename =>
                            lintFile verify lintedRegistry config cb total
                                     ruleSets filename) tt filenames wi).2
             = heap wi).
  { intros lintedRegistry total ruleSets filenames.
    induction filenames as [|f filenames IH]; intros wi; [reflexivity|].
    simpl. unfold bind at 1. unfold lintFile, bind.
    pose proof (Hstep lintedRegistry total f ruleSets 0 wi) as H.
    destruct (foldM _ 0 ruleSets wi) as [idx' wi']. simpl in H.
    unfold deallocate. rewrite IH. simpl. exact H. }
  unfold lintSourceCode, bind.
  destruct (buildRuleSets this w) as [ruleSets w1]. simpl.
  rewrite stripExtraConfigs_run. unfold getSourceCodes.
  match goal with |- context [foldM ?body tt ?names w1] =>
    pose proof (Hfiles
                  (filter (fun l => holds wasLinted (heap w1) l = true) <$> this)
                  (length (keys (sourceCodes w1)) * length ruleSets)
                  ruleSets names w1) as H;
    destruct (foldM body tt names w1) as [[] w2] end.
  exact H.
Qed.

(** C10. [lintSourceCode] sets every entry of the [sourceCodes] object it is
    given to [null]: after the call the object has its keys, each with
    [null], and a second pass would hand [null] to the linter for every
    file. *)
Theorem lintSourceCode_deallocates (this : Registry) (config : eslintConfig)
    (cb : bool) w :
  sourceCodes (lintSourceCode verify this config cb w).2
  = (fun _ => None) <$> sourceCodes w
  /\ forall filename : string,
       mjoin (sourceCodes (lintSourceCode verify this config cb w).2
                !! filename) = None.
Proof.
  destruct (lintSourceCode_effect this config cb w) as [H _].
  split; [exact H|]. intros filename. rewrite H, lookup_fmap.
  destruct (sourceCodes w !! filename); reflexivity.
Qed.


End LintFacts.

(** Scenario B: two files; [2, "always"] gives rise to one message on the
    second file, [2, "never"] to none.  After the pass the count of the
    former is 1, and [stripFailingConfigs] keeps the bare severity and
    [2, "never"]. *)
Example scenario_two_files :
  let verify (sourceCode : option nat) (c : eslintConfig) :=
    match sourceCode, rules c !! "quotes" with
    | Some 2, Some (CfgArr [_; JStr "always"]) => Returns ["quotes"]
    | _, _ => Returns []
    end in
  let (registry, w) :=
    (let* registry :=
       Registry_new
         (Some {[ "quotes" := [CfgNum 2; CfgArr [JNum 2; JStr "always"];
                               CfgArr [JNum 2; JStr "never"]] ]}) in
     lintSourceCode verify registry emptyConfig false)
      (World [] {[ "one.js" := Some 1; "two.js" := Some 2 ]} []) in
  map errorCount (heap w) = [Num 0; Num 1; Num 0]
  /\ configsAt (heap w) <$> (stripFailingConfigs registry w).1 !! "quotes"
     = Some [CfgNum 2; CfgArr [JNum 2; JStr "never"]]
  /\ verifyCalls (trace w)
     = [("one.js", 0); ("one.js", 1); ("one.js", 2);
        ("two.js", 0); ("two.js", 1); ("two.js", 2)].
Proof. vm_compute. repeat split. Qed.


(** ** Configuring the rules *)

(** The order of precedence of the merge that [configureRules] has in its
    text: a rule takes its configuration from the first of [singleConfigs],
    [specTwoConfigs], [specThreeConfigs], [defaultConfigs] and
    [disabledConfigs] that has it. *)
Lemma assign_precedence
    (disabledConfigs defaultConfigs specThreeConfigs specTwoConfigs
       singleConfigs : RuleSet) (ruleId : string) :
  assign [disabledConfigs; defaultConfigs; specThreeConfigs; specTwoConfigs;
          singleConfigs] !! ruleId
  = match singleConfigs !! ruleId, specTwoConfigs !! ruleId,
          specThreeConfigs !! ruleId, defaultConfigs !! ruleId with
    | Some c, _, _, _ => Some c
    | None, Some c, _, _ => Some c
    | None, None, Some c, _ => Some c
    | None, None, None, Some c => Some c
    | None, None, None, None => disabledConfigs !! ruleId
    end.
Proof.
  unfold assign. simpl. rewrite !lookup_union, lookup_empty.
  destruct (singleConfigs !! ruleId), (specTwoConfigs !! ruleId),
    (specThreeConfigs !! ruleId), (defaultConfigs !! ruleId),
    (disabledConfigs !! ruleId); reflexivity.
Qed.

Section ConfigureFacts.
Context {SourceCode : Type}.
Implicit Types w : @world SourceCode.
Context (verify : option SourceCode -> eslintConfig -> verifyOutcome).

(** The registry [configureRules] holds when it goes on to select is the one
    that [lintSourceCode] returned, in the state that left: the registry
    that [stripFailingConfigs] returns plays no part. *)
Lemma configureRules_registry_linted
    (listFilesToProcess : list string)
    (getSourceCodeOfFile : string -> option SourceCode)
    (coreRules : gmap string schema) (inquirerUi_complete : result unit)
    (config : eslintConfig) (registry : Registry) w w' :
  configureRules_registry verify listFilesToProcess getSourceCodeOfFile
    coreRules inquirerUi_complete config w = (Ok registry, w') ->
  exists (populated : Registry) w1,
    lintSourceCode verify populated config true w1 = (registry, w').
Proof.
  unfold configureRules_registry. unfold bind at 1.
  destruct (getSourceCodeOfFiles _ _ _ w) as [sourceCodes w0].
  unfold bind at 1.
  match goal with |- context [(if ?b then ?x else ?y) w0] =>
    destruct ((if b then x else y) w0) as [[[]|e] wg] end; [|discriminate].
  unfold bind at 1.
  destruct (populateFromCoreRules coreRules wg) as [[populated|e] w1];
    [|discriminate].
  unfold bind at 1.
  destruct (lintSourceCode verify populated config true w1) as [linted w2] eqn:Hl.
  unfold bind. rewrite stripFailingConfigs_run. unfold ret.
  intros [= <- <-]. by exists populated, w1.
Qed.

(** With no file, the pass makes no call and writes nothing. *)
Lemma lintSourceCode_no_files (this : Registry) (config : eslintConfig)
    (cb : bool) w :
  sourceCodes w = ∅ ->
  trace (lintSourceCode verify this config cb w).2 = trace w.
Proof.
  intros Hnone. unfold lintSourceCode, bind.
  destruct (heapOnly_buildRuleSets this w) as [Hs Ht].
  destruct (buildRuleSets this w) as [ruleSets w1]. simpl in Hs, Ht.
  rewrite stripExtraConfigs_run. unfold getSourceCodes.
  rewrite Hs, Hnone, keys_empty. simpl. exact Ht.
Qed.

End ConfigureFacts.

(** C4, at the failing inputs.  No file is listed, or the one file listed
    has no source, so that [fileQty] is 0, and [inquirerUi.complete()]
    returns.  [configureRules] logs the failure and asks the prompt to
    complete, and then goes on: it makes the items of the registry and
    builds the rule sets, which sets the counts to 0, and ends in the
    [TypeError] of the call that follows, not at the guard.  The linter is
    not called. *)
Lemma configureRules_no_files_falls_through :
  (let r := configureRules demoVerify [] (fun _ => Some tt) demoRules (Ok tt)
              emptyConfig emptyWorld in
   r.1 = Throw (TypeError "registry.getRulesWithOneConfig is not a function")
   /\ trace r.2 = [EvConsoleError "Failed. No files resolved from: ";
                  EvUiComplete]
   /\ map errorCount (heap r.2) = [Num 0; Num 0; Num 0; Num 0; Num 0])
  /\ (let r := configureRules demoVerify ["f.js"] (fun _ => None) demoRules
                 (Ok tt) emptyConfig emptyWorld in
      r.1 = Throw (TypeError "registry.getRulesWithOneConfig is not a function")
      /\ trace r.2 = [EvProgress 1;
                     EvConsoleError "Failed. No files resolved from: ";
                     EvUiComplete]
      /\ map errorCount (heap r.2) = [Num 0; Num 0; Num 0; Num 0; Num 0]).
Proof. vm_compute. repeat split. Qed.

(** C1, at the failing input.  One file is linted; the configurations of rule
    "r" with the option "a" fail on it.  The items that
    [stripFailingConfigs] keeps for "r" have the specificities 1, 2 and 3, the
    one of specificity 2 being [2, "b"].  [configureRules] drops the registry
    that call returns: the registry it goes on with has all five items of
    "r", the two that failed among them, two of specificity 2 and two of
    specificity 3.  It then calls [getRulesWithOneConfig], which no registry
    has, and ends in a [TypeError] with no rule resolved. *)
Lemma configureRules_keeps_failing_configs :
  createConfigsForCoreRules demoRules = Ok demoRulesConfig
  /\ (let r := configureRules_registry demoVerify ["f.js"] (fun _ => Some tt)
                 demoRules (Ok tt) emptyConfig emptyWorld in
      match r.1 return Prop with
      | Throw _ => False
      | Ok registry =>
          let stripped : Registry := (stripFailingConfigs registry r.2).1 in
          configsAt (heap r.2) <$> stripped !! "r"
          = Some [CfgNum 2; CfgArr [JNum 2; JStr "b"];
                  CfgArr [JNum 2; JStr "b"; JStr "c"]]
          /\ specificitiesAt (heap r.2) <$> stripped !! "r" = Some [1; 2; 3]
          /\ configsAt (heap r.2) <$> registry !! "r"
             = Some [CfgNum 2;
                     CfgArr [JNum 2; JStr "a"]; CfgArr [JNum 2; JStr "b"];
                     CfgArr [JNum 2; JStr "a"; JStr "c"];
                     CfgArr [JNum 2; JStr "b"; JStr "c"]]
          /\ countsAt (heap r.2) <$> registry !! "r"
             = Some [Num 0; Num 1; Num 0; Num 1; Num 0]
          /\ specificitiesAt (heap r.2) <$> registry !! "r"
             = Some [1; 2; 2; 3; 3]
      end)
  /\ (configureRules demoVerify ["f.js"] (fun _ => Some tt) demoRules (Ok tt)
        emptyConfig emptyWorld).1
     = Throw (TypeError "registry.getRulesWithOneConfig is not a function")
  /\ ("getRulesWithOneConfig" ∉ Registry_prototype)
  /\ ("getRulesWithSpecificity" ∉ Registry_prototype).
Proof.
  split; [vm_compute; reflexivity|].
  split; [vm_compute; repeat split|].
  split; [vm_compute; reflexivity|].
  split; apply (bool_decide_unpack _); vm_compute; exact I.
Qed.

(** C7, as stated, fails.  For the registry with the rule "semi" and its
    one item, [createConfig] returns an object whose only property is
    [rules]: the rule is a property of that section, not of the object.  And
    a registry has no [getRulesWithOneConfig]: the call of it in
    [configureRules] raises a [TypeError]. *)
Lemma createConfig_not_plain_mapping :
  (let config := (createConfig semiRegistry semiWorld).1 in
   configKeys config = ["rules"]
   /\ ("semi" ∉ configKeys config)
   /\ rules config !! "semi" = Some (CfgNum 2))
  /\ ("getRulesWithOneConfig" ∉ Registry_prototype)
  /\ (configureRules demoVerify ["f.js"] (fun _ => Some tt) demoRules (Ok tt)
        emptyConfig emptyWorld).1
     = Throw (TypeError "registry.getRulesWithOneConfig is not a function").
Proof.
  split; [|split].
  - cbv zeta. split; [vm_compute; reflexivity|]. split.
    + apply (bool_decide_unpack _). vm_compute. exact I.
    + vm_compute. reflexivity.
  - apply (bool_decide_unpack _). vm_compute. exact I.
  - vm_compute. reflexivity.
Qed.

(** ** Structural equality *)

Section JsvalInduction.

Variable P : jsval -> Prop.
Hypothesis Hundefined : P JUndefined.
Hypothesis Hnull : P JNull.
Hypothesis Hbool : forall b, P (JBool b).
Hypothesis Hnum : forall n, P (JNum n).
Hypothesis Hstr : forall s, P (JStr s).
Hypothesis Harr : forall xs, Forall P xs -> P (JArr xs).
Hypothesis Hobj : forall ps, Forall (fun kv => P kv.2) ps -> P (JObj ps).

Fixpoint jsval_nested_ind (v : jsval) : P v :=
  match v with
  | JUndefined => Hundefined
  | JNull => Hnull
  | JBool b => Hbool b
  | JNum n => Hnum n
  | JStr s => Hstr s
  | JArr xs =>
      Harr xs ((fix go (xs : list jsval) : Forall P xs :=
                  match xs with
                  | [] => Forall_nil_2 P
                  | x :: xs' =>
                      Forall_cons_2 P x xs' (jsval_nested_ind x) (go xs')
                  end) xs)
  | JObj ps =>
      Hobj ps ((fix go (ps : list (string * jsval))
                  : Forall (fun kv => P kv.2) ps :=
                  match ps with
                  | [] => Forall_nil_2 _
                  | kv :: ps' =>
                      Forall_cons_2 (fun kv => P kv.2) kv ps'
                        (jsval_nested_ind kv.2) (go ps')
                  end) ps)
  end.

End JsvalInduction.

Lemma obj_get_NoDup {V : Type} (ps : list (string * V)) (k : string) (v : V) :
  NoDup ps.*1 -> (k, v) ∈ ps -> obj_get k ps = Some v.
Proof.
  induction ps as [|[k' v'] ps IH]; intros Hnd Hin; [inversion Hin|].
  simpl in *. apply NoDup_cons in Hnd as [Hk' Hnd].
  apply elem_of_cons in Hin as [[= -> ->]|Hin].
  - by rewrite String.eqb_refl.
  - destruct (String.eqb_spec k' k) as [->|Hne]; [|auto].
    exfalso. apply Hk'. apply list_elem_of_fmap. by exists (k, v).
Qed.

(** A value without repeated properties is equal to itself. *)
Lemma isEqual_refl (v : jsval) : distinctKeys v -> isEqual v v = true.
Proof.
  induction v as [| |b|n|s|xs IH|ps IH] using jsval_nested_ind; simpl;
    intros Hd.
  - reflexivity.
  - reflexivity.
  - by destruct b.
  - apply Z.eqb_refl.
  - apply String.eqb_refl.
  - inversion_clear Hd as [| | | | |? Hxs|].
    induction IH as [|x xs Hx _ IHxs]; [reflexivity|].
    apply Forall_cons in Hxs as [Hdx Hdxs].
    rewrite Hx by assumption. simpl. auto.
  - inversion_clear Hd as [| | | | | |? Hnd Hps].
    rewrite Nat.eqb_refl. simpl.
    match goal with
    | |- ?F ps = true =>
        cut (forall sub, (forall kv, kv ∈ sub -> kv ∈ ps) -> F sub = true);
          [intros Hcut; apply Hcut; auto|]
    end.
    intros sub. induction sub as [|[k v] sub IHsub]; intros Hsub;
      [reflexivity|].
    assert (Hin : (k, v) ∈ ps) by (apply Hsub; left).
    rewrite (obj_get_NoDup ps k v Hnd Hin).
    pose proof (proj1 (Forall_forall _ _) IH (k, v) Hin
                  (proj1 (Forall_forall _ _) Hps (k, v) Hin)) as Hv.
    simpl in Hv. rewrite Hv. simpl. apply IHsub.
    intros kv Hkv. apply Hsub. by right.
Qed.

(** [isEqual] tells a bare severity from an array, and severities apart. *)
Example isEqual_distinguishes :
  isEqual (JNum 2) (JArr [JNum 2]) = false
  /\ isEqual (JNum 2) (JNum 1) = false
  /\ isEqual (JArr [JNum 2; JStr "always"]) (JArr [JNum 2; JStr "never"]) = false
  /\ isEqual (JObj [("a", JBool true); ("b", JNum 1)])
             (JObj [("b", JNum 1); ("a", JBool true)]) = true.
Proof. repeat split. Qed.

(** ** Extending the recommended configuration *)

Section BaselineFacts.
Context (recConfig : RuleSet).

Lemma sameAsRecommended_ext (m1 m2 : RuleSet) (k : string) :
  m1 !! k = m2 !! k ->
  sameAsRecommended recConfig m1 k = sameAsRecommended recConfig m2 k.
Proof. unfold sameAsRecommended. by intros ->. Qed.

Lemma extend_loop_lookup (ks : list string) :
  forall (acc : RuleSet) (k : string),
    foldl (fun newRules ruleId =>
             if sameAsRecommended recConfig newRules ruleId
             then delete ruleId newRules else newRules) acc ks !! k
    = if bool_decide (k ∈ ks) && sameAsRecommended recConfig acc k
      then None else acc !! k.
Proof.
  induction ks as [|x ks IH]; intros acc k; cbn [foldl].
  - rewrite bool_decide_eq_false_2 by apply not_elem_of_nil. reflexivity.
  - rewrite IH. destruct (decide (k = x)) as [->|Hne].
    + rewrite (bool_decide_eq_true_2 (x ∈ x :: ks)) by left. simpl.
      destruct (sameAsRecommended recConfig acc x) eqn:E.
      * rewrite lookup_delete_eq.
        replace (sameAsRecommended recConfig (delete x acc) x) with false.
        -- by rewrite andb_false_r.
        -- unfold sameAsRecommended. rewrite lookup_delete_eq.
           by destruct (recConfig !! x).
      * rewrite E, andb_false_r. reflexivity.
    + assert (Hl : (if sameAsRecommended recConfig acc x
                    then delete x acc else acc) !! k = acc !! k).
      { destruct (sameAsRecommended recConfig acc x); [|reflexivity].
        by apply lookup_delete_ne. }
      rewrite (sameAsRecommended_ext _ acc k Hl), Hl.
      replace (bool_decide (k ∈ x :: ks)) with (bool_decide (k ∈ ks));
        [reflexivity|].
      apply bool_decide_ext. rewrite elem_of_cons.
      split; [auto | intros [?|?]; [congruence|assumption]].
Qed.

Lemma extendFromRecommended_lookup (config : eslintConfig) (ruleId : string) :
  rules (extendFromRecommended recConfig config) !! ruleId
  = if recommendedError recConfig ruleId
       && sameAsRecommended recConfig (rules config) ruleId
    then None
    else rules config !! ruleId.
Proof.
  unfold extendFromRecommended. simpl. rewrite extend_loop_lookup.
  replace (bool_decide (ruleId ∈ filter
             (fun ruleId0 =>
                from_option severityIsError false (recConfig !! ruleId0) = true)
             (keys recConfig)))
    with (recommendedError recConfig ruleId); [reflexivity|].
  unfold recommendedError. symmetry.
  destruct (from_option severityIsError false (recConfig !! ruleId)) eqn:E.
  - apply bool_decide_eq_true_2. apply list_elem_of_filter.
    split; [assumption|].
    apply elem_of_keys. destruct (recConfig !! ruleId); [eauto|discriminate].
  - apply bool_decide_eq_false_2. rewrite list_elem_of_filter.
    intros [H _]. congruence.
Qed.

(** C9. The configuration that [extendFromRecommended] returns extends
    "eslint:recommended".  A rule is left out of its rules when the
    recommended configuration has it at severity 2 and [isEqual] finds the
    configuration of the rule equal to the recommended one, as it does when
    the two are the same value; every other rule, in particular one whose
    configuration differs from the recommended one, is kept as it is. *)
Theorem extendFromRecommended_rules (config : eslintConfig) (ruleId : string) :
  extends (extendFromRecommended recConfig config) = Some "eslint:recommended"
  /\ rules (extendFromRecommended recConfig config) !! ruleId
     = (if recommendedError recConfig ruleId
           && sameAsRecommended recConfig (rules config) ruleId
        then None
        else rules config !! ruleId)
  /\ (forall c : ruleConfig,
        recConfig !! ruleId = Some c -> rules config !! ruleId = Some c ->
        severityIsError c = true -> distinctKeys (config_value c) ->
        rules (extendFromRecommended recConfig config) !! ruleId = None)
  /\ (sameAsRecommended recConfig (rules config) ruleId = false ->
      rules (extendFromRecommended recConfig config) !! ruleId
      = rules config !! ruleId).
Proof.
  split; [reflexivity|]. split; [apply extendFromRecommended_lookup|]. split.
  - intros c Hrec Hsel Hon Hd. rewrite extendFromRecommended_lookup.
    unfold recommendedError, sameAsRecommended. rewrite Hrec, Hsel. simpl.
    by rewrite Hon, isEqual_refl.
  - intros Hdiff. rewrite extendFromRecommended_lookup, Hdiff.
    by rewrite andb_false_r.
Qed.

End BaselineFacts.

(** C9, at an input (scenario D): "no-console" is selected at severity 2 as
    recommended, and is left out. *)
Lemma extendFromRecommended_rules_witness :
  extends (extendFromRecommended consoleRecommended consoleSelected)
  = Some "eslint:recommended"
  /\ rules (extendFromRecommended consoleRecommended consoleSelected)
       !! "no-console" = None.
Proof.
  destruct (extendFromRecommended_rules consoleRecommended consoleSelected
              "no-console") as (Hext & _ & Hsame & _).
  split; [exact Hext|].
  apply (Hsame (CfgNum 2)); [reflexivity|reflexivity|reflexivity|constructor].
Defined.

(** A rule selected with an option the recommended configuration does not
    have stays in the rules. *)
Example extendFromRecommended_keeps_different :
  rules (extendFromRecommended consoleRecommended
           (EslintConfig {[ "no-console" := CfgArr [JNum 2; JStr "x"];
                            "semi" := CfgNum 2 ]} None []))
  = {[ "no-console" := CfgArr [JNum 2; JStr "x"]; "semi" := CfgNum 2 ]}.
Proof. vm_compute. reflexivity. Qed.

(** ** Enumerations *)

Lemma combineArrays_length (arr1 : ruleConfigs) (arr2 : list jsval) :
  length (combineArrays arr1 arr2)
  = if Nat.eqb (length arr1) 0 then length arr2
    else if Nat.eqb (length arr2) 0 then length arr1
    else length arr1 * length arr2.
Proof.
  unfold combineArrays.
  destruct (Nat.eqb (length arr1) 0).
  - unfold explodeArray. apply length_map.
  - destruct (Nat.eqb (length arr2) 0).
    + unfold explodeConfigs. by rewrite length_map, length_seq.
    + induction arr1 as [|x1 arr1 IH]; [reflexivity|].
      simpl. rewrite length_app, length_map, IH. reflexivity.
Qed.

Lemma addOptions_enumItems (opts : list optSchema) :
  Forall enumItem opts ->
  forall configs,
    addOptions configs opts = Ok (foldl addEnums configs (enumsOf opts)).
Proof.
  induction 1 as [|opt opts [Ht He] _ IH]; intros configs; [reflexivity|].
  simpl. unfold addOption. rewrite Ht. unfold enumsOf. simpl.
  destruct (opt_enum opt) as [enums|]; simpl; apply IH.
Qed.

Lemma enumsOf_nonempty (opts : list optSchema) :
  Forall enumItem opts -> Forall (fun enums => enums <> []) (enumsOf opts).
Proof.
  induction 1 as [|opt opts [Ht He] _ IH]; [constructor|].
  unfold enumsOf. simpl. destruct (opt_enum opt) as [enums|]; simpl; [|exact IH].
  constructor; [congruence|exact IH].
Qed.

Lemma addEnums_length (configs : ruleConfigs) (enums : list jsval) :
  enums <> [] ->
  length (addEnums configs enums)
  = if Nat.eqb (length configs) 0 then length enums
    else length configs * (1 + length enums).
Proof.
  intros Hne. unfold addEnums. rewrite length_app, combineArrays_length.
  destruct configs as [|c configs]; [reflexivity|].
  destruct enums as [|e enums]; [done|]. simpl. lia.
Qed.

Lemma foldl_addEnums_length (enums : list (list jsval)) :
  Forall (fun enums => enums <> []) enums ->
  forall configs, configs <> [] ->
    length (foldl addEnums configs enums)
    = foldl (fun n size => n * (1 + size)) (length configs) (length <$> enums).
Proof.
  induction 1 as [|e enums He _ IH]; intros configs Hc; [reflexivity|].
  simpl. rewrite IH.
  - rewrite addEnums_length by assumption.
    destruct configs; [done|reflexivity].
  - unfold addEnums. destruct configs; [done|discriminate].
Qed.

(** X1. A schema whose items are enumerations gives as many
    configurations as there are ways to take a value of the first
    enumeration and then a value of each of any of the others, and the bare
    severity besides. *)
Theorem generateConfigsFromSchema_count (opts : list optSchema) :
  Forall enumItem opts ->
  exists configs,
    generateConfigsFromSchema (SchemaArray opts) = Ok configs
    /\ length configs = 1 + combinations (length <$> enumsOf opts).
Proof.
  intros Hopts. simpl. rewrite addOptions_enumItems by assumption.
  eexists. split; [reflexivity|].
  unfold addErrorSeverity. simpl. rewrite length_map, resolve_length. simpl.
  f_equal.
  pose proof (enumsOf_nonempty opts Hopts) as Hne.
  destruct Hne as [|e enums He Hne]; [reflexivity|].
  simpl. rewrite foldl_addEnums_length.
  - rewrite addEnums_length by assumption. reflexivity.
  - assumption.
  - unfold addEnums. simpl. unfold explodeArray.
    destruct e; [done|discriminate].
Qed.

Lemma generateConfigsFromSchema_count_witness :
  exists configs,
    generateConfigsFromSchema
      (SchemaArray [OptSchema (Some [JStr "a"; JStr "b"]) None None;
                    OptSchema None (Some "string") None;
                    OptSchema (Some [JStr "c"]) None None]) = Ok configs
    /\ length configs = 5.
Proof.
  apply (generateConfigsFromSchema_count
           [OptSchema (Some [JStr "a"; JStr "b"]) None None;
            OptSchema None (Some "string") None;
            OptSchema (Some [JStr "c"]) None None]).
  repeat constructor; discriminate.
Defined.

Lemma concat_arg_value (v : jsval) : isArray v = false -> concat_arg v = [CVal v].
Proof. by destruct v. Qed.

Lemma addEnums_values (configs : list (list jsval)) (enums : list jsval) :
  enums <> [] -> Forall (fun v => isArray v = false) enums ->
  addEnums (map (map CVal) configs) enums
  = map (map CVal) (addEnumValues configs enums).
Proof.
  intros Hne Hval. unfold addEnums, combineArrays, addEnumValues.
  destruct configs as [|c configs].
  - simpl. unfold explodeArray. by rewrite map_map.
  - destruct enums as [|e enums]; [done|].
    change (Nat.eqb (length (map (map CVal) (c :: configs))) 0) with false.
    change (Nat.eqb (length (e :: enums)) 0) with false. cbv iota.
    rewrite map_app. f_equal.
    generalize (c :: configs). intros l.
    remember (e :: enums) as es eqn:Hes. clear Hes Hne.
    induction l as [|x1 l IH]; [reflexivity|].
    cbn [flat_map map]. rewrite map_app, <- IH. f_equal.
    rewrite !map_map. apply map_ext_in. intros x2 Hx2.
    rewrite map_app. f_equal. apply concat_arg_value.
    eapply (proj1 (Forall_forall _ _) Hval). by apply list_elem_of_In.
Qed.

Lemma foldl_addEnums_values (enums : list (list jsval)) :
  Forall (fun e => e <> [] /\ Forall (fun v => isArray v = false) e) enums ->
  forall configs : list (list jsval),
    foldl addEnums (map (map CVal) configs) enums
    = map (map CVal) (foldl addEnumValues configs enums).
Proof.
  induction 1 as [|e enums [He Hv] _ IH]; intros configs; [reflexivity|].
  simpl. rewrite addEnums_values by assumption. apply IH.
Qed.

Lemma resolve_values (severity : Z) (configs : list (list jsval)) :
  forall done,
    resolve severity done (map (map CVal) configs)
    = done ++ map (fun options => JArr (JNum severity :: options)) configs.
Proof.
  induction configs as [|c configs IH]; intros done; simpl.
  - by rewrite app_nil_r.
  - rewrite IH, <- app_assoc. simpl. do 4 f_equal.
    rewrite map_map. simpl. apply map_id.
Qed.

Lemma addEnumValues_nonempty (configs : list (list jsval)) (enums : list jsval) :
  enums <> [] -> addEnumValues configs enums <> [].
Proof.
  intros He. unfold addEnumValues. destruct configs; [|discriminate].
  destruct enums; [done|discriminate].
Qed.

Lemma foldl_addEnumValues_nonempty (enums : list (list jsval)) :
  Forall (fun e => e <> []) enums ->
  forall configs, configs <> [] -> foldl addEnumValues configs enums <> [].
Proof.
  induction 1 as [|e enums He _ IH]; intros configs Hc; [assumption|].
  simpl. apply IH. by apply addEnumValues_nonempty.
Qed.

Lemma elem_of_addEnumValues (configs : list (list jsval)) (enums : list jsval)
    (options : list jsval) :
  configs <> [] ->
  options ∈ addEnumValues configs enums
  <-> options ∈ configs
      \/ exists options' o, options = options' ++ [o]
                            /\ options' ∈ configs /\ o ∈ enums.
Proof.
  intros Hc. unfold addEnumValues. destruct configs as [|c configs]; [done|].
  rewrite elem_of_app. apply or_iff_compat_l.
  rewrite list_elem_of_In, in_flat_map. split.
  - intros (x1 & Hx1 & Hin). apply in_map_iff in Hin as (x2 & <- & Hx2).
    exists x1, x2. by rewrite !list_elem_of_In.
  - intros (x1 & x2 & -> & Hx1 & Hx2). exists x1.
    rewrite <- list_elem_of_In. split; [assumption|].
    apply in_map_iff. exists x2. by rewrite <- list_elem_of_In.
Qed.

Lemma chosenFrom_snoc (first : list jsval) (others : list (list jsval))
    (e : list jsval) (options : list jsval) :
  chosenFrom (first :: others ++ [e]) options
  <-> chosenFrom (first :: others) options
      \/ exists options' o, options = options' ++ [o]
                            /\ chosenFrom (first :: others) options' /\ o ∈ e.
Proof.
  simpl. split.
  - intros (sub & Hsub & Hall).
    apply sublist_app_r in Hsub as (k1 & k2 & -> & Hk1 & Hk2).
    destruct k2 as [|e' k2].
    + left. exists k1. by rewrite app_nil_r in Hall.
    + apply sublist_cons_l in Hk2 as (l1 & l2 & Heq & Hk2).
      destruct l1 as [|? [|? ?]]; simplify_eq/=.
      apply sublist_nil_r in Hk2 as ->. right.
      change (first :: k1 ++ [e']) with ((first :: k1) ++ [e']) in Hall.
      apply Forall2_app_inv_r in Hall as (o1 & o2 & Ho1 & Ho2 & ->).
      apply Forall2_cons_inv_r in Ho2 as (o & rest & Ho & Hrest & ->).
      apply Forall2_nil_inv_r in Hrest as ->.
      exists o1, o. split; [reflexivity|]. split; [|assumption]. by exists k1.
  - intros [(sub & Hsub & Hall)|(options' & o & -> & (sub & Hsub & Hall) & Ho)].
    + exists sub. split; [|assumption]. by apply sublist_inserts_r.
    + exists (sub ++ [e]). split; [by apply sublist_app|].
      change (first :: sub ++ [e]) with ((first :: sub) ++ [e]).
      apply Forall2_app; [assumption|]. by repeat constructor.
Qed.

Lemma elem_of_foldl_addEnumValues (enums : list (list jsval)) :
  Forall (fun e => e <> []) enums ->
  forall options : list jsval,
    options ∈ foldl addEnumValues [] enums <-> chosenFrom enums options.
Proof.
  induction enums as [|e enums IH] using rev_ind; intros Hne options.
  - simpl. apply elem_of_nil.
  - apply Forall_app in Hne as [Hne He]. apply Forall_cons in He as [He _].
    specialize (IH Hne). rewrite foldl_app. cbn [foldl].
    destruct enums as [|first others].
    + simpl. rewrite list_elem_of_fmap. split.
      * intros (o & -> & Ho). exists []. split; [constructor|].
        by repeat constructor.
      * intros (sub & Hsub & Hall). apply sublist_nil_r in Hsub as ->.
        apply Forall2_cons_inv_r in Hall as (o & rest & Ho & Hrest & ->).
        apply Forall2_nil_inv_r in Hrest as ->. by exists o.
    + change ((first :: others) ++ [e]) with (first :: others ++ [e]).
      rewrite elem_of_addEnumValues, chosenFrom_snoc.
      * split.
        -- intros [Hin|(options' & o & -> & Hin & Ho)].
           ++ left. by apply IH.
           ++ right. exists options', o. split; [reflexivity|].
              split; [by apply IH|assumption].
        -- intros [Hin|(options' & o & -> & Hin & Ho)].
           ++ left. by apply IH.
           ++ right. exists options', o. split; [reflexivity|].
              split; [by apply IH|assumption].
      * cbn [foldl]. apply Forall_cons in Hne as [Hf Hne].
        apply foldl_addEnumValues_nonempty; [assumption|].
        by apply addEnumValues_nonempty.
Qed.

(** X2. For a schema whose items are enumerations, of values that are not
    arrays, the configurations with options are exactly these: a value of
    the first enumeration, followed by a value of each of some of the other
    enumerations, in the order of the schema.  In particular a value of a
    later enumeration may stand at the place of an earlier one that was
    skipped. *)
Theorem generateConfigsFromSchema_chosen (opts : list optSchema)
    (options : list jsval) :
  Forall enumItem opts ->
  Forall (Forall (fun v => isArray v = false)) (enumsOf opts) ->
  exists configs,
    generateConfigsFromSchema (SchemaArray opts) = Ok configs
    /\ (CfgArr (JNum 2 :: options) ∈ configs
        <-> chosenFrom (enumsOf opts) options).
Proof.
  intros Hopts Hvals. simpl. rewrite addOptions_enumItems by assumption.
  eexists. split; [reflexivity|].
  pose proof (enumsOf_nonempty opts Hopts) as Hne.
  change (foldl addEnums [] (enumsOf opts))
    with (foldl addEnums (map (map CVal) []) (enumsOf opts)).
  rewrite foldl_addEnums_values.
  - unfold addErrorSeverity. rewrite resolve_values. simpl.
    rewrite map_map. simpl.
    rewrite <- elem_of_foldl_addEnumValues by assumption.
    rewrite elem_of_cons, list_elem_of_fmap. split.
    + intros [?|(options' & [= ->] & Hin)]; [discriminate|assumption].
    + intros Hin. right. by exists options.
  - apply Forall_forall. intros e He. split.
    + by apply (proj1 (Forall_forall _ _) Hne).
    + by apply (proj1 (Forall_forall _ _) Hvals).
Qed.

(** X2, at an input: with three enumerations, a value of the third follows
    a value of the first. *)
Lemma generateConfigsFromSchema_chosen_witness :
  exists configs,
    generateConfigsFromSchema (SchemaArray threeEnums) = Ok configs
    /\ CfgArr [JNum 2; JStr "a"; JStr "c"] ∈ configs.
Proof.
  destruct (generateConfigsFromSchema_chosen threeEnums [JStr "a"; JStr "c"])
    as (configs & Hgen & Hin).
  - repeat constructor; discriminate.
  - repeat constructor.
  - exists configs. split; [exact Hgen|]. apply Hin.
    exists [[JStr "c"]]. split.
    + apply sublist_cons, sublist_skip, sublist_nil.
    + repeat constructor.
Defined.

Lemma not_inherited_proto (name : string) :
  name ∉ objectPrototypeNames -> name <> "__proto__".
Proof.
  intros Hname ->. apply Hname.
  apply (bool_decide_unpack _). vm_compute. exact I.
Qed.

Lemma obj_assign_set {V : Type} (k : string) (v : V) (o : list (string * V)) :
  k <> "__proto__" -> obj_assign k v o = obj_set k v o.
Proof.
  intros Hk. unfold obj_assign. by destruct (String.eqb_spec k "__proto__").
Qed.

Lemma added_singletons (k : string) (vs : list jsval) :
  k <> "__proto__" -> added k vs = singletons k vs.
Proof.
  intros Hk. unfold added, singletons. apply map_ext. intros v.
  by rewrite obj_assign_set.
Qed.

Lemma objectConfigs_of_properties_flat (properties : list (string * propSchema)) :
  Forall (fun name => name ∉ objectPrototypeNames) properties.*1 ->
  objectConfigs_of_properties properties
  = flat_map (fun p => singletons p.1 (propertyValues p.2)) properties.
Proof.
  intros Hnames. rewrite objectConfigs_of_properties_added.
  induction properties as [|[k s] properties IH]; [reflexivity|].
  apply Forall_cons in Hnames as [Hk Hnames]. simpl.
  rewrite added_singletons by apply not_inherited_proto, Hk.
  f_equal. by apply IH.
Qed.

Lemma groupOrThrow_groupStep (objects : list optionObj) :
  forall accumulator,
    Forall (fun obj => first_key obj ∉ objectPrototypeNames) objects ->
    foldl groupOrThrow (Ok accumulator) objects
    = Ok (foldl groupStep accumulator objects).
Proof.
  induction objects as [|obj objects IH]; intros accumulator Hkeys;
    [reflexivity|].
  apply Forall_cons in Hkeys as [Hkey Hkeys]. cbn [foldl].
  replace (groupOrThrow (Ok accumulator) obj)
    with (Ok (A:=list (string * list optionObj)) (groupStep accumulator obj)).
  - by apply IH.
  - unfold groupOrThrow, groupStep.
    destruct (obj_get (first_key obj) accumulator); [reflexivity|].
    by rewrite bool_decide_eq_false_2.
Qed.

Lemma obj_get_app {V : Type} (k : string) (l1 l2 : list (string * V)) :
  obj_get k (l1 ++ l2)
  = match obj_get k l1 with Some v => Some v | None => obj_get k l2 end.
Proof.
  induction l1 as [|[k' v'] l1 IH]; simpl; [reflexivity|].
  destruct (String.eqb k' k); [reflexivity|exact IH].
Qed.

Lemma obj_get_None {V : Type} (k : string) (l : list (string * V)) :
  obj_get k l = None <-> k ∉ l.*1.
Proof.
  induction l as [|[k' v'] l IH]; simpl.
  - split; [intros _; apply not_elem_of_nil|reflexivity].
  - rewrite not_elem_of_cons. destruct (String.eqb_spec k' k) as [->|Hne].
    + split; [discriminate|intros [? _]; done].
    + rewrite IH. split; [intros ?; split; [congruence|assumption]|tauto].
Qed.

Lemma obj_set_app {V : Type} (k : string) (v : V) (l1 l2 : list (string * V)) :
  obj_get k l1 = None -> obj_set k v (l1 ++ l2) = l1 ++ obj_set k v l2.
Proof.
  induction l1 as [|[k' v'] l1 IH]; simpl; [reflexivity|].
  destruct (String.eqb k' k); [discriminate|]. intros H. by rewrite IH.
Qed.

Lemma obj_set_new {V : Type} (k : string) (v : V) (l : list (string * V)) :
  obj_get k l = None -> obj_set k v l = l ++ [(k, v)].
Proof.
  intros H. rewrite <- (app_nil_r l) at 1. by rewrite obj_set_app.
Qed.

Lemma group_more (k : string) (vs : list jsval) :
  forall acc group,
    obj_get k acc = None ->
    foldl groupStep (acc ++ [(k, group)]) (singletons k vs)
    = acc ++ [(k, group ++ singletons k vs)].
Proof.
  induction vs as [|v vs IH]; intros acc group Hk; simpl.
  - by rewrite app_nil_r.
  - unfold singletons. simpl. unfold groupStep at 2. simpl.
    rewrite obj_get_app, Hk. simpl. rewrite String.eqb_refl.
    rewrite obj_set_app by assumption. simpl. rewrite String.eqb_refl.
    rewrite IH by assumption. by rewrite <- app_assoc.
Qed.

Lemma group_property (k : string) (vs : list jsval)
    (acc : list (string * list optionObj)) :
  obj_get k acc = None ->
  foldl groupStep acc (singletons k vs)
  = match vs with [] => acc | _ => acc ++ [(k, singletons k vs)] end.
Proof.
  intros Hk. destruct vs as [|v vs]; [reflexivity|].
  simpl. unfold groupStep at 2. simpl. rewrite Hk.
  rewrite obj_set_new by assumption. by rewrite group_more.
Qed.

Lemma group_properties (properties : list (string * propSchema)) :
  forall acc,
    NoDup (acc.*1 ++ properties.*1) ->
    foldl groupStep acc
          (flat_map (fun p => singletons p.1 (propertyValues p.2)) properties)
    = acc ++ map (fun p => (p.1, singletons p.1 (propertyValues p.2)))
                 (enumerable properties).
Proof.
  induction properties as [|[k s] properties IH]; intros acc Hnd; simpl.
  - by rewrite app_nil_r.
  - rewrite foldl_app.
    assert (Hk : obj_get k acc = None).
    { apply obj_get_None. apply NoDup_app in Hnd as (_ & Hd & _).
      intros Hin. apply (Hd k Hin). left. }
    rewrite group_property by assumption.
    unfold enumerable. rewrite filter_cons. simpl.
    destruct (propertyValues s) as [|v vs] eqn:Hv.
    + rewrite decide_False by auto. apply IH.
      simpl in Hnd. rewrite <- Permutation_middle in Hnd.
      by apply NoDup_cons in Hnd as [_ ?].
    + rewrite decide_True by done. rewrite IH.
      * rewrite <- app_assoc. simpl. rewrite Hv. reflexivity.
      * rewrite fmap_app. simpl. rewrite <- app_assoc. exact Hnd.
Qed.

Lemma groupByProperty_properties (properties : list (string * propSchema)) :
  NoDup properties.*1 ->
  Forall (fun name => name ∉ objectPrototypeNames) properties.*1 ->
  groupByProperty (objectConfigs_of_properties properties)
  = Ok (map (fun p => singletons p.1 (propertyValues p.2))
            (enumerable properties)).
Proof.
  intros Hnd Hnames. rewrite groupByProperty_fold.
  rewrite objectConfigs_of_properties_flat by exact Hnames.
  rewrite groupOrThrow_groupStep.
  - rewrite group_properties by exact Hnd. simpl. by rewrite map_map.
  - apply Forall_forall. intros obj Hobj.
    apply list_elem_of_In, in_flat_map in Hobj as (p & Hp & Hobj).
    apply in_map_iff in Hobj as (v & <- & _). simpl.
    rewrite Forall_forall in Hnames. apply Hnames.
    apply list_elem_of_fmap. exists p. split; [reflexivity|].
    by apply list_elem_of_In.
Qed.

Lemma copy_properties (obj : optionObj) :
  forall acc : optionObj,
    NoDup (acc.*1 ++ obj.*1) ->
    Forall (fun name => name <> "__proto__") obj.*1 ->
    foldl (fun o kv => obj_assign kv.1 kv.2 o) acc obj = acc ++ obj.
Proof.
  induction obj as [|[k v] obj IH]; intros acc Hnd Hnames; simpl.
  - by rewrite app_nil_r.
  - apply Forall_cons in Hnames as [Hk Hnames]. simpl in Hk.
    rewrite obj_assign_set by exact Hk. rewrite obj_set_new.
    + rewrite IH; [by rewrite <- app_assoc| |exact Hnames].
      rewrite fmap_app. simpl. by rewrite <- app_assoc.
    + apply obj_get_None. apply NoDup_app in Hnd as (_ & Hd & _).
      intros Hin. apply (Hd k Hin). left.
Qed.

Lemma combinedObj_new (obj : optionObj) (k : string) (v : jsval) :
  NoDup (obj.*1 ++ [k]) ->
  Forall (fun name => name <> "__proto__") (obj.*1 ++ [k]) ->
  combinedObj obj [(k, v)] = obj ++ [(k, v)].
Proof.
  intros Hnd [Hobj [Hk _]%Forall_cons]%Forall_app. unfold combinedObj.
  rewrite (copy_properties obj []).
  - simpl. rewrite obj_assign_set by exact Hk.
    apply obj_set_new. apply obj_get_None.
    apply NoDup_app in Hnd as (_ & Hd & _). intros Hin. apply (Hd k Hin). left.
  - simpl. by apply NoDup_app in Hnd as (? & _ & _).
  - exact Hobj.
Qed.

Lemma assigns_keys (ps : list (string * propSchema)) (obj : optionObj) :
  assigns ps obj -> obj.*1 = ps.*1.
Proof.
  induction 1 as [|x y l l' HR _ IH]; [reflexivity|].
  destruct x, y, HR as [Hk _]. simpl in *. f_equal; [exact Hk|exact IH].
Qed.

Lemma assigns_one (p : string * propSchema) (obj : optionObj) :
  assigns [p] obj <-> obj ∈ singletons p.1 (propertyValues p.2).
Proof.
  unfold singletons. rewrite list_elem_of_fmap. split.
  - intros H. apply Forall2_cons_inv_r in H as ([k v] & rest & [Hk Hv] & Hr & ->).
    apply Forall2_nil_inv_r in Hr as ->. simpl in *. subst k. by exists v.
  - intros (v & -> & Hv). by repeat constructor.
Qed.

Lemma assigns_snoc (ps : list (string * propSchema)) (p : string * propSchema)
    (obj : optionObj) :
  assigns (ps ++ [p]) obj
  <-> exists obj1 v, obj = obj1 ++ [(p.1, v)] /\ assigns ps obj1
                     /\ v ∈ propertyValues p.2.
Proof.
  split.
  - intros H. apply Forall2_app_inv_r in H as (obj1 & obj2 & H1 & H2 & ->).
    apply Forall2_cons_inv_r in H2 as ([k v] & rest & [Hk Hv] & Hr & ->).
    apply Forall2_nil_inv_r in Hr as ->. simpl in *. subst k. by exists obj1, v.
  - intros (obj1 & v & -> & H1 & Hv). apply Forall2_app; [assumption|].
    by repeat constructor.
Qed.

Lemma combined_spec (ps : list (string * propSchema)) :
  NoDup ps.*1 -> Forall (fun name => name <> "__proto__") ps.*1 ->
  Forall (fun p => propertyValues p.2 <> []) ps ->
  length (combined ps)
  = match ps with
    | [] => 0
    | _ => foldl (fun n p => n * length (propertyValues p.2)) 1 ps
    end
  /\ forall obj, obj ∈ combined ps <-> ps <> [] /\ assigns ps obj.
Proof.
  induction ps as [|p ps IH] using rev_ind; intros Hnd Hnames Hne.
  - split; [reflexivity|]. intros obj. split; [by intros ?%elem_of_nil|].
    by intros [? _].
  - apply Forall_app in Hne as [Hne Hp]. apply Forall_cons in Hp as [Hp _].
    rewrite fmap_app in Hnd, Hnames. pose proof Hnd as Hnd'.
    apply NoDup_app in Hnd' as (Hnd1 & _ & _).
    pose proof Hnames as [Hnames1 _]%Forall_app.
    destruct (IH Hnd1 Hnames1 Hne) as [IHlen IHin]. clear IH.
    unfold combined in *. rewrite map_app, foldl_app. cbn [map foldl].
    set (acc := foldl combinePropertyObjects [] _) in *.
    assert (Hvs : length (singletons p.1 (propertyValues p.2))
                  = length (propertyValues p.2)) by apply length_map.
    destruct ps as [|p0 ps0].
    + subst acc. simpl.
      change (combinePropertyObjects [] ?g) with g.
      split; [rewrite Hvs; lia|].
      intros obj. rewrite <- (assigns_one p obj). split; [by split|by intros []].
    + unfold combinePropertyObjects.
      assert (Hacc : length acc <> 0).
      { rewrite IHlen. clear -Hne. revert Hne. generalize (p0 :: ps0). intros l.
        assert (Hgen : forall n, n <> 0 ->
                  Forall (fun p => propertyValues p.2 <> []) l ->
                  foldl (fun n p => n * length (propertyValues p.2)) n l <> 0).
        { induction l as [|q l IHl]; intros n Hn Hl; [assumption|].
          apply Forall_cons in Hl as [Hq Hl]. simpl. apply IHl; [|assumption].
          destruct (propertyValues q.2); [done|]. simpl. lia. }
        apply Hgen. lia. }
      destruct (Nat.eqb_spec (length acc) 0) as [?|_]; [done|].
      destruct (Nat.eqb_spec (length (singletons p.1 (propertyValues p.2))) 0)
        as [Hz|_].
      { rewrite Hvs in Hz. destruct (propertyValues p.2); [done|discriminate]. }
      split.
      * match goal with
        | |- ?L = _ =>
            change (L = foldl (fun n p => n * length (propertyValues p.2)) 1
                              ((p0 :: ps0) ++ [p]))
        end.
        change (length acc
                = foldl (fun n p => n * length (propertyValues p.2)) 1
                        (p0 :: ps0)) in IHlen.
        rewrite foldl_app, <- IHlen.
        change (foldl ?f ?a [p]) with (f a p). cbv beta.
        rewrite <- Hvs. apply flat_map_constant_length.
        intros obj1 _. apply length_map.
      * intros obj. rewrite assigns_snoc.
        change (flat_map _ acc)
          with (flat_map (fun obj1 => map (combinedObj obj1)
                            (singletons p.1 (propertyValues p.2))) acc).
        rewrite list_elem_of_In, in_flat_map. split.
        -- intros (obj1 & H1 & Hin). apply list_elem_of_In in H1.
           apply IHin in H1 as [_ H1].
           apply in_map_iff in Hin as (obj2 & <- & H2).
           apply in_map_iff in H2 as (v & <- & Hv).
           split; [by destruct ps0|]. exists obj1, v.
           rewrite combinedObj_new.
           ++ split; [reflexivity|]. by rewrite list_elem_of_In.
           ++ rewrite (assigns_keys _ _ H1). exact Hnd.
           ++ rewrite (assigns_keys _ _ H1). exact Hnames.
        -- intros (_ & obj1 & v & -> & H1 & Hv). exists obj1. split.
           ++ apply list_elem_of_In, IHin. by split.
           ++ apply in_map_iff. exists [(p.1, v)]. split.
              ** apply combinedObj_new; rewrite (assigns_keys _ _ H1);
                   [exact Hnd|exact Hnames].
              ** apply in_map_iff. exists v. by rewrite <- list_elem_of_In.
Qed.

Lemma enumerable_NoDup (properties : list (string * propSchema)) :
  NoDup properties.*1 -> NoDup (enumerable properties).*1.
Proof.
  intros H. unfold enumerable.
  eapply sublist_NoDup; [exact H|]. apply fmap_sublist, sublist_filter.
Qed.

Lemma generateConfigsFromSchema_object_run
    (properties : list (string * propSchema)) (objectConfigs : list optionObj) :
  objectConfigs_combine (objectConfigs_of_properties properties)
  = Ok objectConfigs ->
  generateConfigsFromSchema
    (SchemaArray [OptSchema None (Some "object") (Some properties)])
  = Ok (CfgNum 2 :: map (fun obj => CfgArr [JNum 2; JObj obj]) objectConfigs).
Proof.
  intros Hcombine.
  unfold generateConfigsFromSchema, addOptions, addOption, addObject.
  cbn [opt_enum opt_type opt_properties type_is].
  change (String.eqb "object" "object") with true. cbv iota.
  rewrite Hcombine.
  change ([] ++ combineArrays [] (map JObj objectConfigs))
    with (explodeArray (map JObj objectConfigs)).
  unfold explodeArray. rewrite map_map.
  change (map (fun x => [CVal (JObj x)]) objectConfigs)
    with (map (fun x => map CVal [JObj x]) objectConfigs).
  rewrite <- (map_map (fun x => [JObj x]) (map CVal)).
  unfold addErrorSeverity. rewrite resolve_values. simpl.
  by rewrite !map_map.
Qed.

(** X3. An object item of a schema gives one configuration for every way
    to give each of its properties that has values to try (those of an
    enumeration, [true] and [false] for a boolean) one of them: the object of
    a configuration has all these properties, in the order of the schema,
    and no configuration sets only some of them. *)
Theorem generateConfigsFromSchema_object
    (properties : list (string * propSchema)) (obj : optionObj) :
  NoDup properties.*1 ->
  Forall (fun name => name ∉ objectPrototypeNames) properties.*1 ->
  exists configs,
    generateConfigsFromSchema
      (SchemaArray [OptSchema None (Some "object") (Some properties)])
    = Ok configs
    /\ length configs
       = 1 + match enumerable properties with
             | [] => 0
             | ps => foldl (fun n p => n * length (propertyValues p.2)) 1 ps
             end
    /\ (CfgArr [JNum 2; JObj obj] ∈ configs
        <-> enumerable properties <> [] /\ assigns (enumerable properties) obj).
Proof.
  intros Hnd Hnames.
  rewrite (generateConfigsFromSchema_object_run properties
             (combined (enumerable properties))).
  2: { unfold objectConfigs_combine.
       by rewrite groupByProperty_properties by assumption. }
  eexists. split; [reflexivity|].
  destruct (combined_spec (enumerable properties)) as [Hlen Hin].
  { by apply enumerable_NoDup. }
  { apply Forall_forall. intros name Hname. apply not_inherited_proto.
    rewrite Forall_forall in Hnames. apply Hnames.
    apply list_elem_of_fmap in Hname as (p & -> & Hp).
    apply list_elem_of_fmap. exists p. split; [reflexivity|].
    unfold enumerable in Hp. by apply list_elem_of_filter in Hp as [_ ?]. }
  { unfold enumerable. apply Forall_forall. intros p Hp.
    by apply list_elem_of_filter in Hp as [? _]. }
  set (objectConfigs := combined (enumerable properties)) in *.
  split.
  - cbn [length]. rewrite length_map. apply (f_equal S).
    etransitivity; [exact Hlen|]. by destruct (enumerable _).
  - rewrite <- Hin. rewrite elem_of_cons, list_elem_of_fmap. split.
    + intros [?|(o & [= ->] & Ho)]; [discriminate|assumption].
    + intros Ho. right. by exists obj.
Qed.

(** X3, at an input: two boolean properties give four objects. *)
Lemma generateConfigsFromSchema_object_witness :
  exists configs,
    generateConfigsFromSchema
      (SchemaArray [OptSchema None (Some "object") (Some beforeAfter)])
    = Ok configs
    /\ length configs = 5
    /\ CfgArr [JNum 2; JObj [("before", JBool true); ("after", JBool false)]]
       ∈ configs.
Proof.
  destruct (generateConfigsFromSchema_object beforeAfter
              [("before", JBool true); ("after", JBool false)])
    as (configs & Hgen & Hlen & Hin).
  - apply (bool_decide_unpack _). vm_compute. exact I.
  - apply (bool_decide_unpack _). vm_compute. exact I.
  - exists configs. split; [exact Hgen|]. split; [exact Hlen|].
    apply Hin. split; [discriminate|]. repeat constructor.
Defined.

(** ** An empty enumeration *)

Lemma addOptions_app (opts1 opts2 : list optSchema) :
  forall configs,
    addOptions configs (opts1 ++ opts2)
    = match addOptions configs opts1 with
      | Ok configs' => addOptions configs' opts2
      | Throw e => Throw e
      end.
Proof.
  induction opts1 as [|opt opts1 IH]; intros configs; [reflexivity|].
  simpl. destruct (addOption configs opt); [apply IH|reflexivity].
Qed.

Lemma resolve_app (severity : Z) (todo1 todo2 : ruleConfigs) :
  forall done,
    resolve severity done (todo1 ++ todo2)
    = resolve severity (resolve severity done todo1) todo2.
Proof.
  induction todo1 as [|c todo1 IH]; intros done; [reflexivity|].
  simpl. apply IH.
Qed.

(** Wrappers of configurations that are resolved already. *)
Lemma resolve_wrappers (severity : Z) (done : list jsval) (refs : list nat) :
  Forall (fun i => i < length done) refs ->
  forall more,
    resolve severity (done ++ more) (map (fun i => [CRef i]) refs)
    = done ++ more
      ++ map (fun i => JArr [JNum severity; default JUndefined (done !! i)])
             refs.
Proof.
  induction 1 as [|i refs Hi _ IH]; intros more.
  - simpl. by rewrite app_nil_r.
  - simpl. rewrite <- app_assoc, IH, <- app_assoc. simpl.
    by rewrite lookup_app_l by assumption.
Qed.

Lemma map_lookup_seq {A B : Type} (f : A -> B) (x : A) (l : list A) :
  map (fun i => f (default x (l !! i))) (seq 0 (length l)) = map f l.
Proof.
  induction l as [|a l IH] using rev_ind; [reflexivity|].
  rewrite length_app, Nat.add_1_r, seq_S, !map_app. simpl.
  rewrite list_lookup_middle by reflexivity. simpl. f_equal.
  rewrite <- IH. apply map_ext_in. intros i Hi%in_seq.
  by rewrite lookup_app_l by lia.
Qed.

(** X27. An item of a schema with an empty enumeration adds, for every
    configuration there is so far, a configuration whose only option is
    that configuration itself, severity included: the generator wraps the
    arrays it has, and then puts the severity in front of them and of their
    wrappers alike. *)
Theorem generateConfigsFromSchema_empty_enum (opts : list optSchema)
    (base : list ruleConfig) :
  generateConfigsFromSchema (SchemaArray opts) = Ok base ->
  generateConfigsFromSchema
    (SchemaArray (opts ++ [OptSchema (Some []) None None]))
  = Ok (base
        ++ map (fun c => CfgArr [JNum 2; config_value c]) (tail base)).
Proof.
  simpl. rewrite addOptions_app.
  destruct (addOptions [] opts) as [configs|e]; [|discriminate].
  intros [= <-]. simpl. unfold addOption. simpl. f_equal.
  unfold addEnums.
  assert (Hwrap : combineArrays configs [] = explodeConfigs configs).
  { unfold combineArrays. by destruct configs. }
  rewrite Hwrap. unfold addErrorSeverity. simpl. f_equal.
  rewrite resolve_app. unfold explodeConfigs.
  set (done := resolve 2 [] configs).
  assert (Hlen : length done = length configs)
    by (subst done; by rewrite resolve_length).
  rewrite <- Hlen.
  rewrite <- (app_nil_r done) at 1.
  rewrite resolve_wrappers.
  - simpl. rewrite map_app. f_equal.
    rewrite (map_lookup_seq (fun d => JArr [JNum 2; d])).
    rewrite !map_map. apply map_ext_in. intros d Hd. simpl.
    assert (Hs : Forall (startsWith 2) done)
      by (apply resolve_startsWith; constructor).
    apply list_elem_of_In in Hd.
    destruct (proj1 (Forall_forall _ _) Hs d Hd) as [options ->].
    reflexivity.
  - apply Forall_forall. intros i Hi%elem_of_seq. lia.
Qed.

(** X27, at an input: an empty enumeration after one with a value. *)
Lemma generateConfigsFromSchema_empty_enum_witness :
  generateConfigsFromSchema
    (SchemaArray ([OptSchema (Some [JStr "always"]) None None]
                  ++ [OptSchema (Some []) None None]))
  = Ok ([CfgNum 2; CfgArr [JNum 2; JStr "always"]]
        ++ [CfgArr [JNum 2; JArr [JNum 2; JStr "always"]]]).
Proof.
  apply (generateConfigsFromSchema_empty_enum
           [OptSchema (Some [JStr "always"]) None None]
           [CfgNum 2; CfgArr [JNum 2; JStr "always"]]).
  reflexivity.
Defined.

(** ** The rule sets in full *)

Section RuleSetFacts.
Context {SourceCode : Type}.
Implicit Types w : @world SourceCode.

Lemma addRuleToRuleSet_run (this : Registry) (idx : nat)
    (ruleSets : list RuleSet) (rule : string) w :
  addRuleToRuleSet this idx ruleSets rule w
  = match eligible (heap w) this idx rule with
    | Some (l, c) =>
        (array_set idx (<[rule := c]> (default ∅ (ruleSets !! idx))) ruleSets,
         World (alter zeroed l (heap w)) (sourceCodes w) (trace w))
    | None => (ruleSets, w)
    end.
Proof.
  unfold addRuleToRuleSet, eligible.
  destruct (default [] (this !! rule) !! idx) as [l|]; [|reflexivity].
  simpl. unfold bind at 1. unfold getItem at 1.
  destruct (heap w !! l) as [it|]; [|reflexivity]. simpl.
  destruct (_ || _); [|reflexivity].
  destruct (_ && _); reflexivity.
Qed.

Lemma shape_alter (c : count -> count) (l : loc) (h : list registryItem) :
  shape <$> alter (fun it => RegistryItem (config it) (specificity it)
                                          (c (errorCount it))) l h
  = shape <$> h.
Proof.
  apply list_eq. intros i. rewrite !list_lookup_fmap, list_lookup_alter.
  case_decide as Hi; [|reflexivity]. rewrite <- Hi. by destruct (h !! l).
Qed.

Lemma eligible_shape (h h' : list registryItem) (this : Registry) (idx : nat)
    (rule : string) :
  shape <$> h = shape <$> h' -> eligible h this idx rule = eligible h' this idx rule.
Proof.
  intros Hs. unfold eligible.
  destruct (default [] (this !! rule) !! idx) as [l|]; [|reflexivity]. simpl.
  assert (Hl : shape <$> h !! l = shape <$> h' !! l)
    by (by rewrite <- !list_lookup_fmap, Hs).
  destruct (h !! l) as [it|], (h' !! l) as [it'|]; try discriminate;
    [|reflexivity].
  simpl in *. injection Hl as Hc Hsp. by rewrite Hc, Hsp.
Qed.

Lemma eligible_beyond (h : list registryItem) (this : Registry) (idx : nat)
    (rule : string) :
  longest this <= idx -> eligible h this idx rule = None.
Proof.
  intros Hidx. unfold eligible.
  destruct (this !! rule) as [items|] eqn:E; simpl; [|reflexivity].
  rewrite lookup_ge_None_2; [reflexivity|].
  pose proof (length_le_longest _ _ _ E). lia.
Qed.

Lemma eligible_rule (h : list registryItem) (this : Registry) (idx : nat)
    (rule : string) (l : loc) (c : ruleConfig) :
  eligible h this idx rule = Some (l, c) ->
  exists items it,
    this !! rule = Some items /\ items !! idx = Some l /\ h !! l = Some it
    /\ config it = c
    /\ (length items <= MAX_CONFIG_COMBINATIONS
        \/ specificity it <= 2 /\ typeof_object (config_at c 1) = false).
Proof.
  unfold eligible. destruct (this !! rule) as [items|]; [|discriminate]. simpl.
  destruct (items !! idx) as [l'|] eqn:El; [|discriminate]. simpl.
  destruct (h !! l') as [it|] eqn:Eh; [|discriminate]. simpl.
  case_bool_decide as Hfew; simpl.
  - intros [= <- <-]. exists items, it. split_and!; auto.
  - case_bool_decide as Hsp; [|discriminate].
    destruct (typeof_object _) eqn:Eo; [discriminate|].
    intros [= <- <-]. exists items, it. split_and!; auto.
Qed.

Lemma array_set_round {A : Type} (idx : nat) (x : A) (l : list A) :
  length l = idx \/ length l = S idx ->
  length (array_set idx x l) = S idx
  /\ array_set idx x l !! idx = Some x
  /\ take idx (array_set idx x l) = take idx l.
Proof.
  unfold array_set. intros [Hl|Hl].
  - rewrite decide_False by lia. rewrite length_app. simpl.
    split; [lia|]. split.
    + rewrite lookup_app_r by lia. by rewrite Hl, Nat.sub_diag.
    + rewrite take_app_le by lia. reflexivity.
  - rewrite decide_True by lia. rewrite length_insert.
    split; [assumption|]. split.
    + apply list_lookup_insert_eq. lia.
    + by rewrite take_insert_ge.
Qed.

(** One round of [buildRuleSets], over some of the rules. *)
Lemma round_spec (this : Registry) (idx : nat) (ks : list string) :
  forall (ruleSets : list RuleSet) w,
    length ruleSets = idx \/ length ruleSets = S idx ->
    let r := foldM (addRuleToRuleSet this idx) ruleSets ks w in
    shape <$> heap r.2 = shape <$> heap w
    /\ take idx r.1 = take idx ruleSets
    /\ (length r.1 = idx \/ length r.1 = S idx)
    /\ (length r.1 = S idx
        <-> length ruleSets = S idx
            \/ exists rule, rule ∈ ks
                            /\ is_Some (eligible (heap w) this idx rule))
    /\ (forall rule,
          default ∅ (r.1 !! idx) !! rule
          = match eligible (heap w) this idx rule with
            | Some (_, c) =>
                if decide (rule ∈ ks) then Some c
                else default ∅ (ruleSets !! idx) !! rule
            | None => default ∅ (ruleSets !! idx) !! rule
            end)
    /\ (forall rule l c,
          rule ∈ ks -> eligible (heap w) this idx rule = Some (l, c) ->
          errorCount <$> heap r.2 !! l = Some (Num 0))
    /\ (forall l,
          (forall rule c, rule ∈ ks ->
                          eligible (heap w) this idx rule <> Some (l, c)) ->
          heap r.2 !! l = heap w !! l).
Proof.
  induction ks as [|x ks IH]; intros ruleSets w Hlen.
  - cbn [foldM]. unfold ret. cbn [fst snd]. split; [reflexivity|]. split; [reflexivity|]. split; [assumption|].
    split.
    { split; [auto|]. intros [?|(rule & Hin & _)]; [assumption|].
      by apply elem_of_nil in Hin. }
    split.
    { intros rule. destruct (eligible _ _ _ _) as [[l c]|]; [|reflexivity].
      rewrite decide_False; [reflexivity|apply not_elem_of_nil]. }
    split; [|reflexivity].
    intros rule l c Hin. by apply elem_of_nil in Hin.
  - cbn [foldM]. unfold bind. rewrite addRuleToRuleSet_run.
    destruct (eligible (heap w) this idx x) as [[lx cx]|] eqn:Ex.
    + set (rs1 := array_set idx _ ruleSets).
      set (w1 := World _ _ _).
      destruct (array_set_round idx (<[x := cx]> (default ∅ (ruleSets !! idx)))
                  ruleSets Hlen) as (Hl1 & Hi1 & Ht1). fold rs1 in Hl1, Hi1, Ht1.
      assert (Hs1 : shape <$> heap w1 = shape <$> heap w).
      { apply (shape_alter (fun _ => Num 0)). }
      specialize (IH rs1 w1 (or_intror Hl1)).
      destruct (foldM _ rs1 ks w1) as [rs2 w2].
      destruct IH as (Hs & Ht & Hl & Hiff & Hmap & Hzero & Hkeep).
      cbn [fst snd] in *.
      split; [congruence|]. split; [congruence|]. split; [assumption|].
      split.
      { split; [|intros _; apply Hiff; auto].
        intros _. right. exists x. split; [left|]. rewrite Ex. eauto. }
      split.
      { intros rule. rewrite Hmap, (eligible_shape _ _ _ _ _ Hs1), Hi1. simpl.
        destruct (decide (rule = x)) as [->|Hne].
        - rewrite Ex. rewrite (decide_True (P := x ∈ x :: ks)) by left.
          destruct (decide (x ∈ ks)); [reflexivity|apply lookup_insert_eq].
        - rewrite lookup_insert_ne by congruence.
          destruct (eligible (heap w) this idx rule) as [[l c]|]; [|reflexivity].
          destruct (decide (rule ∈ ks)) as [Hin|Hin].
          + rewrite decide_True by (by right). reflexivity.
          + rewrite decide_False; [reflexivity|].
            intros [?|?]%elem_of_cons; done. }
      split.
      { intros rule l c Hin Hel.
        destruct (decide (l = lx)) as [->|Hne].
        - destruct (decide (Exists (fun rule' =>
                      fst <$> eligible (heap w) this idx rule' = Some lx) ks))
            as [(rule' & Hin' & Hel')%Exists_exists|Hno].
          + destruct (eligible (heap w) this idx rule') as [[l' c']|] eqn:El';
              [|discriminate].
            injection Hel' as ->.
            apply (Hzero rule' lx c' Hin').
            by rewrite (eligible_shape _ _ _ _ _ Hs1).
          + rewrite Hkeep.
            * simpl. rewrite list_lookup_alter, decide_True by reflexivity.
              apply eligible_rule in Ex as (? & it & _ & _ & Hit & _).
              by rewrite Hit.
            * intros rule' c' Hin'. rewrite (eligible_shape _ _ _ _ _ Hs1).
              intros Hel'. apply Hno. apply Exists_exists. exists rule'.
              split; [assumption|]. by rewrite Hel'.
        - apply elem_of_cons in Hin as [->|Hin]; [congruence|].
          apply (Hzero rule l c Hin).
          by rewrite (eligible_shape _ _ _ _ _ Hs1). }
      intros l Hno. rewrite Hkeep.
      * simpl. rewrite list_lookup_alter, decide_False; [reflexivity|].
        intros ->. apply (Hno x cx); [left|assumption].
      * intros rule c Hin. rewrite (eligible_shape _ _ _ _ _ Hs1).
        apply Hno. by right.
    + specialize (IH ruleSets w Hlen).
      destruct (foldM _ ruleSets ks w) as [rs2 w2].
      destruct IH as (Hs & Ht & Hl & Hiff & Hmap & Hzero & Hkeep).
      cbn [fst snd] in *.
      split; [assumption|]. split; [assumption|]. split; [assumption|].
      split.
      { rewrite Hiff. apply or_iff_compat_l. split.
        - intros (rule & Hin & Hel). exists rule. split; [by right|assumption].
        - intros (rule & [->|Hin]%elem_of_cons & Hel).
          + rewrite Ex in Hel. by destruct Hel.
          + eauto. }
      split.
      { intros rule. rewrite Hmap.
        destruct (eligible (heap w) this idx rule) as [[l c]|] eqn:El;
          [|reflexivity].
        destruct (decide (rule ∈ ks)) as [Hin|Hin].
        - rewrite decide_True by (by right). reflexivity.
        - rewrite decide_False; [reflexivity|].
          intros [->|?]%elem_of_cons; [congruence|done]. }
      split.
      { intros rule l c [->|Hin]%elem_of_cons Hel; [congruence|eauto]. }
      intros l Hno. apply Hkeep. intros rule c Hin. apply Hno. by right.
Qed.

Lemma eligible_keys (h : list registryItem) (this : Registry) (idx : nat)
    (rule : string) :
  is_Some (eligible h this idx rule) -> rule ∈ keys this.
Proof.
  intros [[l c] H]. apply eligible_rule in H as (items & _ & H & _).
  apply elem_of_keys. eauto.
Qed.

Lemma zeroedOrSame_refl (h : list registryItem) : zeroedOrSame h h.
Proof. intros l. by left. Qed.

Lemma zeroedOrSame_trans (h1 h2 h3 : list registryItem) :
  zeroedOrSame h1 h2 -> zeroedOrSame h2 h3 -> zeroedOrSame h1 h3.
Proof.
  intros H12 H23 l. destruct (H23 l) as [->| ->], (H12 l) as [->| ->]; auto.
  right. by destruct (h1 !! l).
Qed.

Lemma zeroedOrSame_zero (h h' : list registryItem) (l : loc) :
  zeroedOrSame h h' -> errorCount <$> h !! l = Some (Num 0) ->
  errorCount <$> h' !! l = Some (Num 0).
Proof.
  intros H Hz. destruct (H l) as [->| ->]; [assumption|].
  by destruct (h !! l).
Qed.

Lemma round_touch (this : Registry) (idx : nat) (ks : list string) :
  forall (ruleSets : list RuleSet) w,
    zeroedOrSame (heap w)
                 (heap (foldM (addRuleToRuleSet this idx) ruleSets ks w).2).
Proof.
  induction ks as [|x ks IH]; intros ruleSets w; [apply zeroedOrSame_refl|].
  cbn [foldM]. unfold bind. rewrite addRuleToRuleSet_run.
  destruct (eligible (heap w) this idx x) as [[lx cx]|]; [|apply IH].
  eapply zeroedOrSame_trans; [|apply IH].
  intros l. simpl. rewrite list_lookup_alter. case_decide; subst; auto.
Qed.

Lemma loop_touch (this : Registry) (fuel : nat) :
  forall idx (ruleSets : list RuleSet) w,
    zeroedOrSame (heap w) (heap (buildRuleSets_loop fuel this idx ruleSets w).2).
Proof.
  induction fuel as [|fuel IH]; intros idx ruleSets w; [apply zeroedOrSame_refl|].
  simpl. case_decide; [|apply zeroedOrSame_refl]. unfold bind.
  pose proof (round_touch this idx (keys this) ruleSets w) as Hround.
  destruct (foldM _ ruleSets (keys this) w) as [rs1 w1].
  eapply zeroedOrSame_trans; [exact Hround|apply IH].
Qed.

(** The loop of [buildRuleSets] from an index on. *)
Lemma loop_spec (this : Registry) (fuel : nat) :
  forall idx (ruleSets : list RuleSet) w,
    length ruleSets = idx -> longest this < idx + fuel ->
    let r := buildRuleSets_loop fuel this idx ruleSets w in
    shape <$> heap r.2 = shape <$> heap w
    /\ take idx r.1 = ruleSets
    /\ idx <= length r.1
    /\ (forall i, idx <= i < length r.1 ->
                  exists rule, is_Some (eligible (heap w) this i rule))
    /\ (forall rule, eligible (heap w) this (length r.1) rule = None)
    /\ (forall i rule,
          idx <= i < length r.1 ->
          default ∅ (r.1 !! i) !! rule = snd <$> eligible (heap w) this i rule)
    /\ (forall i rule l c,
          idx <= i < length r.1 ->
          eligible (heap w) this i rule = Some (l, c) ->
          errorCount <$> heap r.2 !! l = Some (Num 0))
    /\ (forall l,
          (forall i rule c, idx <= i < length r.1 ->
                            eligible (heap w) this i rule <> Some (l, c)) ->
          heap r.2 !! l = heap w !! l).
Proof.
  induction fuel as [|fuel IH]; intros idx ruleSets w Hlen Hfuel.
  - simpl. split; [reflexivity|]. split; [by apply take_ge; lia|].
    split; [lia|]. split; [intros i; lia|]. split.
    { intros rule. apply eligible_beyond. lia. }
    split; [intros i rule; lia|]. split; [intros i rule l c; lia|].
    reflexivity.
  - cbn [buildRuleSets_loop]. rewrite decide_True by assumption. unfold bind.
    pose proof (round_spec this idx (keys this) ruleSets w (or_introl Hlen))
      as Hround.
    pose proof (round_touch this idx (keys this) ruleSets w) as Htouch1.
    destruct (foldM _ ruleSets (keys this) w) as [rs1 w1].
    destruct Hround as (Hs1 & Ht1 & Hl1 & Hiff1 & Hmap1 & Hzero1 & Hkeep1).
    cbn [fst snd] in *.
    assert (Hpre : take idx ruleSets = ruleSets) by (apply take_ge; lia).
    destruct Hl1 as [Hl1|Hl1].
    + assert (Hstop : buildRuleSets_loop fuel this (S idx) rs1 w1 = (rs1, w1)).
      { destruct fuel; [reflexivity|]. simpl. by rewrite decide_False by lia. }
      rewrite Hstop. cbn [fst snd].
      assert (Hnone : forall rule, eligible (heap w) this idx rule = None).
      { intros rule. destruct (eligible (heap w) this idx rule) eqn:E;
          [|reflexivity].
        assert (length rs1 = S idx); [|lia].
        apply Hiff1. right. exists rule. split.
        - eapply eligible_keys. by rewrite E.
        - by rewrite E. }
      split; [assumption|]. split.
      { by rewrite Ht1. }
      split; [lia|]. split; [intros i; lia|]. split.
      { by rewrite Hl1. }
      split; [intros i rule; lia|]. split; [intros i rule l c; lia|].
      intros l _. apply Hkeep1. intros rule c _. by rewrite Hnone.
    + specialize (IH (S idx) rs1 w1 Hl1).
      pose proof (loop_touch this fuel (S idx) rs1 w1) as Htouch2.
      destruct (buildRuleSets_loop fuel this (S idx) rs1 w1) as [rs2 w2].
      destruct IH as (Hs2 & Ht2 & Hle2 & Hex2 & Hnone2 & Hmap2 & Hzero2 & Hkeep2);
        [lia|].
      cbn [fst snd] in *.
      assert (Hidx : rs2 !! idx = rs1 !! idx).
      { rewrite <- Ht2. symmetry. apply lookup_take_lt. lia. }
      split; [congruence|]. split.
      { rewrite <- Hpre, <- Ht1, <- Ht2, take_take. f_equal. lia. }
      split; [lia|]. split.
      { intros i Hi. destruct (decide (i = idx)) as [->|Hne].
        - apply Hiff1 in Hl1 as [?|(rule & _ & Hel)]; [lia|eauto].
        - destruct (Hex2 i) as [rule Hel]; [lia|]. exists rule.
          by rewrite <- (eligible_shape _ _ _ _ _ Hs1). }
      split.
      { intros rule. by rewrite <- (eligible_shape _ _ _ _ _ Hs1). }
      split.
      { intros i rule Hi. destruct (decide (i = idx)) as [->|Hne].
        - rewrite Hidx, Hmap1.
          rewrite (lookup_ge_None_2 ruleSets idx) by lia. simpl.
          destruct (eligible (heap w) this idx rule) as [[l c]|] eqn:E;
            [|apply lookup_empty].
          rewrite decide_True; [reflexivity|].
          eapply eligible_keys. by rewrite E.
        - rewrite Hmap2 by lia.
          by rewrite <- (eligible_shape _ _ _ _ _ Hs1). }
      split.
      { intros i rule l c Hi Hel. destruct (decide (i = idx)) as [->|Hne].
        - eapply zeroedOrSame_zero; [exact Htouch2|].
          apply (Hzero1 rule l c); [|assumption].
          eapply eligible_keys. by rewrite Hel.
        - apply (Hzero2 i rule l c); [lia|].
          by rewrite (eligible_shape _ _ _ _ _ Hs1). }
      intros l Hno. rewrite Hkeep2.
      * apply Hkeep1. intros rule c _. apply Hno. lia.
      * intros i rule c Hi. rewrite (eligible_shape _ _ _ _ _ Hs1).
        apply Hno. lia.
Qed.

(** [buildRuleSets] as a whole. *)
Lemma buildRuleSets_spec (this : Registry) w :
  let r := buildRuleSets this w in
  shape <$> heap r.2 = shape <$> heap w
  /\ (forall i, i < length r.1 ->
                exists rule, is_Some (eligible (heap w) this i rule))
  /\ (forall rule, eligible (heap w) this (length r.1) rule = None)
  /\ (forall i rule,
        i < length r.1 ->
        default ∅ (r.1 !! i) !! rule = snd <$> eligible (heap w) this i rule)
  /\ (forall i rule l c,
        i < length r.1 -> eligible (heap w) this i rule = Some (l, c) ->
        errorCount <$> heap r.2 !! l = Some (Num 0))
  /\ (forall l,
        (forall i rule c, i < length r.1 ->
                          eligible (heap w) this i rule <> Some (l, c)) ->
        heap r.2 !! l = heap w !! l).
Proof.
  unfold buildRuleSets.
  destruct (loop_spec this (S (longest this)) 0 [] w) as
    (Hs & _ & _ & Hex & Hnone & Hmap & Hzero & Hkeep); [reflexivity|lia|].
  split; [assumption|]. split; [intros i Hi; apply Hex; lia|].
  split; [assumption|]. split; [intros i rule Hi; apply Hmap; lia|].
  split; [intros i rule l c Hi; apply Hzero; lia|].
  intros l Hno. apply Hkeep. intros i rule c Hi. apply Hno. lia.
Qed.

End RuleSetFacts.

Section RuleSetTheorems.
Context {SourceCode : Type}.
Implicit Types w : @world SourceCode.

Lemma zeroed_same (it : registryItem) :
  errorCount it = Num 0 -> zeroed it = it.
Proof. destruct it. simpl. by intros ->. Qed.

(** An item taken into a rule set is left with its count at 0. *)
Lemma buildRuleSets_zeroed (this : Registry) w (idx : nat) (rule : string)
    (l : loc) (c : ruleConfig) :
  idx < length (buildRuleSets this w).1 ->
  eligible (heap w) this idx rule = Some (l, c) ->
  heap (buildRuleSets this w).2 !! l = zeroed <$> heap w !! l.
Proof.
  intros Hidx Hel.
  destruct (buildRuleSets_spec this w) as (_ & _ & _ & _ & Hzero & _).
  specialize (Hzero idx rule l c Hidx Hel).
  destruct (loop_touch this (S (longest this)) 0 [] w l) as [Hsame|Hz];
    [|exact Hz].
  fold (buildRuleSets this w) in Hsame. rewrite Hsame in *.
  destruct (heap w !! l) as [it|]; [|discriminate]. simpl in *.
  injection Hzero as Hzero. by rewrite zeroed_same.
Qed.

(** X4. A rule set that [buildRuleSets] returns holds, for every rule, the
    configuration of the item the rule has at the index of the rule set, if
    it is eligible there, and no other rule; it is never empty. *)
Theorem buildRuleSets_content (this : Registry) w (idx : nat)
    (ruleSet : RuleSet) :
  (buildRuleSets this w).1 !! idx = Some ruleSet ->
  (forall rule, ruleSet !! rule = snd <$> eligible (heap w) this idx rule)
  /\ ruleSet <> ∅.
Proof.
  intros Hidx.
  destruct (buildRuleSets_spec this w) as (_ & Hex & _ & Hmap & _).
  pose proof (lookup_lt_Some _ _ _ Hidx) as Hlt.
  assert (Hrule : forall rule,
             ruleSet !! rule = snd <$> eligible (heap w) this idx rule).
  { intros rule. rewrite <- (Hmap idx rule Hlt). by rewrite Hidx. }
  split; [exact Hrule|].
  intros ->. destruct (Hex idx Hlt) as (rule & [c Hc]).
  specialize (Hrule rule). rewrite Hc, lookup_empty in Hrule. discriminate.
Qed.

(** X5. The rule sets stop at the first index at which no rule has an
    eligible item: every index below their number has a rule with one, and
    their number has none, even if rules have items beyond it. *)
Theorem buildRuleSets_stops (this : Registry) w :
  let ruleSets := (buildRuleSets this w).1 in
  (forall idx, idx < length ruleSets ->
               exists rule, is_Some (eligible (heap w) this idx rule))
  /\ (forall rule, eligible (heap w) this (length ruleSets) rule = None)
  /\ length ruleSets <= longest this.
Proof.
  destruct (buildRuleSets_spec this w) as (_ & Hex & Hnone & _).
  split; [exact Hex|]. split; [exact Hnone|].
  destruct (decide (length (buildRuleSets this w).1 <= longest this))
    as [|Hgt]; [assumption|].
  destruct (Hex (longest this)) as (rule & [c Hc]); [lia|].
  rewrite eligible_beyond in Hc by lia. discriminate.
Qed.

(** X6. [buildRuleSets] changes nothing but counts: every item keeps its
    configuration and specificity; the count of an item taken into a rule
    set is 0 afterwards, and every other item is as before.  The files and
    the console are not touched. *)
Theorem buildRuleSets_counts (this : Registry) w (l : loc) :
  let r := buildRuleSets this w in
  shape <$> heap r.2 = shape <$> heap w
  /\ sourceCodes r.2 = sourceCodes w
  /\ trace r.2 = trace w
  /\ (forall idx rule c,
        idx < length r.1 -> eligible (heap w) this idx rule = Some (l, c) ->
        heap r.2 !! l = zeroed <$> heap w !! l)
  /\ ((forall idx rule c,
         idx < length r.1 -> eligible (heap w) this idx rule <> Some (l, c)) ->
      heap r.2 !! l = heap w !! l).
Proof.
  destruct (buildRuleSets_spec this w) as (Hs & _ & _ & _ & _ & Hkeep).
  destruct (heapOnly_buildRuleSets this w) as [Hsc Htr].
  split; [exact Hs|]. split; [exact Hsc|]. split; [exact Htr|].
  split; [|apply Hkeep].
  intros idx rule c. apply buildRuleSets_zeroed.
Qed.

Lemma longest_le (this : Registry) (n : nat) :
  (forall rule items, this !! rule = Some items -> length items <= n) ->
  longest this <= n.
Proof.
  intros H. unfold longest.
  destruct (decide (length <$> (map_to_list this).*2 = [])) as [->|Hne];
    [simpl; lia|].
  apply max_list_elem_of in Hne.
  apply list_elem_of_fmap in Hne as (items & -> & Hin).
  apply list_elem_of_fmap in Hin as ([rule items'] & -> & Hin).
  apply elem_of_map_to_list in Hin. eauto.
Qed.

Lemma fewCombos_eligible (this : Registry) (h : list registryItem)
    (rule : string) (items : list loc) (idx : nat) (l : loc) :
  fewCombos h this -> this !! rule = Some items -> items !! idx = Some l ->
  exists it, h !! l = Some it /\ eligible h this idx rule = Some (l, config it).
Proof.
  intros Hfew Hrule Hidx. destruct (Hfew rule items Hrule) as [Hlen Hin].
  destruct (lookup_lt_is_Some_2 h l) as [it Hit].
  { apply Hin. eapply list_elem_of_lookup_2, Hidx. }
  exists it. split; [assumption|].
  unfold eligible. rewrite Hrule. simpl. rewrite Hidx. simpl. rewrite Hit. simpl.
  by rewrite bool_decide_eq_true_2.
Qed.

Lemma fewCombos_spec (this : Registry) w :
  fewCombos (heap w) this ->
  let r := buildRuleSets this w in
  length r.1 = longest this
  /\ forall rule items idx l,
       this !! rule = Some items -> items !! idx = Some l ->
       default ∅ (r.1 !! idx) !! rule = config <$> heap w !! l
       /\ heap r.2 !! l = zeroed <$> heap w !! l.
Proof.
  intros Hfew.
  pose proof (buildRuleSets_length this w) as Hle.
  destruct (buildRuleSets_spec this w) as (_ & _ & Hnone & Hmap & _).
  assert (Hlen : length (buildRuleSets this w).1 = longest this).
  { apply Nat.le_antisymm; [assumption|].
    apply longest_le. intros rule items Hrule.
    destruct (decide (length items <= length (buildRuleSets this w).1))
      as [|Hgt]; [assumption|].
    destruct (lookup_lt_is_Some_2 items (length (buildRuleSets this w).1))
      as [l Hl]; [lia|].
    destruct (fewCombos_eligible this (heap w) rule items _ l Hfew Hrule Hl)
      as (it & _ & Hel).
    rewrite Hnone in Hel. discriminate. }
  split; [exact Hlen|].
  intros rule items idx l Hrule Hidx.
  destruct (fewCombos_eligible this (heap w) rule items idx l Hfew Hrule Hidx)
    as (it & Hit & Hel).
  assert (Hlt : idx < length (buildRuleSets this w).1).
  { rewrite Hlen. pose proof (length_le_longest _ _ _ Hrule).
    apply lookup_lt_Some in Hidx. lia. }
  split.
  - rewrite Hmap by assumption. rewrite Hel, Hit. reflexivity.
  - eapply buildRuleSets_zeroed; eassumption.
Qed.

(** X7. In a registry in which no rule has more than
    [MAX_CONFIG_COMBINATIONS] configurations, [buildRuleSets] takes them all:
    there are as many rule sets as the rule with most has configurations,
    the rule set at an index has the configuration of every rule that has
    one at that index, and the count of every item of the registry is 0
    afterwards. *)
Theorem buildRuleSets_fewCombos (this : Registry) w :
  fewCombos (heap w) this ->
  let r := buildRuleSets this w in
  length r.1 = longest this
  /\ forall rule items idx l,
       this !! rule = Some items -> items !! idx = Some l ->
       exists ruleSet it,
         r.1 !! idx = Some ruleSet /\ heap w !! l = Some it
         /\ ruleSet !! rule = Some (config it)
         /\ heap r.2 !! l = Some (zeroed it).
Proof.
  intros Hfew. destruct (fewCombos_spec this w Hfew) as [Hlen Hitems].
  split; [exact Hlen|].
  intros rule items idx l Hrule Hidx.
  destruct (Hitems rule items idx l Hrule Hidx) as [Hmap Hz].
  destruct (fewCombos_eligible this (heap w) rule items idx l Hfew Hrule Hidx)
    as (it & Hit & _).
  destruct (lookup_lt_is_Some_2 (buildRuleSets this w).1 idx) as [ruleSet Hrs].
  { rewrite Hlen. pose proof (length_le_longest _ _ _ Hrule).
    apply lookup_lt_Some in Hidx. lia. }
  exists ruleSet, it. rewrite Hrs, Hit in *. auto.
Qed.

End RuleSetTheorems.

(** X4, at an input: the second rule set of the registry of
    [demoRulesConfig] has the second configuration of rule "r". *)
Lemma buildRuleSets_content_witness :
  ({[ "r" := CfgArr [JNum 2; JStr "a"] ]} : RuleSet) !! "r"
  = snd <$> eligible (heap demoWorld) demoRegistry 1 "r".
Proof.
  apply (buildRuleSets_content demoRegistry demoWorld 1
           {[ "r" := CfgArr [JNum 2; JStr "a"] ]}).
  vm_compute. reflexivity.
Defined.

Lemma demoRegistry_fewCombos : fewCombos (heap demoWorld) demoRegistry.
Proof.
  intros rule items Hrule. unfold demoRegistry in Hrule.
  apply lookup_singleton_Some in Hrule as [<- <-]. split.
  - vm_compute. lia.
  - intros l Hl.
    repeat (apply elem_of_cons in Hl as [->|Hl]; [vm_compute; lia|]).
    by apply elem_of_nil in Hl.
Defined.

(** X7, at an input: five rule sets for the five configurations of "r". *)
Lemma buildRuleSets_fewCombos_witness :
  length (buildRuleSets demoRegistry demoWorld).1 = longest demoRegistry.
Proof.
  apply (buildRuleSets_fewCombos demoRegistry demoWorld).
  exact demoRegistry_fewCombos.
Defined.

(** ** The counts after a pass *)

Section CountFacts.
Context {SourceCode : Type}.
Implicit Types w : @world SourceCode.

Lemma flat_map_ext_elem {A B : Type} (f g : A -> list B) (l : list A) :
  (forall x, x ∈ l -> f x = g x) -> flat_map f l = flat_map g l.
Proof.
  induction l as [|x l IH]; intros H; [reflexivity|].
  cbn [flat_map]. rewrite (H x) by left. rewrite IH; [reflexivity|].
  intros y Hy. apply H. by right.
Qed.

Lemma bumpAll_app (h : list registryItem) (ls1 ls2 : list loc) :
  bumpAll h (ls1 ++ ls2) = bumpAll (bumpAll h ls1) ls2.
Proof. apply foldl_app. Qed.

Lemma setErrorCount_increment (l : loc) w :
  (let* it := getItem l in
   setErrorCount l (increment (from_option errorCount Undefined it))) w
  = (tt, World (alter bump l (heap w)) (sourceCodes w) (trace w)).
Proof.
  unfold bind, getItem, setErrorCount. simpl. do 2 f_equal.
  apply list_eq. intros i. rewrite !list_lookup_alter.
  case_decide as Hi; [|reflexivity]. subst i.
  by destruct (heap w !! l).
Qed.

Lemma countResults_run (lintedRegistry : Registry) (ruleSetIdx : nat)
    (lintResults : list string) :
  forall w,
    exists r,
      countResults lintedRegistry ruleSetIdx lintResults w
      = (r, World (bumpAll (heap w)
                           (countedItems lintedRegistry ruleSetIdx lintResults))
                  (sourceCodes w) (trace w))
      /\ (r = Ok tt
          <-> Forall (fun ruleId =>
                        is_Some (itemOf lintedRegistry ruleSetIdx ruleId))
                     lintResults).
Proof.
  induction lintResults as [|ruleId rest IH]; intros w.
  - exists (Ok tt). split; [by destruct w|]. split; [constructor|reflexivity].
  - cbn [countResults countedItems].
    destruct (itemOf lintedRegistry ruleSetIdx ruleId) as [l|] eqn:Hitem.
    + pose proof Hitem as Hitem'. unfold itemOf in Hitem'.
      destruct (lintedRegistry !! ruleId) as [items|]; [|discriminate].
      simpl in Hitem'. rewrite Hitem'.
      pose proof (setErrorCount_increment l w) as Hstep.
      unfold bind in *. destruct (getItem l w) as [it w0].
      destruct (setErrorCount l _ w0) as [[] w1]. injection Hstep as ->.
      destruct (IH (World (alter bump l (heap w)) (sourceCodes w) (trace w)))
        as (r & Hrun & Hok).
      exists r. split; [exact Hrun|]. rewrite Hok. split.
      * intros H. constructor; [|assumption]. rewrite Hitem. eauto.
      * by intros [_ H]%Forall_cons.
    + assert (Hbad : ~ Forall (fun ruleId =>
                        is_Some (itemOf lintedRegistry ruleSetIdx ruleId))
                      (ruleId :: rest)).
      { intros [[l' Hl'] _]%Forall_cons. congruence. }
      unfold itemOf in Hitem.
      destruct (lintedRegistry !! ruleId) as [items|].
      * simpl in Hitem. rewrite Hitem.
        eexists. split; [by destruct w|]. split; [discriminate|done].
      * eexists. split; [by destruct w|]. split; [discriminate|done].
Qed.

Context (verify : option SourceCode -> eslintConfig -> verifyOutcome).

Lemma progressCalls_app (t1 t2 : list event) :
  progressCalls (t1 ++ t2) = progressCalls t1 ++ progressCalls t2.
Proof. apply omap_app. Qed.

(** One call of the linter. *)
Lemma lintRuleSet_run (lintedRegistry : Registry) (config : eslintConfig)
    (cb : bool) (total : nat) (filename : string) (idx : nat)
    (ruleSet : RuleSet) w :
  let r := lintRuleSet verify lintedRegistry config cb total filename idx
             ruleSet w in
  r.1 = S idx
  /\ heap r.2
     = bumpAll (heap w)
               (callItems verify lintedRegistry config
                          (mjoin (sourceCodes w !! filename)) idx ruleSet)
  /\ sourceCodes r.2 = sourceCodes w
  /\ progressCalls (trace r.2)
     = progressCalls (trace w) ++ (if cb then [total] else []).
Proof.
  unfold lintRuleSet, callItems, bind, getSourceCodes, emit. simpl.
  destruct (verify _ _) as [lintResults|err].
  - match goal with |- context [countResults ?a ?b ?c ?v] =>
      destruct (countResults_run a b c v) as (r & -> & _) end.
    destruct r, cb; simpl; rewrite ?progressCalls_app; simpl;
      rewrite ?progressCalls_app, ?app_nil_r; simpl; rewrite ?app_nil_r; auto.
  - destruct cb; simpl; rewrite ?progressCalls_app; simpl;
      rewrite ?progressCalls_app, ?app_nil_r; simpl; rewrite ?app_nil_r; auto.
Qed.

Lemma lintRuleSets_run (lintedRegistry : Registry) (config : eslintConfig)
    (cb : bool) (total : nat) (filename : string) (ruleSets : list RuleSet) :
  forall idx w,
    let r := foldM (lintRuleSet verify lintedRegistry config cb total filename)
                   idx ruleSets w in
    heap r.2
    = bumpAll (heap w)
              (fileItems verify lintedRegistry config
                         (mjoin (sourceCodes w !! filename)) idx ruleSets)
    /\ sourceCodes r.2 = sourceCodes w
    /\ progressCalls (trace r.2)
       = progressCalls (trace w)
         ++ (if cb then replicate (length ruleSets) total else []).
Proof.
  induction ruleSets as [|ruleSet ruleSets IH]; intros idx w.
  - simpl. destruct cb; rewrite app_nil_r; auto.
  - cbn [foldM fileItems]. unfold bind.
    destruct (lintRuleSet_run lintedRegistry config cb total filename idx
                ruleSet w) as (H1 & H2 & H3 & H4).
    destruct (lintRuleSet _ _ _ _ _ _ _ _ w) as [idx' w']. cbn [fst snd] in *.
    subst idx'. destruct (IH (S idx) w') as (H5 & H6 & H7).
    rewrite H5, H6, H7, H2, H3, H4, bumpAll_app, <- app_assoc.
    split; [reflexivity|]. split; [reflexivity|]. by destruct cb.
Qed.

Lemma lintFile_run (lintedRegistry : Registry) (config : eslintConfig)
    (cb : bool) (total : nat) (ruleSets : list RuleSet) (filename : string) w :
  let r := lintFile verify lintedRegistry config cb total ruleSets filename w in
  heap r.2
  = bumpAll (heap w)
            (fileItems verify lintedRegistry config
                       (mjoin (sourceCodes w !! filename)) 0 ruleSets)
  /\ sourceCodes r.2 = <[filename := None]> (sourceCodes w)
  /\ progressCalls (trace r.2)
     = progressCalls (trace w)
       ++ (if cb then replicate (length ruleSets) total else []).
Proof.
  unfold lintFile, bind.
  destruct (lintRuleSets_run lintedRegistry config cb total filename
              ruleSets 0 w) as (H1 & H2 & H3).
  destruct (foldM _ 0 ruleSets w) as [idx w']. cbn [fst snd] in *.
  unfold deallocate. simpl. rewrite H1, H2, H3. auto.
Qed.

Lemma lintFiles_run (lintedRegistry : Registry) (config : eslintConfig)
    (cb : bool) (total : nat) (ruleSets : list RuleSet)
    (filenames : list string) :
  NoDup filenames ->
  forall w,
    let r := foldM (fun _ filename =>
                      lintFile verify lintedRegistry config cb total ruleSets
                               filename)
                   tt filenames w in
    heap r.2
    = bumpAll (heap w)
              (flat_map (fun filename =>
                           fileItems verify lintedRegistry config
                                     (mjoin (sourceCodes w !! filename))
                                     0 ruleSets)
                        filenames)
    /\ progressCalls (trace r.2)
       = progressCalls (trace w)
         ++ (if cb then replicate (length filenames * length ruleSets) total
             else []).
Proof.
  induction 1 as [|f filenames Hf _ IH]; intros w.
  - simpl. destruct cb; rewrite app_nil_r; auto.
  - cbn [foldM flat_map]. unfold bind.
    destruct (lintFile_run lintedRegistry config cb total ruleSets f w)
      as (H1 & H2 & H3).
    destruct (lintFile _ _ _ _ _ _ _ w) as [[] w']. cbn [fst snd] in *.
    destruct (IH w') as (H4 & H5). rewrite H4, H5, H1, H2, H3, bumpAll_app.
    split.
    + f_equal. apply flat_map_ext_elem. intros f' Hin.
      rewrite lookup_insert_ne; [reflexivity|]. by intros ->.
    + rewrite <- app_assoc. f_equal. destruct cb; [|reflexivity].
      simpl. by rewrite replicate_add.
Qed.

(** The pass as a whole: the registry it returns, the counts it leaves and
    the progress it reports. *)
Lemma lintSourceCode_run (this : Registry) (config : eslintConfig)
    (cb : bool) w :
  let b := buildRuleSets this w in
  let r := lintSourceCode verify this config cb w in
  r.1 = filter (fun l => holds wasLinted (heap b.2) l = true) <$> this
  /\ heap r.2
     = bumpAll (heap b.2) (passItems verify r.1 config (sourceCodes w) b.1)
  /\ progressCalls (trace r.2)
     = progressCalls (trace w)
       ++ (if cb
           then replicate (length (keys (sourceCodes w)) * length b.1)
                          (length (keys (sourceCodes w)) * length b.1)
           else []).
Proof.
  unfold lintSourceCode, passItems, bind.
  destruct (heapOnly_buildRuleSets this w) as [Hs Ht].
  destruct (buildRuleSets this w) as [ruleSets w1]. cbn [fst snd] in *.
  rewrite stripExtraConfigs_run. unfold getSourceCodes.
  match goal with |- context [foldM ?body tt ?names w1] =>
    destruct (lintFiles_run
                (filter (fun l => holds wasLinted (heap w1) l = true) <$> this)
                config cb (length (keys (sourceCodes w1)) * length ruleSets)
                ruleSets (keys (sourceCodes w1)) (keys_NoDup _) w1) as [H1 H2];
    destruct (foldM body tt names w1) as [[] w2] end.
  unfold ret. cbn [fst snd] in *. rewrite H1, H2, Hs, Ht. auto.
Qed.

End CountFacts.

Section CountTheorems.
Context {SourceCode : Type}.
Implicit Types w : @world SourceCode.
Context (verify : option SourceCode -> eslintConfig -> verifyOutcome).

Lemma filter_all {A : Type} (P : A -> Prop) `{forall x, Decision (P x)}
    (l : list A) :
  Forall P l -> filter P l = l.
Proof.
  induction 1 as [|x l Hx _ IH]; [reflexivity|].
  rewrite filter_cons, decide_True by assumption. by rewrite IH.
Qed.

Lemma occurrences_cons (l x : loc) (ls : list loc) :
  occurrences l (x :: ls)
  = if decide (x = l) then S (occurrences l ls) else occurrences l ls.
Proof. unfold occurrences. rewrite filter_cons. by case_decide. Qed.

Lemma bumpAll_lookup (ls : list loc) (l : loc) :
  forall h, bumpAll h ls !! l = Nat.iter (occurrences l ls) bump <$> h !! l.
Proof.
  induction ls as [|x ls IH]; intros h.
  - simpl. by destruct (h !! l).
  - cbn [bumpAll foldl]. fold (bumpAll (alter bump x h) ls).
    rewrite IH, list_lookup_alter, occurrences_cons.
    case_decide as Hx; [subst x|reflexivity].
    destruct (h !! l) as [it|]; [|reflexivity]. simpl. f_equal.
    symmetry. exact (Nat.iter_succ_r (occurrences l ls) _ bump it).
Qed.

Lemma iter_bump (n : nat) (it : registryItem) :
  Nat.iter n bump it
  = RegistryItem (config it) (specificity it)
                 (Nat.iter n increment (errorCount it)).
Proof.
  induction n as [|n IH]; [by destruct it|]. simpl. by rewrite IH.
Qed.

Lemma iter_increment (n : nat) (c : Z) :
  Nat.iter n increment (Num c) = Num (c + Z.of_nat n).
Proof.
  induction n as [|n IH]; simpl.
  - by rewrite Z.add_0_r.
  - rewrite IH. simpl. f_equal. lia.
Qed.

Lemma bumpAll_shape (ls : list loc) :
  forall h, shape <$> bumpAll h ls = shape <$> h.
Proof.
  induction ls as [|x ls IH]; intros h; [reflexivity|].
  cbn [bumpAll foldl]. fold (bumpAll (alter bump x h) ls).
  rewrite IH. apply (shape_alter increment).
Qed.

(** X8. The counts after a pass: every item is as [buildRuleSets] left it,
    with its count raised once for each message counted for it, and keeps
    its configuration and specificity.  The messages counted for an item are
    those that name its rule in a call for the rule set at its index in the
    registry returned, up to the first message of a call that names a rule
    without an item at that index. *)
Theorem lintSourceCode_counts (this : Registry) (config : eslintConfig)
    (cb : bool) w (l : loc) :
  let b := buildRuleSets this w in
  let r := lintSourceCode verify this config cb w in
  heap r.2 !! l
  = Nat.iter (occurrences l (passItems verify r.1 config (sourceCodes w) b.1))
             bump
    <$> heap b.2 !! l
  /\ shape <$> heap r.2 = shape <$> heap w.
Proof.
  destruct (lintSourceCode_run verify this config cb w) as (_ & Hh & _).
  cbv zeta in *. rewrite Hh. split; [apply bumpAll_lookup|].
  rewrite bumpAll_shape.
  by destruct (buildRuleSets_spec this w) as (Hs & _).
Qed.

(** X9. An item that is taken into a rule set has, after the pass, the
    number of the messages counted for it as its count. *)
Theorem lintSourceCode_errorCount (this : Registry) (config : eslintConfig)
    (cb : bool) w (idx : nat) (rule : string) (l : loc) (c : ruleConfig) :
  idx < length (buildRuleSets this w).1 ->
  eligible (heap w) this idx rule = Some (l, c) ->
  let r := lintSourceCode verify this config cb w in
  errorCount <$> heap r.2 !! l
  = Some (Num (Z.of_nat
                 (occurrences l (passItems verify r.1 config (sourceCodes w)
                                           (buildRuleSets this w).1)))).
Proof.
  intros Hidx Hel.
  destruct (lintSourceCode_run verify this config cb w) as (_ & Hh & _).
  cbv zeta in *. rewrite Hh, bumpAll_lookup.
  destruct (buildRuleSets_spec this w) as (_ & _ & _ & _ & Hzero & _).
  specialize (Hzero idx rule l c Hidx Hel).
  destruct (heap (buildRuleSets this w).2 !! l) as [it|]; [|discriminate].
  simpl in *. injection Hzero as Hzero.
  by rewrite iter_bump, Hzero, iter_increment.
Qed.

Lemma wasLinted_bump (n : nat) (it : registryItem) :
  wasLinted it = true -> wasLinted (Nat.iter n bump it) = true.
Proof.
  rewrite iter_bump. unfold wasLinted. simpl.
  destruct (errorCount it) as [|c|]; [discriminate| |]; intros _.
  - by rewrite iter_increment.
  - assert (Nat.iter n increment NaN = NaN) as ->; [|reflexivity].
    induction n as [|n IH]; simpl; [|rewrite IH]; reflexivity.
Qed.

(** X10. The registry a pass returns has the rules of the registry it was
    given, each with those of its items that have a count when the rule
    sets are built, in their order; after the pass every one of them still
    has a count. *)
Theorem lintSourceCode_registry (this : Registry) (config : eslintConfig)
    (cb : bool) w :
  let r := lintSourceCode verify this config cb w in
  dom r.1 = dom this
  /\ (forall rule,
        r.1 !! rule
        = filter (fun l => holds wasLinted (heap (buildRuleSets this w).2) l
                           = true)
          <$> this !! rule)
  /\ (forall rule items l,
        r.1 !! rule = Some items -> l ∈ items ->
        holds wasLinted (heap r.2) l = true).
Proof.
  destruct (lintSourceCode_run verify this config cb w) as (Hr & Hh & _).
  cbv zeta in *. rewrite Hh, Hr. split; [apply dom_fmap_L|].
  split; [intros rule; apply lookup_fmap|].
  intros rule items l. rewrite lookup_fmap.
  destruct (this !! rule) as [items0|]; [|discriminate]. simpl.
  intros [= <-] Hin. apply list_elem_of_filter in Hin as [Hl _]. revert Hl.
  unfold holds. rewrite bumpAll_lookup.
  destruct (heap (buildRuleSets this w).2 !! l) as [it|]; [|discriminate].
  simpl. apply wasLinted_bump.
Qed.

(** X11. For a registry in which no rule has more than
    [MAX_CONFIG_COMBINATIONS] configurations the pass returns the registry
    it was given, item for item. *)
Theorem lintSourceCode_fewCombos (this : Registry) (config : eslintConfig)
    (cb : bool) w :
  fewCombos (heap w) this ->
  (lintSourceCode verify this config cb w).1 = this.
Proof.
  intros Hfew.
  destruct (lintSourceCode_run verify this config cb w) as (Hr & _).
  cbv zeta in *. rewrite Hr. apply map_eq. intros rule. rewrite lookup_fmap.
  destruct (this !! rule) as [items|] eqn:Hrule; [|reflexivity]. simpl. f_equal.
  apply filter_all. apply Forall_forall. intros l Hl.
  apply list_elem_of_lookup_1 in Hl as [idx Hidx].
  destruct (fewCombos_spec this w Hfew) as [_ Hitems].
  destruct (Hitems rule items idx l Hrule Hidx) as [_ Hz].
  destruct (fewCombos_eligible this (heap w) rule items idx l Hfew Hrule Hidx)
    as (it & Hit & _).
  unfold holds. rewrite Hz, Hit. reflexivity.
Qed.

End CountTheorems.

(** X9, at an input: the configuration [2, "a"] of "r" gets one message
    on the one file. *)
Lemma lintSourceCode_errorCount_witness :
  errorCount <$> heap (lintSourceCode demoVerify demoRegistry emptyConfig
                         false demoWorld).2 !! 1
  = Some (Num 1).
Proof.
  rewrite (lintSourceCode_errorCount demoVerify demoRegistry emptyConfig false
             demoWorld 1 "r" 1 (CfgArr [JNum 2; JStr "a"])).
  - vm_compute. reflexivity.
  - vm_compute. lia.
  - vm_compute. reflexivity.
Defined.

(** X11, at an input. *)
Lemma lintSourceCode_fewCombos_witness :
  (lintSourceCode demoVerify demoRegistry emptyConfig false demoWorld).1
  = demoRegistry.
Proof.
  apply lintSourceCode_fewCombos. exact demoRegistry_fewCombos.
Defined.

Section PassTheorems.
Context {SourceCode : Type}.
Implicit Types w : @world SourceCode.
Context (verify : option SourceCode -> eslintConfig -> verifyOutcome).

Lemma fileItems_quiet (lintedRegistry : Registry) (config : eslintConfig)
    (sourceCode : option SourceCode) (ruleSets : list RuleSet) :
  (forall sourceCode lintConfig,
      verify sourceCode lintConfig = Returns []
      \/ exists err, verify sourceCode lintConfig = Throws err) ->
  forall idx,
    fileItems verify lintedRegistry config sourceCode idx ruleSets = [].
Proof.
  intros Hquiet. induction ruleSets as [|ruleSet ruleSets IH]; intros idx;
    [reflexivity|].
  cbn [fileItems]. rewrite IH, app_nil_r. unfold callItems.
  by destruct (Hquiet sourceCode (EslintConfig ruleSet (extends config)
                                                (others config)))
    as [->|[err ->]].
Qed.

(** X12. On files for which the linter has no message, no configuration
    that was linted is stripped: after a pass over a registry whose items
    had no count yet, [stripFailingConfigs] keeps every item of the registry
    the pass returned, and drops only the rules that have none. *)
Theorem lintSourceCode_clean (this : Registry) (config : eslintConfig)
    (cb : bool) w (rule : string) :
  (forall sourceCode lintConfig,
      verify sourceCode lintConfig = Returns []
      \/ exists err, verify sourceCode lintConfig = Throws err) ->
  (forall rule items l,
      this !! rule = Some items -> l ∈ items ->
      errorCount <$> heap w !! l = Some Undefined) ->
  let r := lintSourceCode verify this config cb w in
  (stripFailingConfigs r.1 r.2).1 !! rule
  = r.1 !! rule ≫= (fun items => match items with
                                 | [] => None
                                 | _ => Some items
                                 end).
Proof.
  intros Hquiet Hfresh.
  destruct (lintSourceCode_run verify this config cb w) as (Hr & Hh & _).
  cbv zeta in *. rewrite stripFailingConfigs_run. cbn [fst].
  rewrite lookup_omap.
  assert (Hnone : forall scs ruleSets,
             passItems verify (lintSourceCode verify this config cb w).1
                       config scs ruleSets = []).
  { intros scs ruleSets. unfold passItems.
    induction (keys scs) as [|f fs IH]; [reflexivity|].
    cbn [flat_map]. by rewrite IH, fileItems_quiet. }
  rewrite Hnone in Hh. cbn [bumpAll foldl] in Hh. rewrite Hh, Hr.
  rewrite lookup_fmap. destruct (this !! rule) as [items|] eqn:Hrule;
    [|reflexivity].
  cbn [fmap option_fmap option_map mbind option_bind].
  unfold errorFreeItems.
  rewrite filter_all.
  - set (kept := filter _ items). destruct kept; reflexivity.
  - apply Forall_forall. intros l [Hl Hin]%list_elem_of_filter.
    specialize (Hfresh rule items l Hrule Hin).
    unfold holds in *.
    destruct (loop_touch this (S (longest this)) 0 [] w l) as [Hsame|Hz];
      fold (buildRuleSets this w) in *.
    + rewrite Hsame in Hl. destruct (heap w !! l) as [it|]; [|discriminate].
      simpl in *. injection Hfresh as Hfresh. unfold wasLinted in Hl.
      by rewrite Hfresh in Hl.
    + rewrite Hz. by destruct (heap w !! l).
Qed.

(** X13. A pass that is given a callback calls it once for every file and
    rule set, each time with the number of these calls, as the callback's
    documentation has it; without a callback it reports nothing. *)
Theorem lintSourceCode_progress (this : Registry) (config : eslintConfig)
    (cb : bool) w :
  let total :=
    length (keys (sourceCodes w)) * length (buildRuleSets this w).1 in
  progressCalls (trace (lintSourceCode verify this config cb w).2)
  = progressCalls (trace w) ++ (if cb then replicate total total else []).
Proof.
  by destruct (lintSourceCode_run verify this config cb w) as (_ & _ & Hp).
Qed.

Lemma countedItems_stop (lintedRegistry : Registry) (ruleSetIdx : nat)
    (before : list string) (ruleId : string) (after : list string) :
  Forall (fun ruleId => is_Some (itemOf lintedRegistry ruleSetIdx ruleId))
         before ->
  itemOf lintedRegistry ruleSetIdx ruleId = None ->
  countedItems lintedRegistry ruleSetIdx (before ++ ruleId :: after)
  = countedItems lintedRegistry ruleSetIdx before.
Proof.
  intros Hbefore Hbad. induction Hbefore as [|r before [l Hl] _ IH]; simpl.
  - by rewrite Hbad.
  - by rewrite Hl, IH.
Qed.

(** X14. A message whose rule has no item at the index of the rule set
    stops the counting of its call: the messages before it are counted, the
    ones after it are not, and the call of [countResults] ends in a
    [TypeError]. *)
Theorem countResults_stops (lintedRegistry : Registry) (ruleSetIdx : nat)
    (before : list string) (ruleId : string) (after : list string) w :
  Forall (fun ruleId => is_Some (itemOf lintedRegistry ruleSetIdx ruleId))
         before ->
  itemOf lintedRegistry ruleSetIdx ruleId = None ->
  countResults lintedRegistry ruleSetIdx before w
  = (Ok tt, (countResults lintedRegistry ruleSetIdx before w).2)
  /\ exists what,
       countResults lintedRegistry ruleSetIdx (before ++ ruleId :: after) w
       = (Throw (TypeError what),
          (countResults lintedRegistry ruleSetIdx before w).2).
Proof.
  intros Hbefore Hbad.
  destruct (countResults_run lintedRegistry ruleSetIdx before w)
    as (r1 & Hrun1 & Hok1).
  destruct (countResults_run lintedRegistry ruleSetIdx
              (before ++ ruleId :: after) w) as (r2 & Hrun2 & Hok2).
  rewrite Hrun1, Hrun2. cbn [snd].
  rewrite countedItems_stop by assumption. split.
  - f_equal. by apply Hok1.
  - assert (Hne : r2 <> Ok tt).
    { intros H. apply Hok2 in H.
      apply Forall_app in H as [_ [[l Hl] _]%Forall_cons]. congruence. }
    clear Hok2. revert r2 Hrun2 Hne.
    induction before as [|r before IH] in w, Hbefore |- *; intros r2 Hrun2 Hne.
    + simpl in Hrun2. unfold itemOf in Hbad.
      destruct (lintedRegistry !! ruleId) as [items|]; simpl in *.
      * rewrite Hbad in Hrun2. injection Hrun2 as <-. eauto.
      * injection Hrun2 as <-. eauto.
    + destruct r2 as [[]|[what|what]]; [done|eauto|].
      exfalso. apply Forall_cons in Hbefore as [[l Hl] Hbefore].
      simpl in Hrun2. unfold itemOf in Hl.
      destruct (lintedRegistry !! r) as [items|]; [|discriminate].
      simpl in Hl. rewrite Hl in Hrun2. unfold bind in Hrun2.
      destruct (getItem l w) as [it w0].
      destruct (setErrorCount l _ w0) as [[] w1].
      destruct (countResults_run lintedRegistry ruleSetIdx
                  (before ++ ruleId :: after) w1) as (r3 & Hrun3 & _).
      rewrite Hrun3 in Hrun2. injection Hrun2 as -> _.
      destruct (IH w1 Hbefore (Throw (ExternalError what)) Hrun3)
        as [what' Hw]; [discriminate|]. discriminate.
Qed.

End PassTheorems.

(** X12, at an input: nothing is stripped of rule "r". *)
Lemma lintSourceCode_clean_witness :
  let r := lintSourceCode quietVerify demoRegistry emptyConfig false demoWorld in
  (stripFailingConfigs r.1 r.2).1 !! "r" = Some [0; 1; 2; 3; 4].
Proof.
  intros r. subst r.
  rewrite (lintSourceCode_clean quietVerify demoRegistry emptyConfig false
             demoWorld "r").
  - vm_compute. reflexivity.
  - intros sourceCode lintConfig. left. reflexivity.
  - intros rule items l Hrule Hl. unfold demoRegistry in Hrule.
    apply lookup_singleton_Some in Hrule as [<- <-].
    repeat (apply elem_of_cons in Hl as [->|Hl]; [reflexivity|]).
    by apply elem_of_nil in Hl.
Defined.

(** X14, at an input: a message without a rule, whose id reads "null",
    after a message of "semi". *)
Lemma countResults_stops_witness :
  exists what,
    countResults semiRegistry 0 ["semi"; "null"; "semi"] semiWorld
    = (Throw (TypeError what), (countResults semiRegistry 0 ["semi"] semiWorld).2).
Proof.
  apply (countResults_stops semiRegistry 0 ["semi"] "null" ["semi"] semiWorld).
  - repeat constructor. vm_compute. eauto.
  - vm_compute. reflexivity.
Defined.

(** ** Filling a registry *)

Section FillFacts.
Context {SourceCode : Type}.
Implicit Types w : @world SourceCode.

Lemma mapM_newItem (configs : list ruleConfig) :
  forall w,
    mapM (fun config =>
            newItem (RegistryItem config (config_specificity config) Undefined))
         configs w
    = (seq (length (heap w)) (length configs),
       World (heap w ++ map freshItem configs) (sourceCodes w) (trace w)).
Proof.
  induction configs as [|c configs IH]; intros w.
  - simpl. unfold ret. rewrite app_nil_r. by destruct w.
  - cbn [mapM]. unfold bind, newItem at 1. rewrite IH. unfold ret. simpl.
    rewrite length_app, <- app_assoc. simpl.
    by rewrite Nat.add_1_r.
Qed.

Lemma configsAt_fresh (configs : list ruleConfig) :
  forall (h more : list registryItem),
    configsAt (h ++ map freshItem configs ++ more)
              (seq (length h) (length configs))
    = configs.
Proof.
  induction configs as [|c configs IH]; intros h more; [reflexivity|].
  simpl. unfold configsAt in *. simpl.
  rewrite list_lookup_middle by reflexivity. simpl. f_equal.
  specialize (IH (h ++ [freshItem c]) more).
  rewrite length_app in IH. simpl in IH. rewrite Nat.add_1_r in IH.
  rewrite <- app_assoc in IH. exact IH.
Qed.

(** The loop of [makeRegistryItems] over some rules. *)
Lemma makeRegistryItems_loop (rulesConfig : RulesConfig) (ks : list string) :
  NoDup ks ->
  forall (acc : Registry) w,
    let r :=
      foldM (fun accumulator ruleId =>
               let* items :=
                 mapM (fun config =>
                         newItem (RegistryItem config
                                    (config_specificity config) Undefined))
                      (default [] (rulesConfig !! ruleId)) in
               ret (<[ruleId := items]> accumulator))
            acc ks w in
    (exists configs, heap r.2 = heap w ++ map freshItem configs)
    /\ (forall k, k ∉ ks -> r.1 !! k = acc !! k)
    /\ (forall k, k ∈ ks ->
          exists items,
            r.1 !! k = Some items
            /\ (forall more, configsAt (heap r.2 ++ more) items
                             = default [] (rulesConfig !! k))
            /\ Forall (fun l => length (heap w) <= l < length (heap r.2)) items).
Proof.
  induction 1 as [|x ks Hx _ IH]; intros acc w.
  - simpl. split; [exists []; by rewrite app_nil_r|].
    split; [reflexivity|]. intros k Hk. by apply elem_of_nil in Hk.
  - set (configs := default [] (rulesConfig !! x)).
    set (w1 := World (heap w ++ map freshItem configs) (sourceCodes w) (trace w)).
    cbv zeta.
    match goal with
    | |- context [foldM ?F acc (x :: ks) w] =>
        assert (Hstep : foldM F acc (x :: ks) w
                        = foldM F (<[x := seq (length (heap w))
                                              (length configs)]> acc) ks w1)
          by (cbn [foldM]; unfold bind; by rewrite mapM_newItem);
        rewrite Hstep; clear Hstep
    end.
    specialize (IH (<[x := seq (length (heap w)) (length configs)]> acc) w1).
    destruct (foldM _ _ ks w1) as [reg w2].
    destruct IH as ((new & Hnew) & Hout & Hin). cbn [fst snd] in *.
    subst w1. simpl in *. rewrite <- app_assoc, <- map_app in Hnew.
    split; [eauto|]. split.
    + intros k Hk. apply not_elem_of_cons in Hk as [Hne Hk].
      rewrite Hout by assumption. by rewrite lookup_insert_ne.
    + intros k [->|Hk]%elem_of_cons.
      * exists (seq (length (heap w)) (length configs)).
        rewrite Hout by assumption. rewrite lookup_insert_eq.
        split; [reflexivity|]. split.
        -- intros more. rewrite Hnew, map_app, <- !app_assoc.
           apply configsAt_fresh.
        -- apply Forall_forall. intros l Hl%elem_of_seq.
           rewrite Hnew, length_app, length_map, length_app. lia.
      * destruct (Hin k Hk) as (items & Hitems & Hconfigs & Hrange).
        exists items. split; [assumption|]. split; [assumption|].
        eapply Forall_impl; [exact Hrange|]. simpl. intros l.
        rewrite length_app, length_map. lia.
Qed.

(** [makeRegistryItems] as a whole. *)
Lemma makeRegistryItems_spec (rulesConfig : RulesConfig) w :
  let r := makeRegistryItems rulesConfig w in
  (forall rule, configsAt (heap r.2) <$> r.1 !! rule = rulesConfig !! rule)
  /\ (exists configs, heap r.2 = heap w ++ map freshItem configs)
  /\ (forall rule items l,
        r.1 !! rule = Some items -> l ∈ items ->
        length (heap w) <= l < length (heap r.2)).
Proof.
  unfold makeRegistryItems.
  destruct (makeRegistryItems_loop rulesConfig (keys rulesConfig)
              (keys_NoDup _) ∅ w) as (Hnew & Hout & Hin).
  split; [|split; [exact Hnew|]].
  - intros rule. destruct (rulesConfig !! rule) as [configs|] eqn:Hrule.
    + destruct (Hin rule) as (items & -> & Hconfigs & _).
      { apply elem_of_keys. eauto. }
      simpl. specialize (Hconfigs []). rewrite app_nil_r in Hconfigs.
      by rewrite Hconfigs, Hrule.
    + rewrite Hout; [by rewrite lookup_empty|].
      rewrite elem_of_keys, Hrule. by intros [? ?].
  - intros rule items l Hitems Hl.
    destruct (decide (rule ∈ keys rulesConfig)) as [Hk|Hk].
    + destruct (Hin rule Hk) as (items' & Hitems' & _ & Hrange).
      rewrite Hitems in Hitems'. injection Hitems' as <-.
      by apply (proj1 (Forall_forall _ _) Hrange).
    + rewrite Hout, lookup_empty in Hitems by assumption. discriminate.
Qed.

(** X15. [makeRegistryItems] gives every rule of the configurations one
    new item for each of its configurations, in their order: reading the
    configurations of the items of a rule gives the configurations of the
    rule.  The new items have no count, and [config.length || 1] as their
    specificity; the items that were there, the files and the console are
    as before. *)
Theorem makeRegistryItems_items (rulesConfig : RulesConfig) w :
  let r := makeRegistryItems rulesConfig w in
  (forall rule, configsAt (heap r.2) <$> r.1 !! rule = rulesConfig !! rule)
  /\ (exists configs, heap r.2 = heap w ++ map freshItem configs)
  /\ (forall rule items l,
        r.1 !! rule = Some items -> l ∈ items ->
        length (heap w) <= l < length (heap r.2))
  /\ sourceCodes r.2 = sourceCodes w
  /\ trace r.2 = trace w.
Proof.
  destruct (makeRegistryItems_spec rulesConfig w) as (H1 & H2 & H3).
  destruct (heapOnly_makeRegistryItems rulesConfig w) as [H4 H5].
  auto 10.
Qed.

End FillFacts.

(** ** Obtaining the source code *)

Section ObtainFacts.
Context {SourceCode : Type}.
Implicit Types w : @world SourceCode.
Context (listFilesToProcess : list string)
        (getSourceCodeOfFile : string -> option SourceCode).

Lemma foldM_cons {S A B : Type} (f : B -> A -> State S B) (b : B) (x : A)
    (l : list A) (s : S) :
  foldM f b (x :: l) s = foldM f (f b x s).1 l (f b x s).2.
Proof. simpl. unfold bind. by destruct (f b x s). Qed.

Lemma getSourceCodeOfFiles_loop (cb : bool) (total : nat)
    (filenames : list string) :
  forall w,
    let r :=
      foldM (fun _ filename =>
               let* _ :=
                 match getSourceCodeOfFile filename with
                 | Some sourceCode => setSourceCode filename sourceCode
                 | None => ret tt
                 end in
               if cb then emit (EvProgress total) else ret tt)
            tt filenames w in
    heap r.2 = heap w
    /\ (forall f,
          sourceCodes r.2 !! f
          = if bool_decide (f ∈ filenames)
            then match getSourceCodeOfFile f with
                 | Some sourceCode => Some (Some sourceCode)
                 | None => sourceCodes w !! f
                 end
            else sourceCodes w !! f)
    /\ progressCalls (trace r.2)
       = progressCalls (trace w)
         ++ (if cb then replicate (length filenames) total else [])
    /\ verifyCalls (trace r.2) = verifyCalls (trace w).
Proof.
  induction filenames as [|x filenames IH]; intros w.
  - simpl. destruct cb; rewrite app_nil_r; auto.
  - cbv zeta. rewrite foldM_cons.
    set (w1 := (let* _ := _ in _) w).
    assert (Hw1 : heap w1.2 = heap w
                  /\ sourceCodes w1.2
                     = match getSourceCodeOfFile x with
                       | Some sourceCode =>
                           <[x := Some sourceCode]> (sourceCodes w)
                       | None => sourceCodes w
                       end
                  /\ progressCalls (trace w1.2)
                     = progressCalls (trace w) ++ (if cb then [total] else [])
                  /\ verifyCalls (trace w1.2) = verifyCalls (trace w)).
    { subst w1. unfold bind, setSourceCode, emit, ret.
      destruct (getSourceCodeOfFile x), cb; simpl;
        rewrite ?progressCalls_app, ?verifyCalls_app, ?app_nil_r; auto. }
    destruct w1 as [[] w1]. destruct Hw1 as (Hh & Hs & Hp & Hv).
    cbv beta iota. cbn [fst snd] in *.
    specialize (IH w1). cbv zeta in IH.
    destruct (foldM _ tt filenames w1) as [[] w2].
    destruct IH as (Hh2 & Hs2 & Hp2 & Hv2). cbn [fst snd] in *.
    split; [congruence|]. split; [|split].
    + intros f. rewrite Hs2, Hs.
      destruct (decide (f = x)) as [->|Hne].
      * rewrite (bool_decide_eq_true_2 (x ∈ x :: filenames)) by left.
        destruct (getSourceCodeOfFile x) as [sourceCode|].
        -- rewrite lookup_insert_eq. by case_bool_decide.
        -- by case_bool_decide.
      * assert (Hl : match getSourceCodeOfFile x with
                     | Some sourceCode =>
                         <[x := Some sourceCode]> (sourceCodes w)
                     | None => sourceCodes w
                     end !! f = sourceCodes w !! f).
        { destruct (getSourceCodeOfFile x); [|reflexivity].
          by apply lookup_insert_ne. }
        rewrite Hl.
        replace (bool_decide (f ∈ x :: filenames))
          with (bool_decide (f ∈ filenames)); [reflexivity|].
        apply bool_decide_ext. rewrite elem_of_cons.
        split; [auto | intros [?|?]; [congruence|assumption]].
    + rewrite Hp2, Hp, <- app_assoc. by destruct cb.
    + congruence.
Qed.

(** X16. [getSourceCodeOfFiles] returns an object that has exactly the
    files listed whose source could be obtained, each with its source; a
    file without one is left out.  The callback, if there is one, is called
    once for every file listed, also for those left out, each time with the
    number of the files listed.  No registry item is touched and the linter
    is not called. *)
Theorem getSourceCodeOfFiles_result (cb : bool) w :
  let r := getSourceCodeOfFiles listFilesToProcess getSourceCodeOfFile cb w in
  r.1 = sourceCodes r.2
  /\ (forall f,
        r.1 !! f = if bool_decide (f ∈ listFilesToProcess)
                   then Some <$> getSourceCodeOfFile f
                   else None)
  /\ heap r.2 = heap w
  /\ progressCalls (trace r.2)
     = progressCalls (trace w)
       ++ (if cb
           then replicate (length listFilesToProcess)
                          (length listFilesToProcess)
           else [])
  /\ verifyCalls (trace r.2) = verifyCalls (trace w).
Proof.
  unfold getSourceCodeOfFiles, bind, newSourceCodes.
  pose proof (getSourceCodeOfFiles_loop cb (length listFilesToProcess)
                listFilesToProcess (World (heap w) ∅ (trace w)))
    as (Hh & Hs & Hp & Hv).
  destruct (foldM _ tt listFilesToProcess _) as [[] w1].
  unfold getSourceCodes. cbn [fst snd heap sourceCodes trace] in *.
  split; [reflexivity|]. split; [|auto].
  intros f. rewrite Hs, lookup_empty.
  by destruct (getSourceCodeOfFile f).
Qed.

End ObtainFacts.

(** ** Extending the recommended configuration, further *)

Section ExtendFacts.
Context (recConfig : RuleSet).

(** X17. [extendFromRecommended] adds no rule and changes none: every rule
    of the configuration it returns is a rule of the configuration it was
    given, with the same configuration; the other properties are kept. *)
Theorem extendFromRecommended_subset (config : eslintConfig) :
  rules (extendFromRecommended recConfig config) ⊆ rules config
  /\ others (extendFromRecommended recConfig config) = others config.
Proof.
  split; [|reflexivity].
  apply map_subseteq_spec. intros ruleId c.
  rewrite extendFromRecommended_lookup.
  by destruct (_ && _).
Qed.

(** X18. [extendFromRecommended] is idempotent. *)
Theorem extendFromRecommended_idempotent (config : eslintConfig) :
  extendFromRecommended recConfig (extendFromRecommended recConfig config)
  = extendFromRecommended recConfig config.
Proof.
  assert (Hrules : rules (extendFromRecommended recConfig
                            (extendFromRecommended recConfig config))
                   = rules (extendFromRecommended recConfig config)).
  { apply map_eq. intros ruleId.
    pose proof (extendFromRecommended_lookup recConfig config ruleId) as Hl.
    rewrite extendFromRecommended_lookup.
    set (E := extendFromRecommended recConfig config) in *.
    destruct (recommendedError recConfig ruleId); [|reflexivity].
    cbn [andb] in *.
    destruct (sameAsRecommended recConfig (rules E) ruleId) eqn:Hsame;
      [|reflexivity].
    destruct (sameAsRecommended recConfig (rules config) ruleId) eqn:Hsame0;
      [by rewrite Hl|].
    rewrite (sameAsRecommended_ext recConfig _ _ _ Hl) in Hsame. congruence. }
  unfold extendFromRecommended at 1 3. simpl. f_equal.
  exact Hrules.
Qed.

End ExtendFacts.

(** ** Configuring the rules, further *)

Section CoreRuleFacts.
Context (coreRules : gmap string schema).

Lemma createConfigs_loop (ks : list string) :
  (forall k, k ∈ ks -> is_Some (coreRules !! k)) ->
  forall (acc : RulesConfig) (rulesConfig : RulesConfig),
    foldl (fun accumulator id =>
             match accumulator with
             | Throw e => Throw e
             | Ok accumulator =>
                 match generateConfigsFromSchema
                         (default SchemaOther (coreRules !! id)) with
                 | Ok configs => Ok (<[id := configs]> accumulator)
                 | Throw e => Throw e
                 end
             end) (Ok acc) ks = Ok rulesConfig ->
    forall id,
      rulesConfig !! id
      = (if bool_decide (id ∈ ks) then coreRules !! id ≫= configsOf
         else acc !! id)
      /\ (id ∈ ks -> is_Some (rulesConfig !! id)).
Proof.
  induction ks as [|x ks IH]; intros Hks acc rulesConfig.
  - cbn [foldl]. intros [= <-] id.
    rewrite bool_decide_eq_false_2 by apply not_elem_of_nil.
    split; [reflexivity|]. by intros ?%elem_of_nil.
  - cbn [foldl]. destruct (Hks x) as [sch Hsch]; [left|].
    rewrite Hsch. change (default SchemaOther (Some sch)) with sch.
    destruct (generateConfigsFromSchema sch) as [configs|e] eqn:Hgen.
    + intros Hfold id.
      assert (Hks' : forall k, k ∈ ks -> is_Some (coreRules !! k))
        by (intros k Hk; apply Hks; by right).
      destruct (IH Hks' _ _ Hfold id) as [Hid Hsome].
      destruct (decide (id = x)) as [->|Hne].
      * rewrite (bool_decide_eq_true_2 (x ∈ x :: ks)) by left.
        assert (Hx : rulesConfig !! x = Some configs).
        { rewrite Hid, Hsch. simpl. unfold configsOf. rewrite Hgen.
          case_bool_decide; [reflexivity|by rewrite lookup_insert_eq]. }
        rewrite Hx, Hsch. simpl. unfold configsOf. rewrite Hgen.
        split; [reflexivity|eauto].
      * rewrite lookup_insert_ne in Hid by congruence.
        replace (bool_decide (id ∈ x :: ks)) with (bool_decide (id ∈ ks)).
        -- split; [exact Hid|]. intros [?|Hin]%elem_of_cons; [done|auto].
        -- apply bool_decide_ext. rewrite elem_of_cons.
           split; [auto | intros [?|?]; [congruence|assumption]].
    + intros Hfold. exfalso. clear -Hfold.
      induction ks as [|y ks IHks]; [discriminate|]. by apply IHks.
Qed.

Lemma createConfigsForCoreRules_lookup (rulesConfig : RulesConfig) :
  createConfigsForCoreRules coreRules = Ok rulesConfig ->
  forall id,
    rulesConfig !! id = coreRules !! id ≫= configsOf
    /\ (is_Some (rulesConfig !! id) <-> is_Some (coreRules !! id)).
Proof.
  intros H id. unfold createConfigsForCoreRules in H.
  destruct (createConfigs_loop (keys coreRules)
              (fun k Hk => proj1 (elem_of_keys _ _) Hk) ∅ rulesConfig H id)
    as [Hid Hsome].
  assert (Hl : rulesConfig !! id = coreRules !! id ≫= configsOf).
  { rewrite Hid. case_bool_decide as Hin; [reflexivity|].
    rewrite lookup_empty. destruct (coreRules !! id) eqn:E; [|reflexivity].
    exfalso. apply Hin, elem_of_keys. eauto. }
  split; [exact Hl|]. split.
  - rewrite Hl. destruct (coreRules !! id); [eauto|by intros [? ?]].
  - intros Hc. apply Hsome. by apply elem_of_keys.
Qed.

End CoreRuleFacts.

Section ConfigureTheorems.
Context {SourceCode : Type}.
Implicit Types w : @world SourceCode.
Context (verify : option SourceCode -> eslintConfig -> verifyOutcome)
        (listFilesToProcess : list string)
        (getSourceCodeOfFile : string -> option SourceCode)
        (coreRules : gmap string schema)
        (inquirerUi_complete : result unit).

Lemma bind_run {S A B : Type} (m : State S A) (k : A -> State S B) (s : S) :
  bind m k s = k (m s).1 (m s).2.
Proof. unfold bind. by destruct (m s). Qed.

Lemma getSourceCodeOfFiles_heap (cb : bool) w :
  heap (getSourceCodeOfFiles listFilesToProcess getSourceCodeOfFile cb w).2
  = heap w.
Proof.
  unfold getSourceCodeOfFiles, bind, newSourceCodes.
  pose proof (getSourceCodeOfFiles_loop getSourceCodeOfFile cb
                (length listFilesToProcess) listFilesToProcess
                (World (heap w) ∅ (trace w))) as (Hh & _).
  by destruct (foldM _ tt listFilesToProcess _) as [[] w1].
Qed.

(** [configureRules] up to its last call of a method the registry has, step
    by step. *)
Lemma configureRules_registry_run (config : eslintConfig) w :
  let g := getSourceCodeOfFiles listFilesToProcess getSourceCodeOfFile true w in
  let noFiles := Nat.eqb (length (keys g.1)) 0 in
  let w0 :=
    if noFiles
    then World (heap g.2) (sourceCodes g.2)
               (trace g.2 ++ [EvConsoleError "Failed. No files resolved from: ";
                              EvUiComplete])
    else g.2 in
  configureRules_registry verify listFilesToProcess getSourceCodeOfFile
    coreRules inquirerUi_complete config w
  = match (if noFiles then inquirerUi_complete else Ok tt) with
    | Throw e => (Throw e, w0)
    | Ok _ =>
        match createConfigsForCoreRules coreRules with
        | Throw e => (Throw e, w0)
        | Ok rulesConfig =>
            let p := makeRegistryItems rulesConfig w0 in
            let r := lintSourceCode verify p.1 config true p.2 in
            (Ok r.1, r.2)
        end
    end.
Proof.
  cbv zeta. unfold configureRules_registry. unfold bind at 1.
  destruct (getSourceCodeOfFiles _ _ true w) as [sourceCodes g2].
  cbn [fst snd].
  assert (Hrest : forall w0,
    (let* populated := populateFromCoreRules coreRules in
     match populated with
     | Ok registry =>
         let* registry := lintSourceCode verify registry config true in
         let* _ := stripFailingConfigs registry in ret (Ok registry)
     | Throw e => ret (Throw e)
     end) w0
    = match createConfigsForCoreRules coreRules with
      | Throw e => (Throw e, w0)
      | Ok rulesConfig =>
          (Ok (lintSourceCode verify (makeRegistryItems rulesConfig w0).1 config
                 true (makeRegistryItems rulesConfig w0).2).1,
           (lintSourceCode verify (makeRegistryItems rulesConfig w0).1 config
              true (makeRegistryItems rulesConfig w0).2).2)
      end).
  { intros w0. unfold populateFromCoreRules.
    destruct (createConfigsForCoreRules coreRules) as [rulesConfig|e];
      [|reflexivity].
    unfold bind. destruct (makeRegistryItems rulesConfig w0) as [populated w1].
    unfold ret at 1. cbn [fst snd].
    destruct (lintSourceCode verify populated config true w1) as [linted w2].
    by rewrite stripFailingConfigs_run. }
  destruct (Nat.eqb (length (keys sourceCodes)) 0).
  - unfold bind at 1. unfold bind at 1. unfold bind at 1. unfold emit, ret.
    cbn [fst snd heap trace]. rewrite <- app_assoc. cbn [app].
    destruct inquirerUi_complete as [[]|e]; [|reflexivity].
    apply Hrest.
  - unfold bind at 1. unfold ret at 1. apply Hrest.
Qed.

Lemma configureRules_run (config : eslintConfig) w :
  configureRules verify listFilesToProcess getSourceCodeOfFile coreRules
    inquirerUi_complete config w
  = (match (configureRules_registry verify listFilesToProcess
              getSourceCodeOfFile coreRules inquirerUi_complete config w).1 with
     | Ok _ =>
         Throw (TypeError "registry.getRulesWithOneConfig is not a function")
     | Throw e => Throw e
     end,
     (configureRules_registry verify listFilesToProcess getSourceCodeOfFile
        coreRules inquirerUi_complete config w).2).
Proof.
  unfold configureRules. rewrite bind_run.
  by destruct (configureRules_registry _ _ _ _ _ _ _).1.
Qed.

(** X19. [configureRules] returns no configuration: every run ends in an
    exception.  It is the one that [inquirerUi.complete()] throws, or the
    one that [generateConfigsFromSchema] throws on the schema of a core rule,
    both before any registry item is made; or else it is the [TypeError] of
    calling [getRulesWithOneConfig], which the registry has not, and then the
    state is the one the linting pass over the items of the core rules
    left. *)
Theorem configureRules_throws (config : eslintConfig) w :
  let r := configureRules verify listFilesToProcess getSourceCodeOfFile
             coreRules inquirerUi_complete config w in
  exists e,
    r.1 = Throw e
    /\ (inquirerUi_complete = Throw e /\ heap r.2 = heap w
        \/ createConfigsForCoreRules coreRules = Throw e /\ heap r.2 = heap w
        \/ e = TypeError "registry.getRulesWithOneConfig is not a function"
           /\ exists (rulesConfig : RulesConfig) (populated : Registry) w0 w1,
                createConfigsForCoreRules coreRules = Ok rulesConfig
                /\ heap w0 = heap w
                /\ makeRegistryItems rulesConfig w0 = (populated, w1)
                /\ r.2 = (lintSourceCode verify populated config true w1).2).
Proof.
  cbv zeta. rewrite configureRules_run, configureRules_registry_run.
  cbv zeta.
  pose proof (getSourceCodeOfFiles_heap true w) as Hheap.
  set (g := getSourceCodeOfFiles listFilesToProcess getSourceCodeOfFile true w)
    in *.
  set (w0 := if Nat.eqb (length (keys g.1)) 0 then _ else g.2).
  assert (Hw0 : heap w0 = heap w).
  { subst w0. by destruct (Nat.eqb (length (keys g.1)) 0). }
  destruct (if Nat.eqb (length (keys g.1)) 0 then inquirerUi_complete
            else Ok tt) as [[]|e] eqn:Hui.
  - destruct (createConfigsForCoreRules coreRules) as [rulesConfig|e] eqn:Hcore.
    + cbn [fst snd ret]. eexists. split; [reflexivity|]. right. right.
      split; [reflexivity|].
      exists rulesConfig, (makeRegistryItems rulesConfig w0).1, w0,
        (makeRegistryItems rulesConfig w0).2.
      split; [reflexivity|]. split; [exact Hw0|].
      split; [by destruct (makeRegistryItems rulesConfig w0)|reflexivity].
    + exists e. split; [reflexivity|]. right. left. by split.
  - exists e. split; [reflexivity|]. left. split; [|exact Hw0].
    destruct (Nat.eqb (length (keys g.1)) 0); [exact Hui|discriminate].
Qed.

Lemma getSourceCodeOfFiles_none_loop (cb : bool) (total : nat)
    (filenames : list string) :
  Forall (fun f => getSourceCodeOfFile f = None) filenames ->
  forall w,
    foldM (fun _ filename =>
             let* _ :=
               match getSourceCodeOfFile filename with
               | Some sourceCode => setSourceCode filename sourceCode
               | None => ret tt
               end in
             if cb then emit (EvProgress total) else ret tt)
          tt filenames w
    = (tt, World (heap w) (sourceCodes w)
                 (trace w ++ if cb
                             then replicate (length filenames) (EvProgress total)
                             else [])).
Proof.
  induction 1 as [|f filenames Hf _ IH]; intros w.
  - destruct w, cb; simpl; by rewrite app_nil_r.
  - rewrite foldM_cons, Hf. unfold bind, ret. cbn [fst snd].
    destruct cb; cbn [fst snd emit ret]; rewrite IH; cbn [heap sourceCodes trace].
    + by rewrite <- app_assoc.
    + reflexivity.
Qed.

Lemma getSourceCodeOfFiles_none (cb : bool) w :
  Forall (fun f => getSourceCodeOfFile f = None) listFilesToProcess ->
  getSourceCodeOfFiles listFilesToProcess getSourceCodeOfFile cb w
  = (∅, World (heap w) ∅
              (trace w ++ if cb
                          then replicate (length listFilesToProcess)
                                 (EvProgress (length listFilesToProcess))
                          else [])).
Proof.
  intros Hnone. unfold getSourceCodeOfFiles.
  rewrite bind_run, bind_run.
  by rewrite (getSourceCodeOfFiles_none_loop cb _ _ Hnone).
Qed.

(** X28. When no file listed has source, [configureRules] reports the
    failure on the console and asks the prompt to complete, after one
    progress report for every file listed, and nothing else is written: the
    linter is not called.  If completing the prompt throws, that is the
    outcome.  If it returns, [configureRules] does not stop there: it
    generates the configurations of the core rules, makes their registry
    items and builds the rule sets, and ends in the [TypeError] of the call
    of [getRulesWithOneConfig]. *)
Theorem configureRules_zero_files (config : eslintConfig) w :
  Forall (fun f => getSourceCodeOfFile f = None) listFilesToProcess ->
  let r := configureRules verify listFilesToProcess getSourceCodeOfFile
             coreRules inquirerUi_complete config w in
  let n := length listFilesToProcess in
  let w0 :=
    World (heap w) ∅
          (trace w ++ replicate n (EvProgress n)
                   ++ [EvConsoleError "Failed. No files resolved from: ";
                       EvUiComplete]) in
  trace r.2 = trace w0
  /\ sourceCodes r.2 = ∅
  /\ match inquirerUi_complete with
     | Throw e => r = (Throw e, w0)
     | Ok _ =>
         match createConfigsForCoreRules coreRules with
         | Throw e => r = (Throw e, w0)
         | Ok rulesConfig =>
             r.1 = Throw (TypeError
                            "registry.getRulesWithOneConfig is not a function")
             /\ heap r.2
                = heap ((let* populated := makeRegistryItems rulesConfig in
                         buildRuleSets populated) w0).2
         end
     end.
Proof.
  intros Hnone. cbv zeta. rewrite configureRules_run.
  rewrite configureRules_registry_run. cbv zeta.
  rewrite (getSourceCodeOfFiles_none true w Hnone).
  cbn [fst snd heap sourceCodes trace]. rewrite keys_empty.
  change (Nat.eqb (length (@nil string)) 0) with true. cbv iota.
  rewrite <- app_assoc.
  set (w0 := World (heap w) ∅ _).
  destruct inquirerUi_complete as [[]|e]; [|by repeat split].
  destruct (createConfigsForCoreRules coreRules) as [rulesConfig|e];
    [|by repeat split].
  rewrite bind_run.
  destruct (heapOnly_makeRegistryItems rulesConfig w0) as [Hs1 Ht1].
  destruct (makeRegistryItems rulesConfig w0) as [populated w1].
  cbn [fst snd] in *.
  pose proof (lintSourceCode_no_files verify populated config true w1 Hs1)
    as Ht2.
  destruct (lintSourceCode_effect verify populated config true w1)
    as [Hs2 _].
  destruct (lintSourceCode_run verify populated config true w1)
    as (_ & Hh2 & _).
  cbv zeta in *.
  destruct (lintSourceCode verify populated config true w1) as [linted w2].
  cbn [fst snd ret] in *.
  split; [by rewrite Ht2, Ht1|].
  split; [rewrite Hs2, Hs1; apply fmap_empty|].
  split; [reflexivity|].
  rewrite Hh2. unfold passItems. rewrite Hs1.
  change (sourceCodes w0) with (∅ : gmap string (option SourceCode)).
  rewrite keys_empty. reflexivity.
Qed.

End ConfigureTheorems.

(** X28, at an input: the one file listed has no source. *)
Lemma configureRules_zero_files_witness :
  (configureRules demoVerify ["f.js"] (fun _ => None) demoRules (Ok tt)
     emptyConfig emptyWorld).1
  = Throw (TypeError "registry.getRulesWithOneConfig is not a function").
Proof.
  refine (proj1 (proj2 (proj2 (configureRules_zero_files demoVerify ["f.js"]
                                 (fun _ => None) demoRules (Ok tt) emptyConfig
                                 emptyWorld _)))).
  repeat constructor.
Defined.

(** ** The configuration wizard *)

Lemma obj_get_set_eq {V : Type} (k : string) (v : V) (o : list (string * V)) :
  obj_get k (obj_set k v o) = Some v.
Proof.
  induction o as [|[k' v'] o IH]; simpl.
  - by rewrite String.eqb_refl.
  - destruct (String.eqb_spec k' k) as [->|Hne]; simpl.
    + by rewrite String.eqb_refl.
    + destruct (String.eqb_spec k' k); [done|exact IH].
Qed.

Lemma obj_get_set_ne {V : Type} (k k' : string) (v : V)
    (o : list (string * V)) :
  k <> k' -> obj_get k' (obj_set k v o) = obj_get k' o.
Proof.
  intros Hne. induction o as [|[k0 v0] o IH]; simpl.
  - destruct (String.eqb_spec k k'); [done|reflexivity].
  - destruct (String.eqb_spec k0 k) as [->|Hne0]; simpl.
    + destruct (String.eqb_spec k k'); [done|reflexivity].
    + destruct (String.eqb_spec k0 k'); [reflexivity|exact IH].
Qed.

Lemma obj_set_keys {V : Type} (k : string) (v : V) (o : list (string * V)) :
  (obj_set k v o).*1 = if decide (k ∈ o.*1) then o.*1 else o.*1 ++ [k].
Proof.
  induction o as [|[k' v'] o IH].
  - destruct (decide _) as [Hin|_]; [by apply elem_of_nil in Hin|reflexivity].
  - cbn [obj_set]. rewrite (fmap_cons fst (k', v') o). cbn [fst].
    destruct (String.eqb_spec k' k) as [->|Hne].
    + rewrite fmap_cons. cbn [fst]. by rewrite decide_True by left.
    + rewrite fmap_cons, IH. cbn [fst].
      destruct (decide (k ∈ o.*1)) as [Hin|Hin].
      * by rewrite decide_True by (by right).
      * rewrite decide_False; [reflexivity|].
        intros [?|?]%elem_of_cons; [congruence|done].
Qed.

Lemma obj_set_NoDup {V : Type} (k : string) (v : V) (o : list (string * V)) :
  NoDup o.*1 -> NoDup (obj_set k v o).*1.
Proof.
  intros Hnd. rewrite obj_set_keys. case_decide as Hin; [assumption|].
  apply NoDup_app. split; [assumption|]. split.
  - intros x Hx [->|?%elem_of_nil]%elem_of_cons; done.
  - apply NoDup_singleton.
Qed.

(** Setting properties one after the other. *)
Lemma obj_set_all {V : Type} (v : V) (names : list string) :
  forall (o : list (string * V)) (name : string),
    NoDup o.*1 ->
    let o' := foldl (fun o e => obj_set e v o) o names in
    obj_get name o' = (if bool_decide (name ∈ names) then Some v
                       else obj_get name o)
    /\ NoDup o'.*1.
Proof.
  induction names as [|e names IH]; intros o name Hnd.
  - cbn [foldl]. cbv zeta.
    rewrite bool_decide_eq_false_2 by apply not_elem_of_nil. auto.
  - cbn [foldl]. cbv zeta.
    destruct (IH (obj_set e v o) name (obj_set_NoDup e v o Hnd)) as [Hget Hnd'].
    split; [|exact Hnd']. cbv zeta in Hget. rewrite Hget.
    destruct (decide (name = e)) as [->|Hne].
    + rewrite (bool_decide_eq_true_2 (e ∈ e :: names)) by left.
      rewrite obj_get_set_eq. by case_bool_decide.
    + rewrite obj_get_set_ne by congruence.
      replace (bool_decide (name ∈ e :: names))
        with (bool_decide (name ∈ names)); [reflexivity|].
      apply bool_decide_ext. rewrite elem_of_cons.
      split; [auto | intros [?|?]; [congruence|assumption]].
Qed.

Section WizardFacts.
Context {SourceCode : Type}.
Implicit Types w : @world SourceCode.
Context (verify : option SourceCode -> eslintConfig -> verifyOutcome)
        (listFilesToProcess : list string)
        (getSourceCodeOfFile : string -> option SourceCode)
        (coreRules : gmap string schema)
        (inquirerUi_complete : result unit)
        (recConfig : RuleSet).

(** X20. Unless the source is "auto", [processAnswers] touches nothing and
    calls nothing.  Without [env] among the answers it ends in a
    [TypeError], whatever the source.  With it, the [env] of the
    configuration returned has [true] for every environment chosen, and for
    "es6" if ES6 was confirmed, and nothing else, no property twice; and the
    configuration has [plugins] exactly when JSX and React were confirmed. *)
Theorem processAnswers_env (answers : answers) w (name : string) :
  source_is answers "auto" = false ->
  (forall envs, env answers = Some envs -> "__proto__" ∉ envs) ->
  match env answers with
  | None =>
      exists what,
        processAnswers verify listFilesToProcess getSourceCodeOfFile coreRules
          inquirerUi_complete recConfig answers w
        = (Throw (TypeError what), w)
  | Some envs =>
      exists config configEnv,
        processAnswers verify listFilesToProcess getSourceCodeOfFile coreRules
          inquirerUi_complete recConfig answers w
        = (Ok config, w)
        /\ obj_get "env" (others config) = Some (JObj configEnv)
        /\ obj_get name configEnv
           = (if bool_decide (name ∈ envs)
                 || (String.eqb name "es6" && es6 answers)
              then Some (JBool true)
              else None)
        /\ NoDup configEnv.*1
        /\ obj_get "plugins" (others config)
           = (if jsx answers && react answers
              then Some (JArr [JStr "react"])
              else None)
  end.
Proof.
  intros Hauto _. unfold processAnswers. rewrite Hauto.
  destruct (env answers) as [envs|]; [|eauto].
  set (env0 := if es6 answers then [("es6", JBool true)] else []).
  assert (Hnd0 : NoDup env0.*1).
  { subst env0. destruct (es6 answers); simpl.
    - apply NoDup_singleton.
    - apply NoDup_nil_2. }
  destruct (obj_set_all (JBool true) envs env0 name Hnd0) as [Hget Hnd].
  cbv zeta in Hget, Hnd.
  destruct (source_is answers "prompt");
  (eexists _, _; split; [reflexivity|]);
  (split; [reflexivity|]; split; [|split; [exact Hnd|]]).
  all: try (simpl; destruct (jsx answers), (react answers); reflexivity).
  all: rewrite Hget; case_bool_decide; [reflexivity|]; simpl;
    subst env0; destruct (es6 answers); simpl;
    [by rewrite String.eqb_sym, andb_true_r|by rewrite andb_false_r].
Qed.


End WizardFacts.

(** ** Style guides and the configuration file *)

(** X22. [getConfigForStyleGuide] returns the configuration of the guide
    for "google", "airbnb" and "standard", which extends the guide of that
    name; for the name of a member of [Object.prototype] it returns that
    member; for every other name it throws. *)
Theorem getConfigForStyleGuide_supported (guide : string) :
  match getConfigForStyleGuide guide with
  | inl (GuideConfig config) =>
      guide ∈ ["google"; "airbnb"; "standard"]
      /\ obj_get "extends" config = Some (JStr guide)
  | inl (PrototypeMember name) =>
      name = guide /\ inherited guide = true
      /\ guide ∉ ["google"; "airbnb"; "standard"]
  | inr message =>
      message = "You referenced an unsupported guide."
      /\ inherited guide = false
      /\ guide ∉ ["google"; "airbnb"; "standard"]
  end.
Proof.
  unfold getConfigForStyleGuide, guides. cbn [obj_get].
  destruct (String.eqb_spec "google" guide) as [<-|H1].
  { split; [left|reflexivity]. }
  destruct (String.eqb_spec "airbnb" guide) as [<-|H2].
  { split; [right; left|reflexivity]. }
  destruct (String.eqb_spec "standard" guide) as [<-|H3].
  { split; [right; right; left|reflexivity]. }
  assert (Hnot : guide ∉ ["google"; "airbnb"; "standard"]).
  { intros Hin. repeat (apply elem_of_cons in Hin as [->|Hin]; [done|]).
    by apply elem_of_nil in Hin. }
  destruct (inherited guide); auto.
Qed.

Section FileFacts.
Context (ConfigFile_write : list (string * jsval) -> string -> result unit)
        (cwd : string)
        (exec : list jsval -> option exn).

(** X23. Whatever happens, [writeFile] ends in one of two ways, and only
    once: it calls the callback, or an exception is thrown.  Nothing follows
    that, and the callback is never called twice.  The first thing it does
    is to write the file, named after the format: ".yml" for "YAML", ".json"
    for "JSON" and ".js" for anything else. *)
Theorem writeFile_ends_once (config : list (string * jsval)) (format : string) :
  exists before last,
    writeFile ConfigFile_write cwd exec config format
    = EvWriteConfig ("./.eslintrc" +:+ extname format) :: before ++ [last]
    /\ final last = true
    /\ Forall (fun e => final e = false) before
    /\ extname format ∈ [".yml"; ".json"; ".js"].
Proof.
  assert (Hext : extname format ∈ [".yml"; ".json"; ".js"]).
  { unfold extname. destruct (String.eqb format "YAML"); [left|].
    destruct (String.eqb format "JSON"); [right; left|right; right; left]. }
  unfold writeFile.
  destruct (ConfigFile_write _ _) as [[]|e].
  - destruct (if truthy _ then _ else _) as [[|]|].
    + destruct (exec _) as [err|].
      * eexists [_; _; _], _. simpl. repeat split; auto.
      * destruct (first_element _) as [plugin|].
        -- eexists [_; _; _; _], _. simpl. repeat split; auto.
        -- eexists [_; _; _], _. simpl. repeat split; auto.
    + destruct (if truthy _ then _ else _) as [[|]|].
      * eexists [_], _. simpl. repeat split; auto.
      * eexists [_; _; _], _. simpl. repeat split; auto.
      * eexists [_], _. simpl. repeat split; auto.
    + eexists [_], _. simpl. repeat split; auto.
  - exists [], (EvCallback (Some e)). simpl. repeat split; auto.
Qed.

(** X24. A configuration that extends something other than an "eslint"
    configuration and has no plugins makes [writeFile] fail once the
    configuration it extends is installed: reading the first plugin throws a
    [TypeError] in the callback of the installation, and the callback of
    [writeFile] is never called. *)
Theorem writeFile_without_plugins (config : list (string * jsval))
    (format : string) (name : string) :
  ConfigFile_write config ("./.eslintrc" +:+ extname format) = Ok tt ->
  obj_get "extends" config = Some (JStr name) ->
  name <> EmptyString -> String.index 0 "eslint" name = None ->
  obj_get "plugins" config = None ->
  exec [JStr "npm i eslint-config-"; JStr name; JStr " --save-dev"] = None ->
  exists what,
    writeFile ConfigFile_write cwd exec config format
    = [EvWriteConfig ("./.eslintrc" +:+ extname format);
       EvLog ("Successfully created .eslintrc" +:+ extname format
              +:+ " file in " +:+ cwd);
       EvLog "Installing additional dependencies";
       EvExec [JStr "npm i eslint-config-"; JStr name; JStr " --save-dev"];
       EvThrowInCallback (TypeError what)].
Proof.
  intros Hwrite Hextends Hname Hindex Hplugins Hexec.
  unfold writeFile. rewrite Hwrite, Hextends, Hplugins.
  change (default JUndefined (Some (JStr name))) with (JStr name).
  change (default JUndefined (@None jsval)) with JUndefined.
  cbn [truthy indexOf_is_absent first_element].
  destruct (String.eqb_spec name EmptyString) as [|_]; [done|].
  cbn [negb]. rewrite Hindex, Hexec. eauto.
Qed.

End FileFacts.

(** X20, at an input: the answers of the prompt, with ES6 confirmed. *)
Lemma processAnswers_env_witness :
  exists config configEnv,
    processAnswers demoVerify [] (fun _ => Some tt) demoRules (Ok tt)
      consoleRecommended promptAnswers emptyWorld
    = (Ok config, emptyWorld)
    /\ obj_get "env" (others config) = Some (JObj configEnv)
    /\ obj_get "es6" configEnv = Some (JBool true)
    /\ NoDup configEnv.*1
    /\ obj_get "plugins" (others config) = None.
Proof.
  apply (processAnswers_env demoVerify [] (fun _ => Some tt) demoRules (Ok tt)
           consoleRecommended promptAnswers emptyWorld "es6").
  - reflexivity.
  - intros envs [= <-]. apply (bool_decide_unpack _). vm_compute. exact I.
Defined.


(** X24, at an input: the configuration of the style guide "google". *)
Lemma writeFile_without_plugins_witness :
  exists what,
    writeFile (fun _ _ => Ok tt) "/project" (fun _ => None)
              [("extends", JStr "google")] "JSON"
    = [EvWriteConfig "./.eslintrc.json";
       EvLog "Successfully created .eslintrc.json file in /project";
       EvLog "Installing additional dependencies";
       EvExec [JStr "npm i eslint-config-"; JStr "google"; JStr " --save-dev"];
       EvThrowInCallback (TypeError what)].
Proof.
  apply (writeFile_without_plugins (fun _ _ => Ok tt) "/project"
           (fun _ => None) [("extends", JStr "google")] "JSON" "google");
    try reflexivity.
  discriminate.
Defined.

(** ** The other transforms, and the configurations of the core rules *)

Section MoreRegistryTheorems.
Context {SourceCode : Type}.
Implicit Types w : @world SourceCode.

(** X25. [stripExtraConfigs] and [filterBySpecificity] keep every rule of
    the registry, also one left without items: a rule keeps, in their
    order, exactly its items that have a count, or that have the
    specificity asked for. *)
Theorem stripExtraConfigs_filterBySpecificity (this : Registry) w
    (n : nat) (rule : string) :
  (stripExtraConfigs this w).1 !! rule
  = filter (fun l => holds wasLinted (heap w) l = true) <$> this !! rule
  /\ (filterBySpecificity n this w).1 !! rule
     = filter (fun l => holds (hasSpecificity n) (heap w) l = true)
       <$> this !! rule
  /\ dom (stripExtraConfigs this w).1 = dom this
  /\ dom (filterBySpecificity n this w).1 = dom this.
Proof.
  rewrite stripExtraConfigs_run, filterBySpecificity_run. cbn [fst].
  rewrite !lookup_fmap, !dom_fmap_L. auto.
Qed.

End MoreRegistryTheorems.

Section CoreRuleTheorems.
Context (coreRules : gmap string schema).

Lemma createConfigs_throw (ks : list string) (e : exn) :
  foldl (fun (accumulator : result RulesConfig) id =>
           match accumulator with
           | Throw e => Throw e
           | Ok accumulator =>
               match generateConfigsFromSchema
                       (default SchemaOther (coreRules !! id)) with
               | Ok configs => Ok (<[id := configs]> accumulator)
               | Throw e => Throw e
               end
           end) (Throw e : result RulesConfig) ks = Throw e.
Proof. induction ks as [|x ks IH]; [reflexivity|exact IH]. Qed.

Lemma createConfigs_loop_throw (ks : list string) :
  (forall k, k ∈ ks -> is_Some (coreRules !! k)) ->
  forall (acc : RulesConfig) (e : exn),
    foldl (fun accumulator id =>
             match accumulator with
             | Throw e => Throw e
             | Ok accumulator =>
                 match generateConfigsFromSchema
                         (default SchemaOther (coreRules !! id)) with
                 | Ok configs => Ok (<[id := configs]> accumulator)
                 | Throw e => Throw e
                 end
             end) (Ok acc) ks = Throw e ->
    exists id sch,
      coreRules !! id = Some sch /\ generateConfigsFromSchema sch = Throw e.
Proof.
  induction ks as [|x ks IH]; intros Hks acc e; [discriminate|].
  cbn [foldl]. destruct (Hks x) as [sch Hsch]; [left|].
  rewrite Hsch. change (default SchemaOther (Some sch)) with sch.
  destruct (generateConfigsFromSchema sch) as [configs|e'] eqn:Hgen.
  - apply IH. intros k Hk. apply Hks. by right.
  - rewrite createConfigs_throw. intros [= <-]. eauto.
Qed.

(** X26. [createConfigsForCoreRules] gives every core rule the
    configurations generated from its schema; it throws when the generator
    throws on the schema of one of the rules, and then no rule gets
    configurations. *)
Theorem createConfigsForCoreRules_result :
  match createConfigsForCoreRules coreRules with
  | Ok rulesConfig =>
      forall id, rulesConfig !! id = coreRules !! id ≫= configsOf
                 /\ (is_Some (rulesConfig !! id) <-> is_Some (coreRules !! id))
  | Throw e =>
      exists id sch,
        coreRules !! id = Some sch /\ generateConfigsFromSchema sch = Throw e
  end.
Proof.
  destruct (createConfigsForCoreRules coreRules) as [rulesConfig|e] eqn:E.
  - by apply createConfigsForCoreRules_lookup.
  - apply (createConfigs_loop_throw (keys coreRules)
             (fun k Hk => proj1 (elem_of_keys _ _) Hk) ∅ e E).
Qed.

End CoreRuleTheorems.
